(** * A forward HTTP proxy: cache, block-list, request parser, error paths

    Shallow embedding of the Go sources of the proxy server
    (cache.go, filter.go, config.go, parser.go, forwarder.go, server.go)
    and the properties of its specification that concern them.

    Conventions of the embedding.
    - A Go [string] and a Go [[]byte] are byte sequences; both are
      embedded as [string] (a list of 8-bit [ascii]).
    - Go [int] and [int64] are embedded as [Z].  Every integer the code
      computes here is a length of data held in memory, a sum of a few such
      lengths, or the result of [strconv.Atoi] (whose range check is part of
      the model), so 64-bit wrap-around does not occur.
    - A Go [map] is a [gmap].  The order of [for k := range m] is not fixed
      by Go; a function that ranges over a map takes the order of the
      visit as an argument, and statements quantify over it.
    - The mutexes of the sources serialise whole operations; each operation
      is embedded as one state transformer.
    - The cache holds pointers to its entries.  [Get] and [Put] take the
      entry by value where the identity of the object does not matter;
      [Shared.Get] and [Shared.Put] take a pointer and a store of objects,
      and [view] relates the two.
    - What the operating system hands to the code (the lines of the rules
      file, the bytes of the configuration file, whether a file opens) is
      an argument of the function that asks for it. *)

From Stdlib Require Import ZArith String Ascii List Lia Bool DecimalString
  DecimalPos.
From stdpp Require Import base option gmap strings list fin_maps.

Local Open Scope string_scope.
Local Open Scope Z_scope.

(** [simpl] may unfold the append of strings when its first argument starts
    with a constructor. *)
#[local] Arguments String.append !_ _ / : simpl nomatch.

(** ** Byte strings: the functions of Go's [strings] and [strconv] in use

    [ToLower], [ToUpper] and [TrimSpace] are embedded as Go defines them on
    ASCII text.  On bytes from 0x80 up Go decodes UTF-8 and consults the
    Unicode tables; the embedding leaves such bytes alone, so it speaks for
    the code on ASCII header lines only.  The statement whose proof looks
    into these three functions (the round trip through [SerializeRequest])
    assumes ASCII headers; the proofs of the others use nothing about
    them. *)

(** [len(s)] *)
Definition len (s : string) : Z := Z.of_nat (String.length s).

Definition byteIn (lo hi : N) (c : ascii) : bool :=
  (lo <=? N_of_ascii c)%N && (N_of_ascii c <=? hi)%N.

(** ['A'..'Z'] to ['a'..'z'] and back. *)
Definition lower (c : ascii) : ascii :=
  if byteIn 65 90 c then ascii_of_N (N_of_ascii c + 32) else c.

Definition upper (c : ascii) : ascii :=
  if byteIn 97 122 c then ascii_of_N (N_of_ascii c - 32) else c.

(** The ASCII white space of [strings.TrimSpace]:
    ['\t'], ['\n'], ['\v'], ['\f'], ['\r'], [' ']. *)
Definition isSpace (c : ascii) : bool :=
  byteIn 9 13 c || (N_of_ascii c =? 32)%N.

Definition isASCII (c : ascii) : bool := (N_of_ascii c <? 128)%N.

Fixpoint mapBytes (f : ascii → ascii) (s : string) : string :=
  match s with
  | EmptyString => EmptyString
  | String c s' => String (f c) (mapBytes f s')
  end.

Fixpoint allBytes (p : ascii → bool) (s : string) : bool :=
  match s with
  | EmptyString => true
  | String c s' => p c && allBytes p s'
  end.

(** [bytes.IndexByte(s, c) >= 0] *)
Fixpoint hasByte (c : ascii) (s : string) : bool :=
  match s with
  | EmptyString => false
  | String a s' => if Ascii.eqb a c then true else hasByte c s'
  end.

Definition ToLower (s : string) : string := mapBytes lower s.
Definition ToUpper (s : string) : string := mapBytes upper s.

Fixpoint TrimLeftFunc (p : ascii → bool) (s : string) : string :=
  match s with
  | EmptyString => EmptyString
  | String c s' => if p c then TrimLeftFunc p s' else s
  end.

Fixpoint TrimRightFunc (p : ascii → bool) (s : string) : string :=
  match s with
  | EmptyString => EmptyString
  | String c s' =>
      match TrimRightFunc p s' with
      | EmptyString => if p c then EmptyString else String c EmptyString
      | r => String c r
      end
  end.

Definition TrimSpace (s : string) : string :=
  TrimRightFunc isSpace (TrimLeftFunc isSpace s).

(** [s] does not start, or does not end, with a byte of [p]. *)
Definition startsClean (p : ascii → bool) (s : string) : bool :=
  match s with
  | EmptyString => true
  | String c _ => negb (p c)
  end.

Fixpoint endsClean (p : ascii → bool) (s : string) : bool :=
  match s with
  | EmptyString => true
  | String c EmptyString => negb (p c)
  | String _ s' => endsClean p s'
  end.

(** [strings.TrimRight(s, cutset)] *)
Definition TrimRight (s cutset : string) : string :=
  TrimRightFunc (fun c => hasByte c cutset) s.

Fixpoint HasPrefix (s prefix : string) {struct prefix} : bool :=
  match prefix, s with
  | EmptyString, _ => true
  | String p prefix', String c s' => Ascii.eqb c p && HasPrefix s' prefix'
  | String _ _, EmptyString => false
  end.

Fixpoint HasSuffix (s suffix : string) : bool :=
  if decide (s = suffix) then true
  else match s with
       | EmptyString => false
       | String _ s' => HasSuffix s' suffix
       end.

(** The slices [s[:n]] and [s[n:]], used where [n <= len(s)]. *)
Fixpoint sliceTo (n : nat) (s : string) : string :=
  match n, s with
  | S n', String c s' => String c (sliceTo n' s')
  | _, _ => EmptyString
  end.

Fixpoint sliceFrom (n : nat) (s : string) : string :=
  match n, s with
  | S n', String _ s' => sliceFrom n' s'
  | _, _ => s
  end.

(** [strings.Index(s, sep)] for a separator of one byte; [None] is [-1]. *)
Fixpoint Index (s : string) (sep : ascii) : option nat :=
  match s with
  | EmptyString => None
  | String c s' => if Ascii.eqb c sep then Some O else S <$> Index s' sep
  end.

(** [strings.SplitN(s, sep, n)] for a separator of one byte and [n > 0]:
    at most [n] parts, the last one the unsplit rest. *)
Fixpoint SplitN (s : string) (sep : ascii) (n : nat) : list string :=
  match n with
  | O => []
  | S O => [s]
  | S n' =>
      match Index s sep with
      | None => [s]
      | Some i => sliceTo i s :: SplitN (sliceFrom (S i) s) sep n'
      end
  end.

(** [strings.Split(s, sep)] for a separator of one byte. *)
Fixpoint Split (s : string) (sep : ascii) : list string :=
  match s with
  | EmptyString => [EmptyString]
  | String c s' =>
      if Ascii.eqb c sep then EmptyString :: Split s' sep
      else match Split s' sep with
           | [] => [String c EmptyString]
           | p :: ps => String c p :: ps
           end
  end.

(** [strings.Join(parts, sep)] *)
Fixpoint Join (parts : list string) (sep : string) : string :=
  match parts with
  | [] => EmptyString
  | [p] => p
  | p :: ps => p +:+ sep +:+ Join ps sep
  end.

(** [strconv.Atoi] on a 64-bit platform: an optional sign, then one or more
    decimal digits, the value within [int]; [None] is an error. *)
Definition digitVal (c : ascii) : option Z :=
  if byteIn 48 57 c then Some (Z.of_N (N_of_ascii c) - 48) else None.

Fixpoint parseDigits (acc : Z) (s : string) : option Z :=
  match s with
  | EmptyString => Some acc
  | String c s' =>
      match digitVal c with
      | Some d => parseDigits (acc * 10 + d) s'
      | None => None
      end
  end.

Definition Atoi (s : string) : option Z :=
  match s with
  | EmptyString => None
  | String c s' =>
      let neg := bool_decide (c = "-"%char) in
      let digits := if bool_decide (c = "-"%char) || bool_decide (c = "+"%char)
                    then s' else s in
      match digits with
      | EmptyString => None
      | _ =>
          match parseDigits 0 digits with
          | Some n =>
              let v := if neg then - n else n in
              if (- 2 ^ 63 <=? v) && (v <=? 2 ^ 63 - 1) then Some v else None
          | None => None
          end
      end
  end.

(** [strconv.Itoa], and [%d] of [fmt]. *)
Definition Itoa (z : Z) : string := NilZero.string_of_int (Z.to_int z).

Definition CRLF : string := String "013" (String "010" EmptyString).
Definition LF : ascii := "010"%char.
Definition CR : ascii := "013"%char.

(** ** filter.go *)

(** [Filter]: two Go maps to [bool]; a key that is absent reads [false]. *)
Record Filter := mkFilter {
  blockedDomains : gmap string bool;
  blockedIPs : gmap string bool
}.

Definition NewFilter : Filter :=
  {| blockedDomains := ∅; blockedIPs := ∅ |}.

(** [m[k]] on a [map[string]bool] *)
Definition readRule (m : gmap string bool) (k : string) : bool :=
  default false (m !! k).

(** The loop of [IsBlocked] over the keys of [blockedDomains], visited in
    the order [order]. *)
Fixpoint matchSuffixRules (host : string) (order : list string) : bool * string :=
  match order with
  | [] => (false, "")
  | domain :: rest =>
      if HasPrefix domain "*." then
        let suffix := sliceFrom 2 domain in
        if HasSuffix host ("." +:+ suffix) || bool_decide (host = suffix)
        then (true, domain)
        else matchSuffixRules host rest
      else matchSuffixRules host rest
  end.

(** [IsBlocked]; [order] is the order in which the range loop visits the
    keys of [f.blockedDomains]. *)
Definition IsBlocked (order : list string) (f : Filter) (host : string)
    : bool * string :=
  let host := ToLower (TrimSpace host) in
  if readRule (blockedDomains f) host then (true, host)
  else if readRule (blockedIPs f) host then (true, host)
  else matchSuffixRules host order.

(** The orders in which Go may visit the keys of a map: every enumeration
    of the keys without repetition. *)
Definition visits {V} (m : gmap string V) (order : list string) : Prop :=
  NoDup order ∧ ∀ k, k ∈ order ↔ is_Some (m !! k).


(** Two rule sets for the examples: the rule of the spec's scenario, and
    two wildcard rules that overlap. *)
Definition malRules : Filter :=
  {| blockedDomains := {[ "*.mal.test" := true ]}; blockedIPs := ∅ |}.

Definition overlappingRules : Filter :=
  {| blockedDomains := {[ "*.b.c" := true; "*.c" := true ]}; blockedIPs := ∅ |}.

(** ** cache.go *)

(** [CacheEntry].  The source stores [*CacheEntry].  [Get] and [Put] below
    take and return the entry by value: they are the operations as a
    program sees them that hands every [Put] an object of its own and
    assigns to no object the cache holds.  [Shared], further down, has the
    objects, the pointers and the assignments. *)
Record CacheEntry := mkCacheEntry {
  ce_Headers : gmap string string;
  ce_StatusCode : Z;
  ce_Body : string;
  ce_LastAccessed : Z;
  ce_Size : Z
}.

(** [Cache] (the mutex is not state). *)
Record Cache := mkCache {
  entries : gmap string CacheEntry;
  accessOrder : list string;
  maxEntries : Z;
  maxSize : Z;
  currentSize : Z
}.

Definition NewCache (maxEntries : Z) : Cache :=
  {| entries := ∅;
     accessOrder := [];
     maxEntries := maxEntries;
     maxSize := 100 * 1024 * 1024;
     currentSize := 0 |}.

(** The two assignments to fields of an entry: [entry.Size = sz] and
    [entry.LastAccessed = time.Now()]. *)
Definition set_Size (sz : Z) (entry : CacheEntry) : CacheEntry :=
  {| ce_Headers := ce_Headers entry;
     ce_StatusCode := ce_StatusCode entry;
     ce_Body := ce_Body entry;
     ce_LastAccessed := ce_LastAccessed entry;
     ce_Size := sz |}.

Definition set_LastAccessed (now : Z) (entry : CacheEntry) : CacheEntry :=
  {| ce_Headers := ce_Headers entry;
     ce_StatusCode := ce_StatusCode entry;
     ce_Body := ce_Body entry;
     ce_LastAccessed := now;
     ce_Size := ce_Size entry |}.

(** [removeFromOrder]: drop the first occurrence of [key]. *)
Fixpoint removeFromOrder (key : string) (order : list string) : list string :=
  match order with
  | [] => []
  | k :: rest =>
      if decide (k = key) then rest else k :: removeFromOrder key rest
  end.

Definition moveToEnd (key : string) (order : list string) : list string :=
  removeFromOrder key order ++ [key].

(** [Get]; [now] stands for [time.Now()]. *)
Definition Get (now : Z) (key : string) (c : Cache) : option CacheEntry * Cache :=
  match entries c !! key with
  | None => (None, c)
  | Some entry =>
      let entry' := set_LastAccessed now entry in
      (Some entry',
       {| entries := <[key := entry']> (entries c);
          accessOrder := moveToEnd key (accessOrder c);
          maxEntries := maxEntries c;
          maxSize := maxSize c;
          currentSize := currentSize c |})
  end.

(** [evictLRU] *)
Definition evictLRU (c : Cache) : Cache :=
  match accessOrder c with
  | [] => c
  | key :: rest =>
      match entries c !! key with
      | Some entry =>
          {| entries := delete key (entries c);
             accessOrder := rest;
             maxEntries := maxEntries c;
             maxSize := maxSize c;
             currentSize := currentSize c - ce_Size entry |}
      | None =>
          {| entries := entries c;
             accessOrder := rest;
             maxEntries := maxEntries c;
             maxSize := maxSize c;
             currentSize := currentSize c |}
      end
  end.

(** The size [Put] computes:
    [len(entry.Body)] plus [len(k) + len(v)] over the headers. *)
Definition entrySize (entry : CacheEntry) : Z :=
  map_fold (fun k v acc => acc + (len k + len v)) (len (ce_Body entry))
           (ce_Headers entry).

(** The guard of the eviction loop of [Put]. *)
Definition mustEvict (entrySize : Z) (c : Cache) : bool :=
  (Z.geb (Z.of_nat (size (entries c))) (maxEntries c)
   || Z.gtb (currentSize c + entrySize) (maxSize c))
  && Z.gtb (Z.of_nat (size (entries c))) 0.

(** The eviction loop of [Put].  [fuel] bounds the number of iterations;
    [None] is a loop that has not left after [fuel] rounds. *)
Fixpoint evictLoop (fuel : nat) (entrySize : Z) (c : Cache) : option Cache :=
  if mustEvict entrySize c then
    match fuel with
    | O => None
    | S fuel' => evictLoop fuel' entrySize (evictLRU c)
    end
  else Some c.

(** [Put] *)
Definition Put (fuel : nat) (now : Z) (key : string) (entry : CacheEntry)
    (c : Cache) : option Cache :=
  let sz := entrySize entry in
  let entry' := set_LastAccessed now (set_Size sz entry) in
  let c1 :=
    match entries c !! key with
    | Some existing =>
        {| entries := entries c;
           accessOrder := removeFromOrder key (accessOrder c);
           maxEntries := maxEntries c;
           maxSize := maxSize c;
           currentSize := currentSize c - ce_Size existing |}
    | None => c
    end in
  match evictLoop fuel sz c1 with
  | None => None
  | Some c2 =>
      Some {| entries := <[key := entry']> (entries c2);
              accessOrder := accessOrder c2 ++ [key];
              maxEntries := maxEntries c2;
              maxSize := maxSize c2;
              currentSize := currentSize c2 + sz |}
  end.

(** [Clear] *)
Definition Clear (c : Cache) : Cache :=
  {| entries := ∅;
     accessOrder := [];
     maxEntries := maxEntries c;
     maxSize := maxSize c;
     currentSize := 0 |}.

(** Cache operations and their sequences. *)
Inductive CacheOp :=
| OpGet (now : Z) (key : string)
| OpPut (now : Z) (key : string) (entry : CacheEntry)
| OpClear.

Definition runOp (fuel : nat) (op : CacheOp) (c : Cache) : option Cache :=
  match op with
  | OpGet now key => Some (snd (Get now key c))
  | OpPut now key entry => Put fuel now key entry c
  | OpClear => Some (Clear c)
  end.

Fixpoint runOps (fuel : nat) (ops : list CacheOp) (c : Cache) : option Cache :=
  match ops with
  | [] => Some c
  | op :: rest =>
      match runOp fuel op c with
      | None => None
      | Some c' => runOps fuel rest c'
      end
  end.

(** Sum of the stored sizes. *)
Definition totalSize (m : gmap string CacheEntry) : Z :=
  map_fold (fun _ e acc => acc + ce_Size e) 0 m.

Definition MakeCacheKey (method requestTarget : string) : string :=
  if bool_decide (method ≠ "GET") then "" else method +:+ ":" +:+ requestTarget.

Definition IsCacheable (method : string) (statusCode : Z) : bool :=
  if bool_decide (method ≠ "GET") then false else bool_decide (statusCode = 200).

(** ** cache.go, with the entries as the objects they are

    [entries] is a [map[string]*CacheEntry]: the map holds pointers, [Put]
    is handed a pointer and [Get] hands one out, and both assign to fields
    of the object behind it.  Here an entry object is named by a [ptr], a
    [Store] says what each object holds, and every operation takes the
    store and returns it.  The caller keeps the pointers, so it can assign
    to an object that the cache holds, and hand the same object to [Put]
    twice.  No [ptr] is [nil]. *)
Module Shared.

Definition ptr := positive.

Definition Store := ptr → CacheEntry.

(** [*entry = value] *)
Definition assign (h : Store) (entry : ptr) (value : CacheEntry) : Store :=
  fun p => if decide (p = entry) then value else h p.

Record Cache := mkCache {
  entries : gmap string ptr;
  accessOrder : list string;
  maxEntries : Z;
  maxSize : Z;
  currentSize : Z
}.

Definition NewCache (maxEntries : Z) : Cache :=
  {| entries := ∅;
     accessOrder := [];
     maxEntries := maxEntries;
     maxSize := 100 * 1024 * 1024;
     currentSize := 0 |}.

(** [Get]: [entry.LastAccessed = time.Now()] is an assignment to the object
    in the store. *)
Definition Get (now : Z) (key : string) (h : Store) (c : Cache)
    : option ptr * Store * Cache :=
  match entries c !! key with
  | None => (None, h, c)
  | Some entry =>
      (Some entry,
       assign h entry (set_LastAccessed now (h entry)),
       {| entries := entries c;
          accessOrder := moveToEnd key (accessOrder c);
          maxEntries := maxEntries c;
          maxSize := maxSize c;
          currentSize := currentSize c |})
  end.

(** [evictLRU] reads [entry.Size] from the store. *)
Definition evictLRU (h : Store) (c : Cache) : Cache :=
  match accessOrder c with
  | [] => c
  | key :: rest =>
      match entries c !! key with
      | Some entry =>
          {| entries := delete key (entries c);
             accessOrder := rest;
             maxEntries := maxEntries c;
             maxSize := maxSize c;
             currentSize := currentSize c - ce_Size (h entry) |}
      | None =>
          {| entries := entries c;
             accessOrder := rest;
             maxEntries := maxEntries c;
             maxSize := maxSize c;
             currentSize := currentSize c |}
      end
  end.

Definition mustEvict (entrySize : Z) (c : Cache) : bool :=
  (Z.geb (Z.of_nat (size (entries c))) (maxEntries c)
   || Z.gtb (currentSize c + entrySize) (maxSize c))
  && Z.gtb (Z.of_nat (size (entries c))) 0.

Fixpoint evictLoop (fuel : nat) (entrySize : Z) (h : Store) (c : Cache)
    : option Cache :=
  if mustEvict entrySize c then
    match fuel with
    | O => None
    | S fuel' => evictLoop fuel' entrySize h (evictLRU h c)
    end
  else Some c.

(** [Put].  The two assignments to [entry] come first, so that
    [existing.Size], read after them, is the new size when [existing] and
    [entry] are the same object. *)
Definition Put (fuel : nat) (now : Z) (key : string) (entry : ptr)
    (h : Store) (c : Cache) : option (Store * Cache) :=
  let sz := entrySize (h entry) in
  let h := assign h entry (set_LastAccessed now (set_Size sz (h entry))) in
  let c1 :=
    match entries c !! key with
    | Some existing =>
        {| entries := entries c;
           accessOrder := removeFromOrder key (accessOrder c);
           maxEntries := maxEntries c;
           maxSize := maxSize c;
           currentSize := currentSize c - ce_Size (h existing) |}
    | None => c
    end in
  match evictLoop fuel sz h c1 with
  | None => None
  | Some c2 =>
      Some (h,
            {| entries := <[key := entry]> (entries c2);
               accessOrder := accessOrder c2 ++ [key];
               maxEntries := maxEntries c2;
               maxSize := maxSize c2;
               currentSize := currentSize c2 + sz |})
  end.

Definition Clear (c : Cache) : Cache :=
  {| entries := ∅;
     accessOrder := [];
     maxEntries := maxEntries c;
     maxSize := maxSize c;
     currentSize := 0 |}.

Definition GetStats (c : Cache) : Z * Z :=
  (Z.of_nat (size (entries c)), currentSize c).

(** What a program does with a cache: the three operations, and
    assignments of its own to an entry object, [*entry = value]. *)
Inductive CacheOp :=
| OpGet (now : Z) (key : string)
| OpPut (now : Z) (key : string) (entry : ptr)
| OpClear
| OpAssign (entry : ptr) (value : CacheEntry).

Definition runOp (fuel : nat) (op : CacheOp) (h : Store) (c : Cache)
    : option (Store * Cache) :=
  match op with
  | OpGet now key => let '(_, h, c) := Get now key h c in Some (h, c)
  | OpPut now key entry => Put fuel now key entry h c
  | OpClear => Some (h, Clear c)
  | OpAssign entry value => Some (assign h entry value, c)
  end.

Fixpoint runOps (fuel : nat) (ops : list CacheOp) (h : Store) (c : Cache)
    : option (Store * Cache) :=
  match ops with
  | [] => Some (h, c)
  | op :: rest =>
      match runOp fuel op h c with
      | None => None
      | Some (h', c') => runOps fuel rest h' c'
      end
  end.

(** The cache holds the object: some key maps to it. *)
Definition holds (c : Cache) (entry : ptr) : bool :=
  bool_decide (entry ∈ (map_to_list (entries c)).*2).

(** The program assigns to no object while the cache holds it. *)
Fixpoint leavesHeld (fuel : nat) (ops : list CacheOp) (h : Store) (c : Cache)
    : bool :=
  match ops with
  | [] => true
  | op :: rest =>
      match op with
      | OpAssign entry _ => negb (holds c entry)
      | _ => true
      end
      && match runOp fuel op h c with
         | None => true
         | Some (h', c') => leavesHeld fuel rest h' c'
         end
  end.

End Shared.

(** The cache as [Get], [Put] and [evictLRU] see it through the pointers:
    under every key, what the object holds. *)
Definition view (h : Shared.Store) (c : Shared.Cache) : Cache :=
  {| entries := h <$> Shared.entries c;
     accessOrder := Shared.accessOrder c;
     maxEntries := Shared.maxEntries c;
     maxSize := Shared.maxSize c;
     currentSize := Shared.currentSize c |}.

(** Two stores that give every object the cache holds the same [Size], and
    the same body and headers as far as [entrySize] goes. *)
Definition agree (h h' : Shared.Store) (c : Shared.Cache) : Prop :=
  ∀ k q, Shared.entries c !! k = Some q →
         ce_Size (h' q) = ce_Size (h q) ∧ entrySize (h' q) = entrySize (h q).

(** ** net/url, as far as parser.go looks at it

    [url.Parse] belongs to Go's library, not to this repository.  The
    embedding takes it as a parameter [url_Parse] that returns, for a URL
    it accepts, the four observations the parser makes of the [*url.URL]:
    [Hostname()], [Port()], [Path] and [RawQuery]. *)
Record URL := mkURL {
  url_Hostname : string;
  url_Port : string;
  url_Path : string;
  url_RawQuery : string
}.

(** *** A reference instance

    [url_Parse_ref] follows [net/url] on absolute [http] and [https] URLs
    whose authority has no userinfo, no escape and no IP literal in
    brackets; it answers [None] on every other input, some of which
    [net/url] accepts.  It serves the concrete examples. *)
Definition isHex (c : ascii) : bool :=
  byteIn 48 57 c || byteIn 97 102 c || byteIn 65 70 c.

Definition unHex (c : ascii) : N :=
  if byteIn 48 57 c then N_of_ascii c - 48
  else if byteIn 97 102 c then N_of_ascii c - 97 + 10
  else N_of_ascii c - 65 + 10.

(** [unescape], in the mode of paths and fragments. *)
Fixpoint unescape (s : string) : option string :=
  match s with
  | EmptyString => Some EmptyString
  | String c r =>
      if Ascii.eqb c "%" then
        match r with
        | String a (String b r') =>
            if isHex a && isHex b
            then String (ascii_of_N (16 * unHex a + unHex b)) <$> unescape r'
            else None
        | _ => None
        end
      else String c <$> unescape r
  end.

(** [stringContainsCTLByte] *)
Definition isCTL (c : ascii) : bool :=
  (N_of_ascii c <? 32)%N || (N_of_ascii c =? 127)%N.

(** The bytes [net/url] lets stand in a host. *)
Definition hostByteOK (c : ascii) : bool :=
  byteIn 48 57 c || byteIn 97 122 c || byteIn 65 90 c
  || negb (isASCII c)
  || hasByte c "-_.~!$&'()*+,;=:<>" || Ascii.eqb c "034".

(** [strings.LastIndex(s, sep)] for a separator of one byte. *)
Fixpoint LastIndex (s : string) (sep : ascii) : option nat :=
  match s with
  | EmptyString => None
  | String c s' =>
      match LastIndex s' sep with
      | Some i => Some (S i)
      | None => if Ascii.eqb c sep then Some O else None
      end
  end.

Fixpoint countByte (c : ascii) (s : string) : nat :=
  match s with
  | EmptyString => O
  | String a s' => (if Ascii.eqb a c then 1 else 0) + countByte c s'
  end.

Definition url_Parse_ref (rawURL : string) : option URL :=
  let '(u, frag) :=
    match Index rawURL "#" with
    | Some i => (sliceTo i rawURL, sliceFrom (S i) rawURL)
    | None => (rawURL, EmptyString)
    end in
  if negb (allBytes (fun c => negb (isCTL c)) u) then None else
  let rest :=
    if HasPrefix u "http:" then Some (sliceFrom 5 u)
    else if HasPrefix u "https:" then Some (sliceFrom 6 u)
    else None in
  match rest with
  | None => None
  | Some rest =>
      let '(rest, rawQuery) :=
        if HasSuffix rest "?" && Nat.eqb (countByte "?" rest) 1
        then (sliceTo (String.length rest - 1) rest, EmptyString)
        else match Index rest "?" with
             | Some i => (sliceTo i rest, sliceFrom (S i) rest)
             | None => (rest, EmptyString)
             end in
      if negb (HasPrefix rest "//") then None else
      let authority := sliceFrom 2 rest in
      let '(authority, rest) :=
        match Index authority "/" with
        | Some i => (sliceTo i authority, sliceFrom i authority)
        | None => (authority, EmptyString)
        end in
      if hasByte "@" authority || hasByte "%" authority || hasByte "[" authority
         || hasByte "]" authority
      then None else
      if negb (allBytes hostByteOK authority) then None else
      let hostPort :=
        match LastIndex authority ":" with
        | Some i =>
            if allBytes (byteIn 48 57) (sliceFrom (S i) authority)
            then Some (sliceTo i authority, sliceFrom (S i) authority)
            else None
        | None => Some (authority, EmptyString)
        end in
      match hostPort, unescape rest, unescape frag with
      | Some (host, port), Some path, Some _ =>
          Some {| url_Hostname := host; url_Port := port;
                  url_Path := path; url_RawQuery := rawQuery |}
      | _, _, _ => None
      end
  end.

(** ** parser.go *)

Record HTTPRequest := mkHTTPRequest {
  req_Method : string;
  req_RequestTarget : string;
  req_Version : string;
  req_Headers : gmap string string;
  req_Body : string;
  req_Host : string;
  req_Port : Z;
  req_IsConnect : bool
}.

(** The errors of the parser, one for each [fmt.Errorf] of parser.go. *)
Inductive ParseError :=
| ErrReadRequestLine
| ErrInvalidRequestLine
| ErrInvalidConnectTarget
| ErrInvalidConnectPort
| ErrReadHeaders
| ErrParseAbsoluteURI
| ErrInvalidURIPort
| ErrMissingHostHeader
| ErrInvalidHostPort
| ErrInvalidContentLength
| ErrNegativeContentLength
| ErrContentLengthTooLarge
| ErrReadBody.

Inductive result (A : Type) :=
| Ok (a : A)
| Err (e : ParseError).
Arguments Ok {A} a.
Arguments Err {A} e.

(** A [*bufio.Reader] is embedded as the bytes that are still to come; the
    stream ends after them (end of file, reset or deadline).

    [reader.ReadString(delim)]: the line with its delimiter and the rest of
    the reader, or [None] when the stream ends before a delimiter. *)
Fixpoint ReadString (delim : ascii) (reader : string) : option (string * string) :=
  match reader with
  | EmptyString => None
  | String c r =>
      if Ascii.eqb c delim then Some (String c EmptyString, r)
      else match ReadString delim r with
           | Some (line, rest) => Some (String c line, rest)
           | None => None
           end
  end.

(** [io.ReadFull(reader, buf)] with [len(buf) = n] *)
Definition ReadFull (n : nat) (reader : string) : option (string * string) :=
  if (n <=? String.length reader)%nat
  then Some (sliceTo n reader, sliceFrom n reader)
  else None.

(** The header loop of [ParseHTTPRequest].  Every round takes at least one
    byte from the reader, so [String.length reader] rounds are all there can
    be; the round with no fuel left is the round on the empty reader, which
    fails in [ReadString]. *)
Fixpoint readHeaderLines (fuel : nat) (headers : gmap string string)
    (reader : string) : result (gmap string string * string) :=
  match fuel with
  | O => Err ErrReadHeaders
  | S fuel' =>
      match ReadString LF reader with
      | None => Err ErrReadHeaders
      | Some (line, reader') =>
          let line := TrimRight line CRLF in
          if bool_decide (line = "") then Ok (headers, reader')
          else match Index line ":" with
               | None => readHeaderLines fuel' headers reader'
               | Some idx =>
                   let key := TrimSpace (ToLower (sliceTo idx line)) in
                   let value := TrimSpace (sliceFrom (S idx) line) in
                   readHeaderLines fuel' (<[key := value]> headers) reader'
               end
      end
  end.

Definition readHeaders (reader : string) : result (gmap string string * string) :=
  readHeaderLines (String.length reader) ∅ reader.

(** [readBody]: the body and the rest of the reader. *)
Definition readBody (headers : gmap string string) (reader : string)
    : result (string * string) :=
  match headers !! "content-length" with
  | None => Ok (EmptyString, reader)
  | Some contentLengthStr =>
      match Atoi contentLengthStr with
      | None => Err ErrInvalidContentLength
      | Some contentLength =>
          if contentLength <? 0 then Err ErrNegativeContentLength
          else if contentLength >? 10 * 1024 * 1024 then Err ErrContentLengthTooLarge
          else match ReadFull (Z.to_nat contentLength) reader with
               | None => Err ErrReadBody
               | Some (body, rest) => Ok (body, rest)
               end
      end
  end.

Definition isAbsoluteForm (target : string) : bool :=
  HasPrefix target "http://" || HasPrefix target "https://".

(** [capitalizeHeader] *)
Definition capitalizePart (part : string) : string :=
  if 0 <? len part then ToUpper (sliceTo 1 part) +:+ ToLower (sliceFrom 1 part)
  else part.

Definition capitalizeHeader (name : string) : string :=
  Join (map capitalizePart (Split name "-")) "-".

Section Parser.

(** [url.Parse] *)
Variable url_Parse : string → option URL.

(** [extractHostAndPort]: the host and the port. *)
Definition extractHostAndPort (target : string) (headers : gmap string string)
    : result (string * Z) :=
  if isAbsoluteForm target then
    match url_Parse target with
    | None => Err ErrParseAbsoluteURI
    | Some parsedURL =>
        let portStr := url_Port parsedURL in
        if bool_decide (portStr = "") then
          if HasPrefix target "https://"
          then Ok (url_Hostname parsedURL, 443)
          else Ok (url_Hostname parsedURL, 80)
        else match Atoi portStr with
             | None => Err ErrInvalidURIPort
             | Some port => Ok (url_Hostname parsedURL, port)
             end
    end
  else
    match headers !! "host" with
    | None => Err ErrMissingHostHeader
    | Some hostHeader =>
        match SplitN hostHeader ":" 2 with
        | [host; portStr] =>
            match Atoi portStr with
            | None => Err ErrInvalidHostPort
            | Some port => Ok (host, port)
            end
        | hostPort => Ok (hd EmptyString hostPort, 80)
        end
    end.

(** [ParseHTTPRequest]: the request and the rest of the reader. *)
Definition ParseHTTPRequest (reader : string) : result (HTTPRequest * string) :=
  match ReadString LF reader with
  | None => Err ErrReadRequestLine
  | Some (requestLine, reader) =>
      let requestLine := TrimRight requestLine CRLF in
      match SplitN requestLine " " 3 with
      | [p0; p1; p2] =>
          let method := ToUpper p0 in
          if bool_decide (method = "CONNECT") then
            match SplitN p1 ":" 2 with
            | [host; portStr] =>
                match Atoi portStr with
                | None => Err ErrInvalidConnectPort
                | Some port =>
                    Ok ({| req_Method := method; req_RequestTarget := p1;
                           req_Version := p2; req_Headers := ∅;
                           req_Body := EmptyString; req_Host := host;
                           req_Port := port; req_IsConnect := true |}, reader)
                end
            | _ => Err ErrInvalidConnectTarget
            end
          else
            match readHeaders reader with
            | Err e => Err e
            | Ok (headers, reader) =>
                match extractHostAndPort p1 headers with
                | Err e => Err e
                | Ok (host, port) =>
                    match readBody headers reader with
                    | Err e => Err e
                    | Ok (body, reader) =>
                        Ok ({| req_Method := method; req_RequestTarget := p1;
                               req_Version := p2; req_Headers := headers;
                               req_Body := body; req_Host := host;
                               req_Port := port; req_IsConnect := false |},
                            reader)
                    end
                end
            end
      | _ => Err ErrInvalidRequestLine
      end
  end.

(** The request-target [SerializeRequest] writes. *)
Definition upstreamTarget (target : string) : string :=
  if isAbsoluteForm target then
    match url_Parse target with
    | Some parsedURL =>
        let path := if bool_decide (url_Path parsedURL = "") then "/"
                    else url_Path parsedURL in
        if bool_decide (url_RawQuery parsedURL ≠ "")
        then path +:+ "?" +:+ url_RawQuery parsedURL
        else path
    | None => target
    end
  else target.

(** [SerializeRequest]; [hs] is the order in which the range loop visits
    the headers. *)
Definition SerializeRequest (hs : list (string * string)) (req : HTTPRequest)
    : string :=
  (req_Method req +:+ " " +:+ upstreamTarget (req_RequestTarget req) +:+ " "
     +:+ req_Version req +:+ CRLF)
  +:+ fold_right
        (fun kv acc => (capitalizeHeader kv.1 +:+ ": " +:+ kv.2 +:+ CRLF) +:+ acc)
        EmptyString hs
  +:+ CRLF
  +:+ req_Body req.

End Parser.

(** ** Connections

    A [net.Conn] is embedded by what the other side does with it: the bytes
    it sends before its stream ends, how the stream ends, and how many
    bytes it takes before a [Write] fails.  [c_out] collects what has been
    written to it. *)
Inductive ReadEnd :=
| EndEOF      (* orderly close: [io.EOF] *)
| EndError.   (* reset, or the deadline: another error *)

Record Conn := mkConn {
  c_in : string;
  c_end : ReadEnd;
  c_out : string;
  c_room : option nat
}.

(** [conn.Write(p)]: the count, whether there is an error, the connection
    afterwards.  As [io.Writer] asks, the count is [len(p)] when there is
    no error. *)
Definition Write (conn : Conn) (p : string) : Z * bool * Conn :=
  match c_room conn with
  | None =>
      (len p, false,
       {| c_in := c_in conn; c_end := c_end conn;
          c_out := c_out conn +:+ p; c_room := None |})
  | Some room =>
      if (String.length p <=? room)%nat then
        (len p, false,
         {| c_in := c_in conn; c_end := c_end conn;
            c_out := c_out conn +:+ p;
            c_room := Some (room - String.length p)%nat |})
      else
        (Z.of_nat room, true,
         {| c_in := c_in conn; c_end := c_end conn;
            c_out := c_out conn +:+ sliceTo room p;
            c_room := Some O |})
  end.

(** ** forwarder.go *)

Definition readBufferSize : nat := Z.to_nat 8192.

(** [writeAll].  A [Write] without error has taken the whole slice, so the
    loop of the source ends after its first round; a [Write] with an error
    returns from inside it, with the count of the rounds before, which
    is 0. *)
Definition writeAll (conn : Conn) (data : string) : Z * bool * Conn :=
  if 0 <? len data then
    let '(n, err, conn) := Write conn data in
    if err then (0, true, conn) else (n, false, conn)
  else (0, false, conn).

(** [streamBody].  [reader.Read] hands over what has arrived, at most
    [readBufferSize] bytes at a time, and then the end of the stream.  Every
    round but the last takes at least one byte. *)
Fixpoint streamBodyLoop (fuel : nat) (reader : string) (e : ReadEnd)
    (clientConn : Conn) (totalBytes : Z) : Z * bool * Conn :=
  match fuel with
  | O => (totalBytes, false, clientConn)
  | S fuel' =>
      let n := Nat.min readBufferSize (String.length reader) in
      if (0 <? n)%nat then
        let '(written, writeErr, clientConn) := writeAll clientConn (sliceTo n reader) in
        let totalBytes := totalBytes + written in
        if writeErr then (totalBytes, true, clientConn)
        else streamBodyLoop fuel' (sliceFrom n reader) e clientConn totalBytes
      else
        match e with
        | EndEOF => (totalBytes, false, clientConn)
        | EndError => (totalBytes, true, clientConn)
        end
  end.

Definition streamBody (reader : string) (e : ReadEnd) (clientConn : Conn)
    : Z * bool * Conn :=
  streamBodyLoop (S (String.length reader)) reader e clientConn 0.

(** The header loop of [forwardResponse]. *)
Fixpoint forwardHeaderLines (fuel : nat) (reader : string) (clientConn : Conn)
    (bytesWritten : Z) : Z * bool * Conn * string :=
  match fuel with
  | O => (bytesWritten, true, clientConn, reader)
  | S fuel' =>
      match ReadString LF reader with
      | None => (bytesWritten, true, clientConn, reader)
      | Some (line, reader) =>
          let '(written, err, clientConn) := writeAll clientConn line in
          let bytesWritten := bytesWritten + written in
          if err then (bytesWritten, true, clientConn, reader)
          else if bool_decide (line = CRLF) || bool_decide (line = String LF EmptyString)
               then (bytesWritten, false, clientConn, reader)
               else forwardHeaderLines fuel' reader clientConn bytesWritten
      end
  end.

(** [forwardResponse]: status code, bytes written, error, client. *)
Definition forwardResponse (upstreamConn clientConn : Conn) : Z * Z * bool * Conn :=
  match ReadString LF (c_in upstreamConn) with
  | None => (0, 0, true, clientConn)
  | Some (statusLine, reader) =>
      let parts := SplitN (TrimSpace statusLine) " " 3 in
      let statusCode :=
        match parts with
        | _ :: code :: _ => default 0 (Atoi code)
        | _ => 0
        end in
      let '(bytesWritten, err, clientConn) := writeAll clientConn statusLine in
      if err then (statusCode, bytesWritten, true, clientConn)
      else
        let '(bytesWritten, err, clientConn, reader) :=
          forwardHeaderLines (String.length reader) reader clientConn bytesWritten in
        if err then (statusCode, bytesWritten, true, clientConn)
        else
          let '(bodyBytes, err, clientConn) :=
            streamBody reader (c_end upstreamConn) clientConn in
          (statusCode, bytesWritten + bodyBytes, err, clientConn)
  end.

(** [net.JoinHostPort] *)
Definition JoinHostPort (host port : string) : string :=
  if hasByte ":" host
  then "[" +:+ host +:+ "]:" +:+ port
  else host +:+ ":" +:+ port.

(** ** server.go *)

Record Config := mkConfig {
  ListenAddress : string;
  ListenPort : Z;
  ConcurrencyModel : string;
  ThreadPoolSize : Z;
  LogFilePath : string;
  LogMaxSizeMB : Z;
  BlockedDomainsFile : string;
  EnableCaching : bool;
  CacheMaxEntries : Z;
  EnableConnectTunnel : bool;
  AuthToken : string
}.

Record LogEntry := mkLogEntry {
  le_Timestamp : Z;
  le_ClientIP : string;
  le_ClientPort : Z;
  le_DestinationHost : string;
  le_DestinationPort : Z;
  le_Method : string;
  le_RequestTarget : string;
  le_Action : string;
  le_UpstreamStatus : Z;
  le_BytesUpstream : Z;
  le_BytesDownstream : Z;
  le_BlockedRule : string
}.

(** The parts of [Server] that [handleConnection] consults. *)
Record Server := mkServer {
  config : Config;
  filter : Filter;
  cache : option Cache
}.

(** What [handleConnection] finds outside the process.
    - [dial addr]: the connection [net.DialTimeout] returns, or [None].
    - [rangeRules], [rangeHeaders]: the orders in which the range loops
      visit the block-list and a header map.
    - [tunnelDown], [tunnelErr]: for a CONNECT tunnel, the bytes the two
      copying goroutines have passed to the client when the first of them
      ends, and whether it ended with an error.
    - [now]: the clock. *)
Record World := mkWorld {
  dial : string → option Conn;
  rangeRules : gmap string bool → list string;
  rangeHeaders : gmap string string → list (string * string);
  tunnelDown : string;
  tunnelErr : bool;
  now : Z
}.

(** [sendErrorResponse]: the response, and the write of it. *)
Definition errorResponse (statusCode : Z) (message : string) : string :=
  let body := Itoa statusCode +:+ " " +:+ message in
  let response := "HTTP/1.1 " +:+ Itoa statusCode +:+ " " +:+ message +:+ CRLF in
  let response := response +:+ "Content-Type: text/plain" +:+ CRLF in
  let response := response +:+ ("Content-Length: " +:+ Itoa (len body) +:+ CRLF) in
  let response := response +:+ "Connection: close" +:+ CRLF in
  let response := response +:+ CRLF in
  response +:+ body.

Definition sendErrorResponse (conn : Conn) (statusCode : Z) (message : string) : Conn :=
  (Write conn (errorResponse statusCode message)).2.

(** [serveCachedResponse]; [hs] is the order of the range loop. *)
Definition serveCachedResponse (hs : list (string * string)) (conn : Conn)
    (entry : CacheEntry) : Conn :=
  let conn := (Write conn ("HTTP/1.1 " +:+ Itoa (ce_StatusCode entry) +:+ " OK" +:+ CRLF)).2 in
  let conn := fold_left
                (fun conn kv => (Write conn (kv.1 +:+ ": " +:+ kv.2 +:+ CRLF)).2)
                hs conn in
  let conn := (Write conn CRLF).2 in
  (Write conn (ce_Body entry)).2.

(** The text of an error, up to the detail [fmt.Errorf] formats into it. *)
Definition errorText (e : ParseError) : string :=
  match e with
  | ErrReadRequestLine => "failed to read request line"
  | ErrInvalidRequestLine => "invalid request line"
  | ErrInvalidConnectTarget => "invalid CONNECT target"
  | ErrInvalidConnectPort => "invalid port in CONNECT"
  | ErrReadHeaders => "failed to read headers"
  | ErrParseAbsoluteURI => "failed to parse absolute URI"
  | ErrInvalidURIPort => "invalid port in URI"
  | ErrMissingHostHeader => "missing Host header"
  | ErrInvalidHostPort => "invalid port in Host header"
  | ErrInvalidContentLength => "invalid Content-Length"
  | ErrNegativeContentLength => "negative Content-Length"
  | ErrContentLengthTooLarge => "Content-Length too large"
  | ErrReadBody => "failed to read body"
  end.

(** [logRequest]: the entry handed to the logger. *)
Definition logRequest (w : World) (clientIP : string) (clientPort : Z)
    (destHost : string) (destPort : Z) (method target action : string)
    (statusCode bytesUp bytesDown : Z) (blockedRule : string) : LogEntry :=
  {| le_Timestamp := now w;
     le_ClientIP := clientIP;
     le_ClientPort := clientPort;
     le_DestinationHost := destHost;
     le_DestinationPort := destPort;
     le_Method := method;
     le_RequestTarget := target;
     le_Action := action;
     le_UpstreamStatus := statusCode;
     le_BytesUpstream := bytesUp;
     le_BytesDownstream := bytesDown;
     le_BlockedRule := blockedRule |}.

Section Server.

Variable url_Parse : string → option URL.

(** [ForwardRequest]: status code, bytes to upstream, bytes to the client,
    the error if any, and the client connection. *)
Definition ForwardRequest (w : World) (req : HTTPRequest) (clientConn : Conn)
    : Z * Z * Z * option string * Conn :=
  let upstreamAddr := JoinHostPort (req_Host req) (Itoa (req_Port req)) in
  match dial w upstreamAddr with
  | None => (0, 0, 0, Some "failed to connect to upstream", clientConn)
  | Some upstreamConn =>
      let requestBytes :=
        SerializeRequest url_Parse (rangeHeaders w (req_Headers req)) req in
      let '(bytesUpstream, err, upstreamConn) := writeAll upstreamConn requestBytes in
      if err then (0, bytesUpstream, 0, Some "failed to send request", clientConn)
      else
        let '(statusCode, bytesDownstream, err, clientConn) :=
          forwardResponse upstreamConn clientConn in
        if err
        then (statusCode, bytesUpstream, bytesDownstream,
              Some "failed to forward response", clientConn)
        else (statusCode, bytesUpstream, bytesDownstream, None, clientConn)
  end.

(** [HandleCONNECT]: the error if any, and the client connection. *)
Definition HandleCONNECT (w : World) (req : HTTPRequest) (clientConn : Conn)
    : option string * Conn :=
  let upstreamAddr := JoinHostPort (req_Host req) (Itoa (req_Port req)) in
  match dial w upstreamAddr with
  | None =>
      let response := "HTTP/1.1 502 Bad Gateway" +:+ CRLF +:+ CRLF in
      (Some "failed to connect to upstream", (Write clientConn response).2)
  | Some upstreamConn =>
      let response := "HTTP/1.1 200 Connection Established" +:+ CRLF +:+ CRLF in
      let '(_, err, clientConn) := Write clientConn response in
      if err then (Some "failed to send CONNECT response", clientConn)
      else
        let clientConn := (Write clientConn (tunnelDown w)).2 in
        if tunnelErr w then (Some "tunnel", clientConn) else (None, clientConn)
  end.

(** [handleConnection]: the client connection and the cache afterwards, and
    the entry that is logged. *)
Definition handleConnection (s : Server) (w : World) (clientIP : string)
    (clientPort : Z) (conn : Conn) : Conn * option Cache * LogEntry :=
  match ParseHTTPRequest url_Parse (c_in conn) with
  | Err err =>
      (sendErrorResponse conn 400 "Bad Request", cache s,
       logRequest w clientIP clientPort "" 0 "UNKNOWN" "" "ERROR" 400 0 0
         (errorText err))
  | Ok (req, _) =>
      let log := logRequest w clientIP clientPort (req_Host req) (req_Port req)
                   (req_Method req) (req_RequestTarget req) in
      if bool_decide (AuthToken (config s) ≠ "")
         && bool_decide (default "" (req_Headers req !! "proxy-authorization")
                         ≠ AuthToken (config s))
      then (sendErrorResponse conn 407 "Proxy Authentication Required", cache s,
            log "AUTH_FAILED" 407 0 0 "")
      else if req_IsConnect req then
        if negb (EnableConnectTunnel (config s)) then
          (sendErrorResponse conn 501 "Not Implemented", cache s,
           log "BLOCKED" 501 0 0 "CONNECT not enabled")
        else
          let '(blocked, rule) :=
            IsBlocked (rangeRules w (blockedDomains (filter s))) (filter s)
              (req_Host req) in
          if blocked then
            (sendErrorResponse conn 403 "Forbidden", cache s,
             log "BLOCKED" 403 0 0 rule)
          else
            match HandleCONNECT w req conn with
            | (Some err, conn) => (conn, cache s, log "ERROR" 0 0 0 err)
            | (None, conn) => (conn, cache s, log "ALLOWED" 200 0 0 "")
            end
      else
        let '(blocked, rule) :=
          IsBlocked (rangeRules w (blockedDomains (filter s))) (filter s)
            (req_Host req) in
        if blocked then
          (sendErrorResponse conn 403 "Forbidden", cache s,
           log "BLOCKED" 403 0 0 rule)
        else
          let cacheKey := MakeCacheKey (req_Method req) (req_RequestTarget req) in
          let forward (c : option Cache) :=
            match ForwardRequest w req conn with
            | (statusCode, bytesUpstream, bytesDownstream, Some err, conn) =>
                (sendErrorResponse conn 502 "Bad Gateway", c,
                 log "ERROR" 502 bytesUpstream bytesDownstream err)
            | (statusCode, bytesUpstream, bytesDownstream, None, conn) =>
                (conn, c,
                 log "ALLOWED" statusCode bytesUpstream bytesDownstream "")
            end in
          match cache s with
          | Some c =>
              if bool_decide (cacheKey ≠ "") then
                match Get (now w) cacheKey c with
                | (Some cachedEntry, c') =>
                    (serveCachedResponse (rangeHeaders w (ce_Headers cachedEntry))
                       conn cachedEntry,
                     Some c',
                     log "CACHE_HIT" (ce_StatusCode cachedEntry) 0
                       (len (ce_Body cachedEntry)) "")
                | (None, c') => forward (Some c')
                end
              else forward (Some c)
          | None => forward None
          end
  end.

End Server.

(** A body of [2^n * len s] bytes, built by doubling; [bigEntry] is a
    response of 128 MiB, larger than the byte bound of [NewCache]. *)
Fixpoint doubled (n : nat) (s : string) : string :=
  match n with
  | O => s
  | S n' => doubled n' (s +:+ s)
  end.

Definition bigEntry : CacheEntry :=
  {| ce_Headers := ∅; ce_StatusCode := 200; ce_Body := doubled 27 "x";
     ce_LastAccessed := 0; ce_Size := 0 |}.

(** A small response, for the examples. *)
Definition smallEntry (body : string) : CacheEntry :=
  {| ce_Headers := {[ "content-type" := "text/plain" ]}; ce_StatusCode := 200;
     ce_Body := body; ce_LastAccessed := 0; ce_Size := 0 |}.

(** Requests for the examples. *)
Definition postStream : string :=
  "POST /x HTTP/1.1" +:+ CRLF +:+ "Host: h" +:+ CRLF +:+ "Content-Length: 3" +:+ CRLF
    +:+ CRLF +:+ "abcdef".

Definition postHeaders : gmap string string :=
  {[ "host" := "h"; "content-length" := "3" ]}.

Definition connectStream : string :=
  "CONNECT Example.COM:0 HTTP/1.1" +:+ CRLF.

Definition connectRequest : HTTPRequest :=
  {| req_Method := "CONNECT"; req_RequestTarget := "Example.COM:0";
     req_Version := "HTTP/1.1"; req_Headers := ∅; req_Body := "";
     req_Host := "Example.COM"; req_Port := 0; req_IsConnect := true |}.

Definition hostHeaderStream : string :=
  "GET / HTTP/1.1" +:+ CRLF +:+ "Host: EXAMPLE.test:99999" +:+ CRLF +:+ CRLF.

Definition absoluteStream : string :=
  "GET http://EXAMPLE.test:0/ HTTP/1.1" +:+ CRLF +:+ CRLF.

(** The format of an error response, in the words of the spec: the status
    line, [Content-Type: text/plain], [Content-Length] with the length of
    the body, [Connection: close], a blank line, and the body
    ["<code> <reason>"]. *)
Definition isErrorResponse (statusCode : Z) (reason : string) (bytes : string) : Prop :=
  ∃ body,
    body = Itoa statusCode +:+ " " +:+ reason
    ∧ bytes = "HTTP/1.1 " +:+ Itoa statusCode +:+ " " +:+ reason +:+ CRLF
              +:+ "Content-Type: text/plain" +:+ CRLF
              +:+ "Content-Length: " +:+ Itoa (len body) +:+ CRLF
              +:+ "Connection: close" +:+ CRLF
              +:+ CRLF
              +:+ body.

(** A server, a client and two worlds for the examples: in [deafWorld] no
    upstream can be reached; in [resetWorld] the upstream sends a status
    line and one header line, and then the connection is reset. *)
Definition openConfig : Config :=
  {| ListenAddress := "0.0.0.0"; ListenPort := 8888;
     ConcurrencyModel := "thread_per_connection"; ThreadPoolSize := 10;
     LogFilePath := "proxy.log"; LogMaxSizeMB := 100;
     BlockedDomainsFile := "config/blocked_domains.txt";
     EnableCaching := false; CacheMaxEntries := 1000;
     EnableConnectTunnel := true; AuthToken := "" |}.

Definition secretConfig : Config :=
  {| ListenAddress := "0.0.0.0"; ListenPort := 8888;
     ConcurrencyModel := "thread_per_connection"; ThreadPoolSize := 10;
     LogFilePath := "proxy.log"; LogMaxSizeMB := 100;
     BlockedDomainsFile := "config/blocked_domains.txt";
     EnableCaching := false; CacheMaxEntries := 1000;
     EnableConnectTunnel := true; AuthToken := "secret" |}.

Definition openServer : Server :=
  {| config := openConfig; filter := NewFilter; cache := None |}.

Definition secretServer : Server :=
  {| config := secretConfig; filter := NewFilter; cache := None |}.

Definition clientSending (request : string) : Conn :=
  {| c_in := request; c_end := EndEOF; c_out := ""; c_room := None |}.

Definition deafWorld : World :=
  {| dial := fun _ => None;
     rangeRules := fun m => (map_to_list m).*1;
     rangeHeaders := map_to_list;
     tunnelDown := ""; tunnelErr := false; now := 0 |}.

Definition resetUpstream : Conn :=
  {| c_in := "HTTP/1.1 200 OK" +:+ CRLF +:+ "Content-Length: 10" +:+ CRLF;
     c_end := EndError; c_out := ""; c_room := None |}.

Definition resetWorld : World :=
  {| dial := fun _ => Some resetUpstream;
     rangeRules := fun m => (map_to_list m).*1;
     rangeHeaders := map_to_list;
     tunnelDown := ""; tunnelErr := false; now := 0 |}.

Definition connectApi : string :=
  "CONNECT api.test:443 HTTP/1.1" +:+ CRLF +:+ "Proxy-Authorization: secret" +:+ CRLF
    +:+ CRLF.

Definition getExample : string :=
  "GET http://example.test/ HTTP/1.1" +:+ CRLF +:+ "Host: example.test" +:+ CRLF +:+ CRLF.

Definition apiRequest : HTTPRequest :=
  {| req_Method := "CONNECT"; req_RequestTarget := "api.test:443";
     req_Version := "HTTP/1.1"; req_Headers := ∅; req_Body := "";
     req_Host := "api.test"; req_Port := 443; req_IsConnect := true |}.

Definition connectPlain : string :=
  "CONNECT api.test:443 HTTP/1.1" +:+ CRLF +:+ CRLF.

Definition exampleRequest : HTTPRequest :=
  {| req_Method := "GET"; req_RequestTarget := "http://example.test/";
     req_Version := "HTTP/1.1"; req_Headers := {[ "host" := "example.test" ]};
     req_Body := ""; req_Host := "example.test"; req_Port := 80;
     req_IsConnect := false |}.

(** What the header loop of the parser stores: a name without colon or
    line feed, trimmed and in lower case; a value without line feed,
    trimmed. *)
Definition trimmed (s : string) : Prop :=
  startsClean isSpace s = true ∧ endsClean isSpace s = true.

Definition cleanName (k : string) : Prop :=
  hasByte ":" k = false ∧ hasByte LF k = false ∧ trimmed k ∧ ToLower k = k.

Definition cleanValue (v : string) : Prop :=
  hasByte LF v = false ∧ trimmed v.

Definition cleanHeader (kv : string * string) : Prop :=
  cleanName kv.1 ∧ cleanValue kv.2.

(** The header lines [SerializeRequest] writes, and the map the header loop
    of the parser builds from them. *)
Definition headerBlock (hs : list (string * string)) : string :=
  fold_right
    (fun kv acc => (capitalizeHeader kv.1 +:+ ": " +:+ kv.2 +:+ CRLF) +:+ acc)
    EmptyString hs.

Definition insertAll (acc : gmap string string) (hs : list (string * string))
    : gmap string string :=
  fold_left (fun m kv => <[kv.1 := kv.2]> m) hs acc.

(** The origin-form of a parsed URL, in the words of the spec:
    [path + "?" + raw_query], the path defaulting to ["/"]. *)
Definition pathWithQuery (u : URL) : string :=
  (if bool_decide (url_Path u = "") then "/" else url_Path u)
  +:+ (if bool_decide (url_RawQuery u = "") then "" else "?" +:+ url_RawQuery u).

(** A [Host] header that the parser can resolve: [host], or [host:port]
    with a port that [Atoi] reads. *)
Definition resolvableHost (hostHeader : string) : Prop :=
  hasByte ":" hostHeader = false
  ∨ ∃ host portStr, hostHeader = host +:+ ":" +:+ portStr
                    ∧ hasByte ":" host = false ∧ is_Some (Atoi portStr).

(** The plain GET of the spec's first scenario, and two requests whose
    serialized form does not parse back. *)
Definition plainGetStream : string :=
  "GET http://example.test/a?b=1 HTTP/1.1" +:+ CRLF +:+ "Host: example.test" +:+ CRLF
    +:+ CRLF.

Definition plainGetRequest : HTTPRequest :=
  {| req_Method := "GET"; req_RequestTarget := "http://example.test/a?b=1";
     req_Version := "HTTP/1.1"; req_Headers := {[ "host" := "example.test" ]};
     req_Body := ""; req_Host := "example.test"; req_Port := 80;
     req_IsConnect := false |}.

Definition plainGetURL : URL :=
  {| url_Hostname := "example.test"; url_Port := ""; url_Path := "/a";
     url_RawQuery := "b=1" |}.

Definition escapedSpaceStream : string :=
  "GET http://h/a%20b HTTP/1.1" +:+ CRLF +:+ "Host: h" +:+ CRLF +:+ CRLF.

Definition badHostPortStream : string :=
  "GET http://h/ HTTP/1.1" +:+ CRLF +:+ "Host: h:x" +:+ CRLF +:+ CRLF.

(** ** Predicates of the statements, and tactics of the proofs *)

(** The state of the cache while [Put key] runs: the order lists exactly
    the keys of the map other than [key], and [currentSize] counts exactly
    their entries.  When [key] is not in the map this is the state between
    operations. *)
Definition coherentBut (key : string) (c : Cache) : Prop :=
  NoDup (accessOrder c)
  ∧ (∀ k, k ∈ accessOrder c ↔ is_Some (delete key (entries c) !! k))
  ∧ currentSize c = totalSize (delete key (entries c)).

(** The state between operations. *)
Definition coherent (c : Cache) : Prop :=
  NoDup (accessOrder c)
  ∧ (∀ k, k ∈ accessOrder c ↔ is_Some (entries c !! k))
  ∧ currentSize c = totalSize (entries c).

(** The two bounds, as the code keeps them: the byte bound can only be
    exceeded by a single entry that is alone in the cache. *)
Definition bounded (c : Cache) : Prop :=
  Z.of_nat (size (entries c)) ≤ maxEntries c
  ∧ (currentSize c ≤ maxSize c ∨ size (entries c) = 1%nat).

(** What the spec calls a match of the wildcard [*.X]. *)
Definition wildcardMatch (host X : string) : Prop :=
  host = X ∨ HasSuffix host ("." +:+ X) = true.

(** [conn'] is [conn] after some more bytes [x] were written to it, and it
    still takes every byte. *)
Definition wrote (conn : Conn) (x : string) (conn' : Conn) : Prop :=
  c_out conn' = c_out conn +:+ x ∧ c_room conn' = None.

(** What a client takes of the bytes [p] of one [Write]: all of them, or as
    many as it has room for. *)
Definition sent (conn : Conn) (p : string) : string :=
  match c_room conn with
  | None => p
  | Some room => sliceTo room p
  end.

(** Settles an equation between functions of one byte on each of the 256
    bytes. *)
Ltac each_byte c :=
  destruct c as [[] [] [] [] [] [] [] []]; vm_compute; reflexivity.

(** Closes the clauses of a case analysis of [handleConnection] that the
    logged entry rules out, and those that ask for the response of
    [sendErrorResponse]. *)
Ltac leaf :=
  split_and!;
  first [ done
        | by (intros; match goal with Hsend : ∀ _ _, ∃ _, _ |- _ => apply Hsend end)
        | by (intros; simplify_eq; congruence)
        | idtac ].

(* ================================================================= *)
(** * The rest of the sources: statistics, the rules file, config.go,
      start-up *)

(** ** cache.go: statistics *)

(** [GetStats] *)
Definition GetStats (c : Cache) : Z * Z :=
  (Z.of_nat (size (entries c)), currentSize c).

(** ** filter.go: the rules file *)

(** [GetBlockedCount] *)
Definition GetBlockedCount (f : Filter) : Z * Z :=
  (Z.of_nat (size (blockedDomains f)), Z.of_nat (size (blockedIPs f))).

(** What a line of the rules file stands for in the scanner loop of
    [LoadRules]: nothing, for a blank line or a comment, or a rule in
    canonical form, any comment after it removed. *)
Definition ruleOf (text : string) : option string :=
  let line := TrimSpace text in
  if bool_decide (line = "") || HasPrefix line "#" then None
  else
    let line := match Index line "#" with
                | Some idx => TrimSpace (sliceTo idx line)
                | None => line
                end in
    Some (ToLower (TrimSpace line)).

(** The file of [LoadRules], as [os.Open] and the [bufio.Scanner] present
    it: it does not exist, it cannot be opened, or it yields lines and then
    the scanner's error, if any. *)
Inductive RulesFile :=
| RulesNotExist
| RulesOpenError
| RulesOpened (lines : list string) (scanErr : bool).

Section Rules.

(** [net.ParseIP(s) != nil]; [net.ParseIP] belongs to Go's library. *)
Variable ParseIP : string → bool.

(** One round of the scanner loop of [LoadRules]. *)
Definition loadLine (f : Filter) (text : string) : Filter :=
  match ruleOf text with
  | None => f
  | Some line =>
      if ParseIP line
      then {| blockedDomains := blockedDomains f;
              blockedIPs := <[line := true]> (blockedIPs f) |}
      else {| blockedDomains := <[line := true]> (blockedDomains f);
              blockedIPs := blockedIPs f |}
  end.

(** [LoadRules]: the filter afterwards, and whether an error is returned.
    A file that does not exist leaves the rules alone and is no error; a
    file that opens replaces them. *)
Definition LoadRules (file : RulesFile) (f : Filter) : Filter * bool :=
  match file with
  | RulesNotExist => (f, false)
  | RulesOpenError => (f, true)
  | RulesOpened lines scanErr => (fold_left loadLine lines NewFilter, scanErr)
  end.

End Rules.

(** ** config.go *)

Definition DefaultConfig : Config :=
  {| ListenAddress := "0.0.0.0";
     ListenPort := 8888;
     ConcurrencyModel := "thread_per_connection";
     ThreadPoolSize := 10;
     LogFilePath := "proxy.log";
     LogMaxSizeMB := 100;
     BlockedDomainsFile := "config/blocked_domains.txt";
     EnableCaching := false;
     CacheMaxEntries := 1000;
     EnableConnectTunnel := false;
     AuthToken := "" |}.

(** The errors of [Validate], one for each [fmt.Errorf]. *)
Inductive ConfigError :=
| ErrListenPort
| ErrConcurrencyModel
| ErrThreadPoolSize
| ErrLogMaxSizeMB
| ErrCacheMaxEntries.

(** [Validate]; [None] is [nil]. *)
Definition Validate (c : Config) : option ConfigError :=
  if (ListenPort c <? 1) || (ListenPort c >? 65535) then Some ErrListenPort
  else if bool_decide (ConcurrencyModel c ≠ "thread_per_connection")
          && bool_decide (ConcurrencyModel c ≠ "thread_pool")
  then Some ErrConcurrencyModel
  else if bool_decide (ConcurrencyModel c = "thread_pool") && (ThreadPoolSize c <? 1)
  then Some ErrThreadPoolSize
  else if LogMaxSizeMB c <? 1 then Some ErrLogMaxSizeMB
  else if EnableCaching c && (CacheMaxEntries c <? 1) then Some ErrCacheMaxEntries
  else None.

(** The [switch] of [LoadConfigFromINI]: one assignment to the field that
    [key] names.  An integer that [Atoi] does not read, and a key that the
    [switch] does not know, leave the configuration as it is. *)
Definition setOption (config : Config) (key value : string) : Config :=
  let 'mkConfig address port model poolSize logPath logMax blockedFile caching
         cacheMax tunnel token := config in
  let number (set : Z → Config) :=
    match Atoi value with Some n => set n | None => config end in
  let flag := bool_decide (ToLower value = "true") in
  if bool_decide (key = "listen_address") then
    mkConfig value port model poolSize logPath logMax blockedFile caching cacheMax
      tunnel token
  else if bool_decide (key = "listen_port") then
    number (fun n => mkConfig address n model poolSize logPath logMax blockedFile
                       caching cacheMax tunnel token)
  else if bool_decide (key = "concurrency_model") then
    mkConfig address port value poolSize logPath logMax blockedFile caching cacheMax
      tunnel token
  else if bool_decide (key = "thread_pool_size") then
    number (fun n => mkConfig address port model n logPath logMax blockedFile
                       caching cacheMax tunnel token)
  else if bool_decide (key = "log_file_path") then
    mkConfig address port model poolSize value logMax blockedFile caching cacheMax
      tunnel token
  else if bool_decide (key = "log_max_size_mb") then
    number (fun n => mkConfig address port model poolSize logPath n blockedFile
                       caching cacheMax tunnel token)
  else if bool_decide (key = "blocked_domains_file") then
    mkConfig address port model poolSize logPath logMax value caching cacheMax
      tunnel token
  else if bool_decide (key = "enable_caching") then
    mkConfig address port model poolSize logPath logMax blockedFile flag cacheMax
      tunnel token
  else if bool_decide (key = "cache_max_entries") then
    number (fun n => mkConfig address port model poolSize logPath logMax blockedFile
                       caching n tunnel token)
  else if bool_decide (key = "enable_connect_tunneling") then
    mkConfig address port model poolSize logPath logMax blockedFile caching cacheMax
      flag token
  else if bool_decide (key = "authentication_token") then
    mkConfig address port model poolSize logPath logMax blockedFile caching cacheMax
      tunnel value
  else config.

(** One round of the loop of [LoadConfigFromINI] over the lines. *)
Definition iniLine (config : Config) (line : string) : Config :=
  let line := TrimSpace line in
  if bool_decide (line = "") || HasPrefix line "#" then config
  else match SplitN line "=" 2 with
       | [key; value] => setOption config (TrimSpace key) (TrimSpace value)
       | _ => config
       end.

(** What [os.ReadFile] returns: the file does not exist, another error, or
    the data. *)
Inductive ConfigFile :=
| ConfigNotExist
| ConfigReadError
| ConfigData (data : string).

Inductive LoadResult :=
| Loaded (config : Config)
| LoadReadFailed
| LoadInvalid (e : ConfigError).

(** [LoadConfigFromINI].  The defaults returned for a file that does not
    exist do not go through [Validate]. *)
Definition LoadConfigFromINI (file : ConfigFile) : LoadResult :=
  match file with
  | ConfigNotExist => Loaded DefaultConfig
  | ConfigReadError => LoadReadFailed
  | ConfigData data =>
      let config := fold_left iniLine (Split data LF) DefaultConfig in
      match Validate config with
      | Some e => LoadInvalid e
      | None => Loaded config
      end
  end.

(** ** server.go: start-up *)

(** The errors of [NewServer]. *)
Inductive ServerError :=
| ErrLoadFilterRules
| ErrInitLogger.

(** The files [NewServer] opens: the rules file at a path, and whether the
    log file at a path can be opened for appending. *)
Record Files := mkFiles {
  rulesAt : string → RulesFile;
  logOpens : string → bool
}.

Section NewServer.

Variable ParseIP : string → bool.

(** [NewServer], as far as the fields of [Server] go. *)
Definition NewServer (files : Files) (config : Config) : ServerError + Server :=
  let '(filter, err) :=
    LoadRules ParseIP (rulesAt files (BlockedDomainsFile config)) NewFilter in
  if err then inl ErrLoadFilterRules
  else if negb (logOpens files (LogFilePath config)) then inl ErrInitLogger
  else
    inr {| config := config;
           filter := filter;
           cache := if EnableCaching config
                    then Some (NewCache (CacheMaxEntries config))
                    else None |}.

End NewServer.

(** ** More predicates of the statements *)

(** The bytes a map of entries holds: bodies, header names and header
    values. *)
Definition heldBytes (m : gmap string CacheEntry) : Z :=
  map_fold (fun _ e acc => acc + entrySize e) 0 m.

(** Every [Size] stored is the size of its entry. *)
Definition sized (c : Cache) : Prop :=
  map_Forall (fun _ e => ce_Size e = entrySize e) (entries c).

(** A rule in canonical form. *)
Definition canonicalRule (r : string) : Prop :=
  r ≠ "" ∧ hasByte "#" r = false ∧ trimmed r ∧ ToLower r = r.

(** The keys that the [switch] of [LoadConfigFromINI] knows, and those
    whose value goes through [Atoi]. *)
Definition knownKeys : list string :=
  ["listen_address"; "listen_port"; "concurrency_model"; "thread_pool_size";
   "log_file_path"; "log_max_size_mb"; "blocked_domains_file"; "enable_caching";
   "cache_max_entries"; "enable_connect_tunneling"; "authentication_token"].

Definition numericKeys : list string :=
  ["listen_port"; "thread_pool_size"; "log_max_size_mb"; "cache_max_entries"].

(** A line of the configuration file that sets nothing: blank, a comment,
    without [=], with a key that is not known, or with a numeric key and a
    value that [Atoi] does not read. *)
Definition inertLine (line : string) : Prop :=
  TrimSpace line = ""
  ∨ HasPrefix (TrimSpace line) "#" = true
  ∨ hasByte "=" (TrimSpace line) = false
  ∨ ∃ key value, TrimSpace line = key +:+ "=" +:+ value
                 ∧ hasByte "=" key = false
                 ∧ (TrimSpace key ∉ knownKeys
                    ∨ TrimSpace key ∈ numericKeys ∧ Atoi (TrimSpace value) = None).

(** The value of a decimal numeral, read from the left with an
    accumulator, as [parseDigits] reads its string. *)
Fixpoint valueOf (acc : Z) (d : Decimal.uint) : Z :=
  match d with
  | Decimal.Nil => acc
  | Decimal.D0 l => valueOf (acc * 10 + 0) l
  | Decimal.D1 l => valueOf (acc * 10 + 1) l
  | Decimal.D2 l => valueOf (acc * 10 + 2) l
  | Decimal.D3 l => valueOf (acc * 10 + 3) l
  | Decimal.D4 l => valueOf (acc * 10 + 4) l
  | Decimal.D5 l => valueOf (acc * 10 + 5) l
  | Decimal.D6 l => valueOf (acc * 10 + 6) l
  | Decimal.D7 l => valueOf (acc * 10 + 7) l
  | Decimal.D8 l => valueOf (acc * 10 + 8) l
  | Decimal.D9 l => valueOf (acc * 10 + 9) l
  end.

(** Header lines as a client or a cache entry has them, [name: value] and
    CRLF each, names in whatever case. *)
Definition headerLines (hs : list (string * string)) : string :=
  fold_right (fun nv acc => (nv.1 +:+ ": " +:+ nv.2 +:+ CRLF) +:+ acc) EmptyString hs.

(** The key under which the header loop of the parser stores a name. *)
Definition headerKey (name : string) : string := TrimSpace (ToLower name).

(** What the header loop stores for such lines. *)
Definition storedHeaders (hs : list (string * string)) : gmap string string :=
  insertAll ∅ (map (fun nv => (headerKey nv.1, nv.2)) hs).

(** A header line that the loop reads as one header: no colon and no line
    feed in the name, a value that is trimmed and without line feed. *)
Definition plainHeader (nv : string * string) : Prop :=
  hasByte ":" nv.1 = false ∧ hasByte LF nv.1 = false ∧ cleanValue nv.2.

(** Lines of text, each closed by a line feed. *)
Definition linesText (ls : list string) : string :=
  fold_right (fun l acc => l +:+ String LF acc) EmptyString ls.

(** A line that does not end the header block of a response: without line
    feed, and neither empty nor a lone carriage return. *)
Definition headerLine (l : string) : Prop :=
  hasByte LF l = false ∧ l ≠ "" ∧ l ≠ String CR "".

(** ** More example data *)

(** A reference instance of [ParseIP]: it follows [net.ParseIP] on IPv4
    addresses in dotted decimal (four fields of one to three digits, no
    leading zero, at most 255), and answers [false] on every other input,
    IPv6 addresses among them.  It serves the concrete examples. *)
Definition octet (s : string) : bool :=
  allBytes (byteIn 48 57) s
  && (1 <=? String.length s)%nat && (String.length s <=? 3)%nat
  && (bool_decide (s = "0") || negb (HasPrefix s "0"))
  && match parseDigits 0 s with Some n => n <=? 255 | None => false end.

Definition ParseIP_ref (s : string) : bool :=
  match Split s "." with
  | [a; b; c; d] => octet a && octet b && octet c && octet d
  | _ => false
  end.

(** A rules file and a configuration file. *)
Definition exampleRules : list string :=
  ["# ads and trackers"; "Example.COM   # tracker"; ""; "10.0.0.1"; "  *.Mal.test"].

Definition exampleINI : string :=
  "# proxy" +:+ String LF ("listen_port = 3128" +:+ String LF
    ("enable_caching = TRUE" +:+ String LF ("cache_max_entries=2" +:+ String LF ""))).

Definition inertINI : string :=
  "# nothing here" +:+ String LF ("" +:+ String LF ("no equals sign" +:+ String LF
    ("listen_port = eighty" +:+ String LF ("colour = blue" +:+ String LF "")))).

Definition exampleFiles : Files :=
  {| rulesAt := fun _ => RulesOpened exampleRules false;
     logOpens := fun _ => true |}.

(** A cache that holds one response, and a server that has it. *)
Definition warmEntry : CacheEntry :=
  {| ce_Headers := {[ "content-type" := "text/plain" ]}; ce_StatusCode := 200;
     ce_Body := "hello"; ce_LastAccessed := 1; ce_Size := 27 |}.

Definition warmCache : Cache :=
  {| entries := {[ "GET:http://example.test/" := warmEntry ]};
     accessOrder := ["GET:http://example.test/"];
     maxEntries := 1;
     maxSize := 100 * 1024 * 1024;
     currentSize := 27 |}.

Definition cachingServer : Server :=
  {| config := openConfig; filter := NewFilter; cache := Some warmCache |}.

Definition blockingServer : Server :=
  {| config := openConfig; filter := malRules; cache := None |}.

(** A world whose upstream answers every request with a small response
    and closes, and passes [pong] down a tunnel. *)
Definition okResponse : string :=
  "HTTP/1.1 200 OK" +:+ CRLF +:+ "Content-Length: 2" +:+ CRLF +:+ CRLF +:+ "hi".

Definition okUpstream : Conn :=
  {| c_in := okResponse; c_end := EndEOF; c_out := ""; c_room := None |}.

Definition okWorld : World :=
  {| dial := fun _ => Some okUpstream;
     rangeRules := fun m => (map_to_list m).*1;
     rangeHeaders := map_to_list;
     tunnelDown := "pong"; tunnelErr := false; now := 0 |}.

Definition getMal : string :=
  "GET /x HTTP/1.1" +:+ CRLF +:+ "Host: A.Mal.Test" +:+ CRLF +:+ CRLF.

Definition malRequest : HTTPRequest :=
  {| req_Method := "GET"; req_RequestTarget := "/x"; req_Version := "HTTP/1.1";
     req_Headers := {[ "host" := "A.Mal.Test" ]}; req_Body := "";
     req_Host := "A.Mal.Test"; req_Port := 80; req_IsConnect := false |}.

Definition postRequest : HTTPRequest :=
  {| req_Method := "POST"; req_RequestTarget := "/x"; req_Version := "HTTP/1.1";
     req_Headers := postHeaders; req_Body := "abc"; req_Host := "h"; req_Port := 80;
     req_IsConnect := false |}.

Definition connectV6 : string := "CONNECT [::1]:443 HTTP/1.1" +:+ CRLF.

(* ================================================================= *)
(** * Properties *)

(** ** Cache: sizes, order and bounds *)

Lemma totalSize_empty : totalSize ∅ = 0.
Proof. unfold totalSize. apply map_fold_empty. Qed.

Lemma totalSize_insert_None (m : gmap string CacheEntry) k e :
  m !! k = None → totalSize (<[k := e]> m) = totalSize m + ce_Size e.
Proof.
  intros Hk. unfold totalSize.
  rewrite map_fold_insert_L; [done | | done].
  intros; lia.
Qed.

Lemma totalSize_delete (m : gmap string CacheEntry) k e :
  m !! k = Some e → totalSize m = totalSize (delete k m) + ce_Size e.
Proof.
  intros Hk. unfold totalSize.
  rewrite (map_fold_delete_L _ _ k e m); [done | | done].
  intros; lia.
Qed.

Lemma totalSize_insert (m : gmap string CacheEntry) k e :
  totalSize (<[k := e]> m) = totalSize (delete k m) + ce_Size e.
Proof.
  rewrite <- insert_delete_eq.
  apply totalSize_insert_None, lookup_delete_eq.
Qed.

Lemma removeFromOrder_elem key order k :
  NoDup order → k ∈ removeFromOrder key order ↔ k ∈ order ∧ k ≠ key.
Proof.
  induction order as [|a order IH]; simpl; intros Hnd.
  - set_solver.
  - apply NoDup_cons in Hnd as [Ha Hnd]. destruct (decide (a = key)) as [->|Hne].
    + split.
      * intros Hk. split; [set_solver|]. intros ->. done.
      * intros [Hk Hne]. set_solver.
    + rewrite !elem_of_cons, IH by done. naive_solver.
Qed.

Lemma removeFromOrder_NoDup key order :
  NoDup order → NoDup (removeFromOrder key order).
Proof.
  induction order as [|a order IH]; simpl; intros Hnd; [done|].
  apply NoDup_cons in Hnd as [Ha Hnd]. destruct (decide (a = key)); [done|].
  apply NoDup_cons. split; [|auto].
  rewrite removeFromOrder_elem by done. tauto.
Qed.

Lemma removeFromOrder_absent key order :
  key ∉ order → removeFromOrder key order = order.
Proof.
  induction order as [|a order IH]; simpl; intros Hk; [done|].
  destruct (decide (a = key)) as [->|]; [set_solver|].
  f_equal. apply IH. set_solver.
Qed.

Lemma coherent_coherentBut key c :
  coherent c → entries c !! key = None → coherentBut key c.
Proof.
  intros (Hnd & Hdom & Hsz) Hk. unfold coherentBut.
  rewrite delete_id by done. done.
Qed.

Lemma coherentBut_evictLRU key c :
  coherentBut key c → coherentBut key (evictLRU c).
Proof.
  intros (Hnd & Hdom & Hsz). unfold evictLRU.
  destruct (accessOrder c) as [|k rest] eqn:Ho; [by unfold coherentBut; rewrite Ho|].
  apply NoDup_cons in Hnd as [Hk Hnd].
  assert (Hin : is_Some (delete key (entries c) !! k)) by (apply Hdom; left).
  destruct Hin as [e He].
  assert (Hne : k ≠ key) by (intros ->; by rewrite lookup_delete_eq in He).
  assert (He' : entries c !! k = Some e) by by rewrite lookup_delete_ne in He.
  rewrite He'. unfold coherentBut; simpl. split_and!.
  - done.
  - intros k'. rewrite delete_delete. rewrite lookup_delete.
    destruct (decide (k = k')) as [<-|Hkk].
    + split; [done | intros []; done].
    + rewrite <- Hdom. rewrite elem_of_cons. naive_solver.
  - rewrite delete_delete.
    rewrite (totalSize_delete (delete key (entries c)) k e) in Hsz by done.
    lia.
Qed.

Lemma evictLRU_maxEntries c : maxEntries (evictLRU c) = maxEntries c.
Proof. unfold evictLRU. by repeat case_match. Qed.

Lemma evictLRU_maxSize c : maxSize (evictLRU c) = maxSize c.
Proof. unfold evictLRU. by repeat case_match. Qed.

Lemma evictLoop_spec fuel sz key c c' :
  coherentBut key c → evictLoop fuel sz c = Some c' →
  coherentBut key c' ∧ mustEvict sz c' = false
  ∧ maxEntries c' = maxEntries c ∧ maxSize c' = maxSize c.
Proof.
  revert c. induction fuel as [|fuel IH]; intros c Hc; simpl;
    destruct (mustEvict sz c) eqn:Hm; try done.
  - intros [= <-]. done.
  - intros Hl. apply IH in Hl as (? & ? & ? & ?); [|by apply coherentBut_evictLRU].
    by rewrite evictLRU_maxEntries, evictLRU_maxSize in *.
  - intros [= <-]. done.
Qed.

Lemma mustEvict_false sz c :
  mustEvict sz c = false →
  size (entries c) = 0%nat
  ∨ (Z.of_nat (size (entries c)) < maxEntries c
     ∧ currentSize c + sz ≤ maxSize c).
Proof.
  unfold mustEvict. intros H.
  apply andb_false_iff in H as [H|H].
  - apply orb_false_iff in H as [H1 H2]. right. lia.
  - left. lia.
Qed.

Lemma mustEvict_false_iff sz c :
  mustEvict sz c = false ↔
  size (entries c) = 0%nat
  ∨ (Z.of_nat (size (entries c)) < maxEntries c
     ∧ currentSize c + sz ≤ maxSize c).
Proof.
  split; [apply mustEvict_false|]. unfold mustEvict. intros [H | [H1 H2]].
  - apply andb_false_iff. right. lia.
  - apply andb_false_iff. left. apply orb_false_iff. lia.
Qed.

Lemma mustEvict_full sz c :
  (0 < size (entries c))%nat → maxEntries c ≤ Z.of_nat (size (entries c)) →
  mustEvict sz c = true.
Proof.
  unfold mustEvict. intros H1 H2.
  apply andb_true_iff. split; [apply orb_true_iff; left|]; lia.
Qed.

Lemma Put_before_loop key c :
  coherent c →
  coherentBut key
    match entries c !! key with
    | Some existing =>
        {| entries := entries c;
           accessOrder := removeFromOrder key (accessOrder c);
           maxEntries := maxEntries c;
           maxSize := maxSize c;
           currentSize := currentSize c - ce_Size existing |}
    | None => c
    end.
Proof.
  intros Hc. destruct (entries c !! key) as [existing|] eqn:Hk;
    [|by apply coherent_coherentBut].
  destruct Hc as (Hnd & Hdom & Hsz). unfold coherentBut; simpl. split_and!.
  - by apply removeFromOrder_NoDup.
  - intros k. rewrite removeFromOrder_elem by done. rewrite Hdom.
    rewrite lookup_delete. destruct (decide (key = k)) as [<-|].
    + split; [tauto | intros []; done].
    + naive_solver.
  - rewrite (totalSize_delete _ _ _ Hk) in Hsz. lia.
Qed.

Lemma Put_spec fuel now key entry c c' :
  coherent c → 1 ≤ maxEntries c →
  Put fuel now key entry c = Some c' →
  coherent c' ∧ bounded c'
  ∧ maxEntries c' = maxEntries c ∧ maxSize c' = maxSize c.
Proof.
  intros Hc Hmax. unfold Put.
  pose proof (Put_before_loop key c Hc) as Hb.
  set (c1 := match entries c !! key with Some _ => _ | None => _ end) in *.
  assert (Hm1 : maxEntries c1 = maxEntries c ∧ maxSize c1 = maxSize c)
    by (subst c1; by case_match).
  clearbody c1. destruct Hm1 as [Hm1 Hm2].
  destruct (evictLoop fuel (entrySize entry) c1) as [c2|] eqn:Hl; [|done].
  intros [= <-].
  apply (evictLoop_spec _ _ key) in Hl as ((Hnd & Hdom & Hsz) & Hm & Hme & Hms);
    [|done].
  assert (Hk : key ∉ accessOrder c2).
  { rewrite Hdom, lookup_delete_eq. intros []; done. }
  split_and!; simpl; try lia.
  - split_and!; simpl.
    + apply NoDup_app. split_and!; [done | | apply NoDup_singleton].
      intros k Hk1 Hk2%list_elem_of_singleton. by subst.
    + intros k. rewrite elem_of_app, list_elem_of_singleton, Hdom.
      rewrite lookup_insert, lookup_delete.
      destruct (decide (key = k)) as [<-|]; [|naive_solver].
      split; [eauto | by right].
    + rewrite totalSize_insert. simpl. lia.
  - apply mustEvict_false in Hm. unfold bounded; simpl.
    rewrite map_size_insert.
    destruct Hm as [Hz | [Hlt Hle]].
    + apply map_size_empty_inv in Hz. rewrite Hz, lookup_empty.
      rewrite map_size_empty. split; [lia | by right].
    + split; [case_match; unfold id; lia | left; lia].
Qed.

Lemma Get_spec now key c :
  coherent c → bounded c →
  coherent (snd (Get now key c)) ∧ bounded (snd (Get now key c))
  ∧ maxEntries (snd (Get now key c)) = maxEntries c
  ∧ maxSize (snd (Get now key c)) = maxSize c.
Proof.
  intros (Hnd & Hdom & Hsz) [Hb1 Hb2]. unfold Get.
  destruct (entries c !! key) as [entry|] eqn:Hk; simpl; [|done].
  assert (Hs : size (<[key := set_LastAccessed now entry]> (entries c))
      = size (entries c)) by (apply map_size_insert_Some; eauto).
  split_and!; try done.
  - split_and!; simpl.
    + unfold moveToEnd. apply NoDup_app.
      split_and!; [by apply removeFromOrder_NoDup | | apply NoDup_singleton].
      intros k Hk1 Hk2%list_elem_of_singleton.
      apply removeFromOrder_elem in Hk1; [|done]. tauto.
    + intros k. unfold moveToEnd.
      rewrite elem_of_app, list_elem_of_singleton.
      rewrite removeFromOrder_elem by done. rewrite Hdom, lookup_insert.
      destruct (decide (key = k)) as [<-|]; [|naive_solver].
      split; [eauto | by right].
    + rewrite totalSize_insert. simpl.
      rewrite (totalSize_delete _ _ _ Hk) in Hsz. done.
  - unfold bounded; simpl. rewrite Hs. done.
Qed.

Lemma NewCache_coherent n : coherent (NewCache n).
Proof.
  unfold coherent; simpl. split_and!.
  - constructor.
  - intros k. rewrite lookup_empty. split; [by intros ?%elem_of_nil | intros []; done].
  - by rewrite totalSize_empty.
Qed.

Lemma Clear_coherent c : coherent (Clear c).
Proof. apply (NewCache_coherent 0). Qed.

Lemma runOps_spec fuel ops c c' :
  coherent c → bounded c → 1 ≤ maxEntries c → 0 ≤ maxSize c →
  runOps fuel ops c = Some c' →
  coherent c' ∧ bounded c'
  ∧ maxEntries c' = maxEntries c ∧ maxSize c' = maxSize c.
Proof.
  revert c. induction ops as [|op ops IH]; intros c Hc Hb Hmax Hms0; simpl.
  - intros [= <-]. done.
  - destruct (runOp fuel op c) as [c1|] eqn:Hop; [|done]. intros Hrun.
    assert (H1 : coherent c1 ∧ bounded c1
                 ∧ maxEntries c1 = maxEntries c ∧ maxSize c1 = maxSize c).
    { destruct op as [now key | now key entry |]; simpl in Hop.
      - injection Hop as <-. by apply Get_spec.
      - by apply Put_spec in Hop.
      - injection Hop as <-. split_and!; [apply Clear_coherent | | done | done].
        unfold bounded; simpl. rewrite map_size_empty. lia. }
    destruct H1 as (Hc1 & Hb1 & Hme & Hms).
    destruct (IH c1 Hc1 Hb1 ltac:(lia) ltac:(lia) Hrun) as (? & ? & ? & ?).
    split_and!; [done | done | congruence | congruence].
Qed.

Lemma length_append (s1 s2 : string) :
  String.length (s1 +:+ s2) = (String.length s1 + String.length s2)%nat.
Proof. induction s1 as [|a s1 IH]; simpl; [done | by rewrite IH]. Qed.

Lemma len_append s1 s2 : len (s1 +:+ s2) = len s1 + len s2.
Proof. unfold len. rewrite length_append. lia. Qed.

Lemma len_doubled n s : len (doubled n s) = 2 ^ Z.of_nat n * len s.
Proof.
  revert s. induction n as [|n IH]; intros s.
  - simpl. lia.
  - cbn [doubled]. rewrite IH, len_append, Nat2Z.inj_succ, Z.pow_succ_r by lia.
    lia.
Qed.

Lemma entrySize_no_headers e : ce_Headers e = ∅ → entrySize e = len (ce_Body e).
Proof. unfold entrySize. intros ->. apply map_fold_empty. Qed.

(** [Put] into a fresh cache stores the entry, whatever its size. *)
Lemma Put_NewCache fuel now key entry n :
  ∃ c, Put fuel now key entry (NewCache n) = Some c
       ∧ currentSize c = entrySize entry
       ∧ maxSize c = 100 * 1024 * 1024
       ∧ accessOrder c = [key].
Proof.
  assert (Hm : mustEvict (entrySize entry) (NewCache n) = false).
  { unfold mustEvict, NewCache. cbn [entries]. rewrite map_size_empty.
    apply andb_false_iff. right. done. }
  assert (Hl : evictLoop fuel (entrySize entry) (NewCache n) = Some (NewCache n)).
  { destruct fuel; cbn [evictLoop]; by rewrite Hm. }
  unfold Put. replace (entries (NewCache n) !! key) with (@None CacheEntry)
    by (symmetry; apply lookup_empty).
  rewrite Hl. eexists. split; [done|]. cbn. split_and!; first [done | lia].
Qed.

(** A loop that cannot make progress: the guard holds and the order is
    empty, so [evictLRU] returns at once and the guard holds again. *)
Lemma evictLoop_stuck fuel sz c :
  accessOrder c = [] → mustEvict sz c = true → evictLoop fuel sz c = None.
Proof.
  intros Ho Hm. induction fuel as [|fuel IH]; simpl; rewrite Hm; [done|].
  unfold evictLRU. by rewrite Ho.
Qed.

(** The loop leaves after at most as many rounds as the order has keys,
    unless it is stuck as above. *)
Lemma evictLoop_terminates sz key c :
  coherentBut key c → entries c !! key = None →
  is_Some (evictLoop (length (accessOrder c)) sz c).
Proof.
  remember (length (accessOrder c)) as n eqn:Hn. revert c Hn.
  induction n as [|n IH]; intros c Hn Hc Hk; simpl.
  - destruct (mustEvict sz c) eqn:Hm; [|eauto]. exfalso.
    destruct Hc as (_ & Hdom & _). rewrite delete_id in Hdom by done.
    destruct (accessOrder c) as [|k rest] eqn:Ho; [|done].
    unfold mustEvict in Hm. apply andb_true_iff in Hm as [_ Hm].
    assert (Hne : size (entries c) ≠ 0%nat) by lia.
    apply map_size_ne_0_lookup in Hne as [k Hin].
    apply Hdom in Hin. by apply elem_of_nil in Hin.
  - destruct (mustEvict sz c) eqn:Hm; [|eauto].
    destruct (accessOrder c) as [|k rest] eqn:Ho; [done|].
    assert (Hlen : n = length (accessOrder (evictLRU c))).
    { unfold evictLRU. rewrite Ho. simpl in Hn. case_match; simpl; lia. }
    apply IH; [done | by apply coherentBut_evictLRU |].
    unfold evictLRU. rewrite Ho. case_match; simpl; [|done].
    rewrite lookup_delete_ne; [done|]. intros ->. congruence.
Qed.

(** [Put] of a key that is not in the map, when the guard of the loop is
    false at once. *)
Lemma Put_no_evict fuel now key entry c :
  entries c !! key = None → mustEvict (entrySize entry) c = false →
  Put fuel now key entry c =
    Some {| entries := <[key := set_LastAccessed now (set_Size (entrySize entry) entry)]>
                         (entries c);
            accessOrder := accessOrder c ++ [key];
            maxEntries := maxEntries c;
            maxSize := maxSize c;
            currentSize := currentSize c + entrySize entry |}.
Proof.
  intros Hk Hm. unfold Put. rewrite Hk.
  replace (evictLoop fuel (entrySize entry) c) with (Some c); [done|].
  destruct fuel; simpl; by rewrite Hm.
Qed.

(** [Put] of a key that is not in the map, when one eviction is enough. *)
Lemma Put_evict_one fuel now key entry c k rest ek :
  entries c !! key = None → mustEvict (entrySize entry) c = true →
  accessOrder c = k :: rest → entries c !! k = Some ek →
  mustEvict (entrySize entry) (evictLRU c) = false →
  Put (S fuel) now key entry c =
    Some {| entries := <[key := set_LastAccessed now (set_Size (entrySize entry) entry)]>
                         (delete k (entries c));
            accessOrder := rest ++ [key];
            maxEntries := maxEntries c;
            maxSize := maxSize c;
            currentSize := currentSize c - ce_Size ek + entrySize entry |}.
Proof.
  intros Hk Hm Ho Hek Hm'. unfold Put. rewrite Hk.
  cbn [evictLoop]. rewrite Hm.
  replace (evictLoop fuel (entrySize entry) (evictLRU c)) with (Some (evictLRU c))
    by (destruct fuel; simpl; by rewrite Hm').
  unfold evictLRU. rewrite Ho, Hek. done.
Qed.

(** [Put] of a key that is not in the map returns, with the key stored and
    last in the order. *)
Lemma Put_fresh_returns now key entry c :
  coherent c → entries c !! key = None →
  ∃ c', Put (length (accessOrder c)) now key entry c = Some c'
        ∧ is_Some (entries c' !! key) ∧ last (accessOrder c') = Some key.
Proof.
  intros Hc Hk. unfold Put. rewrite Hk.
  destruct (evictLoop_terminates (entrySize entry) key c) as [c2 Hl];
    [by apply coherent_coherentBut | done |].
  rewrite Hl. eexists. split; [done|]. simpl. split.
  - rewrite lookup_insert_eq. eauto.
  - apply last_snoc.
Qed.

(** More fuel does not change what the loop, [Put] or a sequence of
    operations returns. *)
Lemma evictLoop_fuel fuel fuel' sz c c' :
  evictLoop fuel sz c = Some c' → (fuel ≤ fuel')%nat →
  evictLoop fuel' sz c = Some c'.
Proof.
  revert fuel' c. induction fuel as [|fuel IH]; intros fuel' c; simpl;
    destruct (mustEvict sz c) eqn:Hm; try done.
  - intros [= <-] _. destruct fuel'; simpl; by rewrite Hm.
  - intros Hl Hle. destruct fuel' as [|fuel']; [lia|]. simpl. rewrite Hm.
    apply IH; [done | lia].
  - intros [= <-] _. destruct fuel'; simpl; by rewrite Hm.
Qed.

Lemma Put_fuel fuel fuel' now key entry c c' :
  Put fuel now key entry c = Some c' → (fuel ≤ fuel')%nat →
  Put fuel' now key entry c = Some c'.
Proof.
  unfold Put. intros H Hle.
  destruct (evictLoop fuel _ _) as [c2|] eqn:Hl; [|done].
  by rewrite (evictLoop_fuel _ _ _ _ _ Hl Hle).
Qed.

Lemma runOps_fuel fuel fuel' ops c c' :
  runOps fuel ops c = Some c' → (fuel ≤ fuel')%nat →
  runOps fuel' ops c = Some c'.
Proof.
  intros H Hle. revert c H. induction ops as [|op ops IH]; intros c; simpl; [done|].
  destruct (runOp fuel op c) as [c1|] eqn:Hop; [|done]. intros H.
  assert (runOp fuel' op c = Some c1) as ->; [|by apply IH].
  destruct op; simpl in *; [done | by eapply Put_fuel | done].
Qed.

(** With room for one entry only, [Put] of a key that is in the map never
    returns, from any state between operations. *)
Lemma evictLoop_single_slot fuel sz key c :
  coherentBut key c → is_Some (entries c !! key) → maxEntries c ≤ 1 →
  evictLoop fuel sz c = None.
Proof.
  revert c. induction fuel as [|fuel IH]; intros c Hc Hk Hmax;
    assert (Hm : mustEvict sz c = true)
      by (destruct Hk as [e He]; apply mustEvict_full;
          [apply Nat.neq_0_lt_0; by eapply map_size_ne_0_lookup_2 |
           assert (size (entries c) ≠ 0%nat) by (by eapply map_size_ne_0_lookup_2); lia]);
    simpl; rewrite Hm; [done|].
  apply IH.
  - by apply coherentBut_evictLRU.
  - unfold evictLRU. destruct (accessOrder c) as [|k rest] eqn:Ho; [done|].
    destruct Hc as (_ & Hdom & _).
    assert (Hin : is_Some (delete key (entries c) !! k)) by (apply Hdom; rewrite Ho; left).
    destruct Hin as [e He].
    assert (k ≠ key) by (intros ->; by rewrite lookup_delete_eq in He).
    rewrite lookup_delete_ne in He by done. rewrite He. simpl.
    by rewrite lookup_delete_ne.
  - by rewrite evictLRU_maxEntries.
Qed.

Lemma Put_single_slot_existing fuel now key entry c :
  coherent c → is_Some (entries c !! key) → maxEntries c ≤ 1 →
  Put fuel now key entry c = None.
Proof.
  intros Hc Hk Hmax. unfold Put.
  pose proof (Put_before_loop key c Hc) as Hb.
  rewrite (evictLoop_single_slot fuel (entrySize entry) key); [done | done | |].
  - destruct Hk as [e He]. rewrite He. simpl. eauto.
  - by destruct (entries c !! key).
Qed.

(** Sizes: what [Put] computes and stores. *)
Lemma entrySize_nonneg e : 0 ≤ entrySize e.
Proof.
  unfold entrySize.
  apply (map_fold_weak_ind (fun r (_ : gmap string string) => 0 ≤ r)).
  - unfold len. lia.
  - intros k v m r _ Hr. unfold len. lia.
Qed.

Lemma heldBytes_empty : heldBytes ∅ = 0.
Proof. apply map_fold_empty. Qed.

Lemma heldBytes_insert_None (m : gmap string CacheEntry) k e :
  m !! k = None → heldBytes (<[k := e]> m) = heldBytes m + entrySize e.
Proof.
  intros Hk. unfold heldBytes.
  rewrite map_fold_insert_L; [done | | done].
  intros; lia.
Qed.

Lemma totalSize_heldBytes (m : gmap string CacheEntry) :
  map_Forall (fun _ e => ce_Size e = entrySize e) m → totalSize m = heldBytes m.
Proof.
  induction m as [|k e m Hk IH] using map_ind; intros Hm.
  - by rewrite totalSize_empty, heldBytes_empty.
  - apply map_Forall_insert in Hm as [He Hm]; [|done].
    rewrite totalSize_insert_None, heldBytes_insert_None, IH by done. lia.
Qed.

Lemma totalSize_nonneg (m : gmap string CacheEntry) :
  map_Forall (fun _ e => 0 ≤ ce_Size e) m → 0 ≤ totalSize m.
Proof.
  induction m as [|k e m Hk IH] using map_ind; intros Hm.
  - by rewrite totalSize_empty.
  - apply map_Forall_insert in Hm as [He Hm]; [|done].
    rewrite totalSize_insert_None by done. specialize (IH Hm). lia.
Qed.

Lemma sized_nonneg c : sized c → map_Forall (fun _ e => 0 ≤ ce_Size e) (entries c).
Proof. intros Hs k e He. rewrite (Hs k e He). apply entrySize_nonneg. Qed.

Lemma evictLRU_entries c k e :
  entries (evictLRU c) !! k = Some e → entries c !! k = Some e.
Proof.
  unfold evictLRU. destruct (accessOrder c) as [|h rest]; [done|].
  destruct (entries c !! h) eqn:Hh; simpl; [|done].
  rewrite lookup_delete. by case_decide.
Qed.

Lemma evictLoop_entries fuel sz c c' k e :
  evictLoop fuel sz c = Some c' → entries c' !! k = Some e → entries c !! k = Some e.
Proof.
  revert c. induction fuel as [|fuel IH]; intros c; simpl;
    destruct (mustEvict sz c); try done.
  - by intros [= <-].
  - intros Hl He. apply evictLRU_entries. by eapply IH.
  - by intros [= <-].
Qed.

(** [Put] keeps the state coherent and the stored sizes exact, whatever
    the bound on the number of entries. *)
Lemma Put_sized fuel now key entry c c' :
  coherent c → sized c → Put fuel now key entry c = Some c' →
  coherent c' ∧ sized c' ∧ maxEntries c' = maxEntries c ∧ maxSize c' = maxSize c.
Proof.
  intros Hc Hs. unfold Put.
  pose proof (Put_before_loop key c Hc) as Hb.
  set (c1 := match entries c !! key with Some _ => _ | None => _ end) in *.
  assert (Hm1 : maxEntries c1 = maxEntries c ∧ maxSize c1 = maxSize c
                ∧ entries c1 = entries c)
    by (subst c1; by case_match).
  clearbody c1. destruct Hm1 as (Hm1 & Hm2 & Hm3).
  destruct (evictLoop fuel (entrySize entry) c1) as [c2|] eqn:Hl; [|done].
  intros [= <-].
  pose proof Hl as Hl'.
  apply (evictLoop_spec _ _ key) in Hl as ((Hnd & Hdom & Hsz) & Hm & Hme & Hms);
    [|done].
  assert (Hk : key ∉ accessOrder c2).
  { rewrite Hdom, lookup_delete_eq. intros []; done. }
  split_and!; simpl; try lia.
  - split_and!; simpl.
    + apply NoDup_app. split_and!; [done | | apply NoDup_singleton].
      intros k Hk1 Hk2%list_elem_of_singleton. by subst.
    + intros k. rewrite elem_of_app, list_elem_of_singleton, Hdom.
      rewrite lookup_insert, lookup_delete.
      destruct (decide (key = k)) as [<-|]; [|naive_solver].
      split; [eauto | by right].
    + rewrite totalSize_insert. simpl. lia.
  - unfold sized; simpl. apply map_Forall_insert_2; [done|].
    intros k e He. apply (Hs k e). rewrite <- Hm3. by eapply evictLoop_entries.
Qed.

Lemma Get_sized now key c :
  coherent c → sized c →
  coherent (Get now key c).2 ∧ sized (Get now key c).2
  ∧ maxEntries (Get now key c).2 = maxEntries c
  ∧ maxSize (Get now key c).2 = maxSize c.
Proof.
  intros (Hnd & Hdom & Hsz) Hs. unfold Get.
  destruct (entries c !! key) as [entry|] eqn:Hk; simpl; [|done].
  split_and!; try done.
  - split_and!; simpl.
    + unfold moveToEnd. apply NoDup_app.
      split_and!; [by apply removeFromOrder_NoDup | | apply NoDup_singleton].
      intros k Hk1 Hk2%list_elem_of_singleton.
      apply removeFromOrder_elem in Hk1; [|done]. tauto.
    + intros k. unfold moveToEnd.
      rewrite elem_of_app, list_elem_of_singleton.
      rewrite removeFromOrder_elem by done. rewrite Hdom, lookup_insert.
      destruct (decide (key = k)) as [<-|]; [|naive_solver].
      split; [eauto | by right].
    + rewrite totalSize_insert. simpl.
      rewrite (totalSize_delete _ _ _ Hk) in Hsz. done.
  - unfold sized; simpl. apply map_Forall_insert_2; [|done].
    apply (Hs key entry Hk).
Qed.

Lemma NewCache_sized n : sized (NewCache n).
Proof. apply map_Forall_empty. Qed.

(** What every state that the operations reach from [NewCache] has. *)
Lemma runOps_sized fuel ops c c' :
  coherent c → sized c → runOps fuel ops c = Some c' →
  coherent c' ∧ sized c' ∧ maxEntries c' = maxEntries c ∧ maxSize c' = maxSize c.
Proof.
  revert c. induction ops as [|op ops IH]; intros c Hc Hs; simpl.
  - by intros [= <-].
  - destruct (runOp fuel op c) as [c1|] eqn:Hop; [|done]. intros Hrun.
    assert (H1 : coherent c1 ∧ sized c1
                 ∧ maxEntries c1 = maxEntries c ∧ maxSize c1 = maxSize c).
    { destruct op as [now key | now key entry |]; simpl in Hop.
      - injection Hop as <-. by apply Get_sized.
      - by apply Put_sized in Hop.
      - injection Hop as <-. split_and!; [apply Clear_coherent | | done | done].
        apply map_Forall_empty. }
    destruct H1 as (Hc1 & Hs1 & Hme & Hms).
    destruct (IH c1 Hc1 Hs1 Hrun) as (? & ? & ? & ?).
    split_and!; [done | done | congruence | congruence].
Qed.

(** ** cache.go: the entries as shared objects *)

Lemma assign_eq h p v : Shared.assign h p v p = v.
Proof. unfold Shared.assign. by rewrite decide_True. Qed.

Lemma assign_ne h p v q : q ≠ p → Shared.assign h p v q = h q.
Proof. intros Hq. unfold Shared.assign. by rewrite decide_False. Qed.

Lemma holds_false c p k q :
  Shared.holds c p = false → Shared.entries c !! k = Some q → q ≠ p.
Proof.
  intros Hh Hk ->. apply bool_decide_eq_false in Hh. apply Hh.
  apply list_elem_of_fmap. exists (k, p). split; [done|].
  by apply elem_of_map_to_list.
Qed.

Lemma entrySize_set_Size sz e : entrySize (set_Size sz e) = entrySize e.
Proof. done. Qed.

Lemma entrySize_set_LastAccessed now e : entrySize (set_LastAccessed now e) = entrySize e.
Proof. done. Qed.

Lemma totalSize_fmap (h h' : Shared.Store) (m : gmap string Shared.ptr) :
  (∀ k q, m !! k = Some q → ce_Size (h' q) = ce_Size (h q)) →
  totalSize (h' <$> m) = totalSize (h <$> m).
Proof.
  induction m as [|k q m Hk IH] using map_ind; intros Hm.
  - by rewrite !fmap_empty.
  - rewrite !fmap_insert.
    rewrite !totalSize_insert_None by (by rewrite lookup_fmap, Hk).
    rewrite IH.
    + by rewrite (Hm k q) by apply lookup_insert_eq.
    + intros k' q' Hk'. apply (Hm k'). rewrite lookup_insert_ne; [done|].
      intros <-. congruence.
Qed.

(** The invariants of the cache do not tell such stores apart. *)
Lemma agree_coherent h h' c : agree h h' c → coherent (view h c) → coherent (view h' c).
Proof.
  intros Ha (Hnd & Hdom & Hsz). split_and!; [done | |]; simpl in *.
  - intros k. rewrite Hdom, !lookup_fmap, !fmap_is_Some. done.
  - rewrite Hsz. symmetry. apply totalSize_fmap. intros k q Hk. by apply (Ha k).
Qed.

Lemma agree_sized h h' c : agree h h' c → sized (view h c) → sized (view h' c).
Proof.
  unfold sized. simpl. intros Ha Hs k e. rewrite lookup_fmap.
  destruct (Shared.entries c !! k) as [q|] eqn:Hk; [|done]. intros [= <-].
  destruct (Ha k q Hk) as [-> ->]. apply (Hs k). by rewrite lookup_fmap, Hk.
Qed.

Lemma agree_bounded h h' c : bounded (view h c) → bounded (view h' c).
Proof. unfold bounded. simpl. by rewrite !map_size_fmap. Qed.

Lemma agree_refl h c : agree h h c.
Proof. by intros k q _. Qed.

(** An assignment to an object the cache does not hold. *)
Lemma agree_assign_free h c p v :
  Shared.holds c p = false → agree h (Shared.assign h p v) c.
Proof.
  intros Hh k q Hk. by rewrite assign_ne by (by eapply holds_false).
Qed.

(** The assignment [Get] makes. *)
Lemma agree_touch h c p now :
  agree h (Shared.assign h p (set_LastAccessed now (h p))) c.
Proof.
  intros k q Hk. destruct (decide (q = p)) as [->|Hq].
  - by rewrite assign_eq.
  - by rewrite assign_ne.
Qed.

(** The assignments [Put] makes: they change no [Size] the cache holds
    when the sizes held are the computed ones. *)
Lemma agree_stamp h c p now :
  sized (view h c) →
  agree h (Shared.assign h p (set_LastAccessed now (set_Size (entrySize (h p)) (h p)))) c.
Proof.
  intros Hs k q Hk. destruct (decide (q = p)) as [->|Hq].
  - rewrite assign_eq. split; [|done]. simpl. symmetry.
    apply (Hs k). simpl. by rewrite lookup_fmap, Hk.
  - by rewrite assign_ne.
Qed.

(** [Shared.evictLRU], [Shared.evictLoop], [Shared.Put] and [Shared.Get]
    are [evictLRU], [evictLoop], [Put] and [Get] on the view, taken under
    the store the operation has assigned to. *)
Lemma view_mustEvict h sz c : Shared.mustEvict sz c = mustEvict sz (view h c).
Proof. unfold Shared.mustEvict, mustEvict. simpl. by rewrite map_size_fmap. Qed.

Lemma view_evictLRU h c : view h (Shared.evictLRU h c) = evictLRU (view h c).
Proof.
  unfold Shared.evictLRU, evictLRU. simpl.
  destruct (Shared.accessOrder c) as [|key rest]; [done|].
  rewrite lookup_fmap. destruct (Shared.entries c !! key) as [q|]; simpl; [|done].
  unfold view. simpl. by rewrite fmap_delete.
Qed.

Lemma view_evictLoop fuel sz h c :
  view h <$> Shared.evictLoop fuel sz h c = evictLoop fuel sz (view h c).
Proof.
  revert c. induction fuel as [|fuel IH]; intros c; simpl;
    rewrite <- (view_mustEvict h); destruct (Shared.mustEvict sz c); try done.
  by rewrite IH, view_evictLRU.
Qed.

Lemma view_Put fuel now key p h c :
  (fun hc => view hc.1 hc.2) <$> Shared.Put fuel now key p h c
  = Put fuel now key (h p)
      (view (Shared.assign h p (set_LastAccessed now (set_Size (entrySize (h p)) (h p)))) c).
Proof.
  unfold Shared.Put, Put.
  set (h' := Shared.assign h p _).
  set (c1 := match Shared.entries c !! key with Some _ => _ | None => c end).
  assert (H1 : match entries (view h' c) !! key with
               | Some existing =>
                   {| entries := entries (view h' c);
                      accessOrder := removeFromOrder key (accessOrder (view h' c));
                      maxEntries := maxEntries (view h' c);
                      maxSize := maxSize (view h' c);
                      currentSize := currentSize (view h' c) - ce_Size existing |}
               | None => view h' c
               end = view h' c1).
  { subst c1. simpl. rewrite lookup_fmap.
    by destruct (Shared.entries c !! key). }
  rewrite H1, <- view_evictLoop.
  destruct (Shared.evictLoop fuel (entrySize (h p)) h' c1) as [c2|]; [|done].
  simpl. f_equal. unfold view. simpl. rewrite fmap_insert. f_equal. f_equal.
  subst h'. by rewrite assign_eq.
Qed.

Lemma Shared_Put_Some fuel now key p h c h2 c2 :
  Shared.Put fuel now key p h c = Some (h2, c2) →
  h2 = Shared.assign h p (set_LastAccessed now (set_Size (entrySize (h p)) (h p)))
  ∧ Shared.entries c2 !! key = Some p
  ∧ last (Shared.accessOrder c2) = Some key.
Proof.
  unfold Shared.Put. destruct (Shared.evictLoop _ _ _ _) as [c'|]; [|done].
  intros [= <- <-]. simpl. split_and!; [done | apply lookup_insert_eq | apply last_snoc].
Qed.

Lemma view_NewCache h n : view h (Shared.NewCache n) = NewCache n.
Proof. unfold view, NewCache. simpl. by rewrite fmap_empty. Qed.

Lemma view_Clear h c : view h (Shared.Clear c) = Clear (view h c).
Proof. unfold view, Clear. simpl. by rewrite fmap_empty. Qed.

Lemma view_Get now key h c :
  view (Shared.Get now key h c).1.2 (Shared.Get now key h c).2
  = (Get now key (view (Shared.Get now key h c).1.2 c)).2
  ∧ agree h (Shared.Get now key h c).1.2 c.
Proof.
  unfold Shared.Get, Get. simpl.
  destruct (Shared.entries c !! key) as [p|] eqn:Hk; simpl.
  - rewrite lookup_fmap, Hk. simpl. split; [|apply agree_touch].
    unfold view. simpl. f_equal.
    rewrite assign_eq. symmetry. apply insert_id.
    by rewrite lookup_fmap, Hk; simpl; rewrite assign_eq.
  - rewrite lookup_fmap, Hk. simpl. split; [done | apply agree_refl].
Qed.

(** What every run keeps in which the program assigns to no object the
    cache holds. *)
Lemma Shared_runOps_inv fuel ops h c h' c' :
  0 ≤ Shared.maxSize c →
  coherent (view h c) → sized (view h c) →
  (1 ≤ Shared.maxEntries c → bounded (view h c)) →
  Shared.runOps fuel ops h c = Some (h', c') →
  Shared.leavesHeld fuel ops h c = true →
  coherent (view h' c') ∧ sized (view h' c')
  ∧ (1 ≤ Shared.maxEntries c → bounded (view h' c'))
  ∧ Shared.maxEntries c' = Shared.maxEntries c
  ∧ Shared.maxSize c' = Shared.maxSize c.
Proof.
  revert h c. induction ops as [|op ops IH]; intros h c Hms0 Hc Hs Hb; simpl.
  - by intros [= <- <-].
  - destruct (Shared.runOp fuel op h c) as [[h1 c1]|] eqn:Hop; [|done].
    intros Hrun [Hfree Hrest]%andb_true_iff.
    assert (H1 : coherent (view h1 c1) ∧ sized (view h1 c1)
                 ∧ (1 ≤ Shared.maxEntries c → bounded (view h1 c1))
                 ∧ Shared.maxEntries c1 = Shared.maxEntries c
                 ∧ Shared.maxSize c1 = Shared.maxSize c).
    { destruct op as [now key | now key p | | p v]; simpl in Hop.
      - destruct (Shared.Get now key h c) as [[r hg] cg] eqn:HG.
        injection Hop as <- <-.
        pose proof (view_Get now key h c) as [Hv Ha]. rewrite HG in Hv, Ha.
        simpl in Hv, Ha.
        pose proof (agree_coherent _ _ _ Ha Hc) as Hc'.
        pose proof (agree_sized _ _ _ Ha Hs) as Hs'.
        destruct (Get_sized now key (view hg c) Hc' Hs') as (? & ? & Hme & Hms).
        rewrite <- Hv in *.
        split_and!; [done | done | | done | done].
        intros Hn.
        destruct (Get_spec now key (view hg c) Hc') as (_ & Hbd & _).
        { apply (agree_bounded h). by apply Hb. }
        by rewrite <- Hv in Hbd.
      - pose proof (view_Put fuel now key p h c) as Hv. rewrite Hop in Hv.
        simpl in Hv. symmetry in Hv.
        apply Shared_Put_Some in Hop as (-> & _).
        pose proof (agree_stamp h c p now Hs) as Ha.
        pose proof (agree_coherent _ _ _ Ha Hc) as Hc'.
        pose proof (agree_sized _ _ _ Ha Hs) as Hs'.
        destruct (Put_sized _ _ _ _ _ _ Hc' Hs' Hv) as (? & ? & Hme & Hms).
        split_and!; [done | done | | done | done].
        intros Hn. by apply Put_spec in Hv as (_ & ? & _).
      - injection Hop as <- <-. rewrite view_Clear.
        split_and!; [apply Clear_coherent | apply map_Forall_empty | | done | done].
        intros Hn. unfold bounded. simpl. rewrite map_size_empty. lia.
      - injection Hop as <- <-. apply negb_true_iff in Hfree.
        pose proof (agree_assign_free h c p v Hfree) as Ha.
        split_and!; [by eapply agree_coherent | by eapply agree_sized | | done | done].
        intros Hn. apply (agree_bounded h). by apply Hb. }
    destruct H1 as (Hc1 & Hs1 & Hb1 & Hme & Hms).
    destruct (IH h1 c1) as (? & ? & Hb2 & ? & ?); [lia | done | done | | done | done |].
    { rewrite Hme. done. }
    split_and!; [done | done | | congruence | congruence].
    intros Hn. apply Hb2. by rewrite Hme.
Qed.

Lemma Shared_NewCache_inv h n :
  coherent (view h (Shared.NewCache n)) ∧ sized (view h (Shared.NewCache n))
  ∧ (1 ≤ n → bounded (view h (Shared.NewCache n))).
Proof.
  rewrite view_NewCache. split_and!.
  - apply NewCache_coherent.
  - apply map_Forall_empty.
  - intros Hn. unfold bounded. simpl. rewrite map_size_empty. lia.
Qed.

(** C3 (as amended).  On a cache made by [NewCache n] with [1 ≤ n], after
    any finite sequence of [Get], [Put] and [Clear] that has run to its
    end, in a program that assigns to no entry object while the cache holds
    it, [currentSize] is the sum of the sizes of the stored entries, there
    are at most [n] entries, and [currentSize] is at most [maxSize]
    (100 MiB) unless the cache holds exactly one entry.  The same object
    may be put again, and under several keys. *)
Theorem C3_cache_invariants (n : Z) (fuel : nat) (ops : list Shared.CacheOp)
    (h0 h : Shared.Store) (c : Shared.Cache) :
  1 ≤ n →
  Shared.runOps fuel ops h0 (Shared.NewCache n) = Some (h, c) →
  Shared.leavesHeld fuel ops h0 (Shared.NewCache n) = true →
  Shared.currentSize c = totalSize (h <$> Shared.entries c)
  ∧ Z.of_nat (size (Shared.entries c)) ≤ Shared.maxEntries c
  ∧ (Shared.currentSize c ≤ Shared.maxSize c ∨ size (Shared.entries c) = 1%nat)
  ∧ Shared.maxEntries c = n ∧ Shared.maxSize c = 100 * 1024 * 1024.
Proof.
  intros Hn Hrun Hfree.
  destruct (Shared_NewCache_inv h0 n) as (Hc0 & Hs0 & Hb0).
  destruct (Shared_runOps_inv fuel ops h0 (Shared.NewCache n) h c)
    as ((_ & _ & Hsz) & _ & Hb & Hme & Hms); [simpl; lia | done..|].
  destruct (Hb Hn) as [Hcnt Hbytes]. simpl in *.
  rewrite map_size_fmap in Hcnt, Hbytes. done.
Qed.

(** C3, an instance: one object put twice under one key and once under
    another, and a new object made in between. *)
Lemma C3_cache_invariants_witness :
  match Shared.runOps 1
          [Shared.OpPut 1 "a" 1%positive; Shared.OpGet 2 "a";
           Shared.OpPut 3 "a" 1%positive; Shared.OpPut 4 "b" 1%positive;
           Shared.OpAssign 2%positive (smallEntry "yy");
           Shared.OpPut 5 "c" 2%positive]
          (fun _ => smallEntry "x") (Shared.NewCache 2) with
  | Some (h, c) =>
      Shared.currentSize c = totalSize (h <$> Shared.entries c)
      ∧ Z.of_nat (size (Shared.entries c)) ≤ Shared.maxEntries c
      ∧ (Shared.currentSize c ≤ Shared.maxSize c ∨ size (Shared.entries c) = 1%nat)
      ∧ Shared.maxEntries c = 2 ∧ Shared.maxSize c = 100 * 1024 * 1024
  | None => False
  end.
Proof.
  destruct (Shared.runOps _ _ _ _) as [[h c]|] eqn:Hrun.
  - eapply (C3_cache_invariants 2 1); [lia | exact Hrun | vm_compute; reflexivity].
  - vm_compute in Hrun. discriminate.
Defined.

(** C3 as stated fails: one [Put] of a 128 MiB response into a fresh cache
    returns with [currentSize] above [maxSize]. *)
Lemma C3_counterexample_oversized_entry :
  ∃ h c, Shared.runOps 0 [Shared.OpPut 0 "k" 1%positive] (fun _ => bigEntry)
           (Shared.NewCache 1) = Some (h, c)
         ∧ ¬ (Shared.currentSize c ≤ Shared.maxSize c).
Proof.
  assert (Hbig : entrySize bigEntry = 2 ^ 27).
  { rewrite entrySize_no_headers by reflexivity.
    change (ce_Body bigEntry) with (doubled 27 "x").
    rewrite len_doubled. reflexivity. }
  destruct (Put_NewCache 0 0 "k" bigEntry 1) as (cv & HP & Hsz & Hms & _).
  pose proof (view_Put 0 0 "k" 1%positive (fun _ => bigEntry) (Shared.NewCache 1)) as Hv.
  cbv beta in Hv. rewrite view_NewCache, HP in Hv.
  cbn [Shared.runOps Shared.runOp].
  destruct (Shared.Put 0 0 "k" 1%positive _ _) as [[h c]|]; [|done].
  injection Hv as Hv. exists h, c. split; [done|].
  change (¬ currentSize (view h c) ≤ maxSize (view h c)).
  cbn [fst snd] in Hv. rewrite Hv, Hsz, Hms, Hbig. lia.
Qed.

(** Nor does the sum hold in a program that assigns to an object the cache
    holds: the object is put, its body is replaced, and it is put again
    under the same key.  [Put] has written the new size into the object
    before it subtracts [existing.Size], so it subtracts the new size. *)
Example assigned_entry_breaks_the_sum :
  match Shared.runOps 1
          [Shared.OpPut 1 "a" 1%positive;
           Shared.OpAssign 1%positive (smallEntry "a longer body");
           Shared.OpPut 2 "a" 1%positive]
          (fun _ => smallEntry "x") (Shared.NewCache 2) with
  | Some (h, c) =>
      Shared.currentSize c = 23 ∧ totalSize (h <$> Shared.entries c) = 35
  | None => False
  end.
Proof. vm_compute. split; reflexivity. Qed.

(** C4.  In a cache with [maxEntries = 2], for distinct keys whose entries
    fit under the byte bound, put K1, put K2, get K1, put K3 leaves exactly
    K1 and K3: K2, the least recently used key, has been evicted. *)
Theorem C4_lru_eviction_scenario (K1 K2 K3 : string) (e1 e2 e3 : CacheEntry)
    (t1 t2 t3 t4 : Z) (fuel : nat) :
  K1 ≠ K2 → K1 ≠ K3 → K2 ≠ K3 →
  entrySize e1 + entrySize e2 ≤ 100 * 1024 * 1024 →
  entrySize e1 + entrySize e3 ≤ 100 * 1024 * 1024 →
  (1 ≤ fuel)%nat →
  ∃ c, runOps fuel [OpPut t1 K1 e1; OpPut t2 K2 e2; OpGet t3 K1; OpPut t4 K3 e3]
         (NewCache 2) = Some c
       ∧ dom (entries c) = {[ K1; K3 ]}
       ∧ entries c !! K2 = None
       ∧ accessOrder c = [K1; K3].
Proof.
  intros H12 H13 H23 Hs12 Hs13 Hfuel.
  destruct fuel as [|fuel]; [lia|].
  cbn [runOps runOp].
  (* put K1 *)
  rewrite Put_no_evict; cycle 1.
  { apply lookup_empty. }
  { apply mustEvict_false_iff. left. apply map_size_empty. }
  cbn [NewCache entries accessOrder maxEntries maxSize currentSize].
  (* put K2 *)
  rewrite Put_no_evict; cycle 1.
  { simpl. by rewrite lookup_insert_ne, lookup_empty. }
  { apply mustEvict_false_iff. right. simpl.
    rewrite map_size_insert_None, map_size_empty by apply lookup_empty. lia. }
  cbn [entries accessOrder maxEntries maxSize currentSize].
  (* get K1 *)
  unfold Get. cbn [entries accessOrder maxEntries maxSize currentSize].
  rewrite lookup_insert_ne, lookup_insert_eq by done.
  cbn [snd entries accessOrder maxEntries maxSize currentSize].
  unfold moveToEnd. cbn [app removeFromOrder].
  rewrite decide_True by done. cbn [app].
  (* put K3 *)
  set (m := <[K1 := _]> (<[K2 := _]> (<[K1 := _]> ∅))).
  assert (Hm2 : m !! K2 = Some (set_LastAccessed t2 (set_Size (entrySize e2) e2)))
    by (subst m; by rewrite lookup_insert_ne, lookup_insert_eq).
  assert (Hm3 : m !! K3 = None)
    by (subst m; by rewrite !lookup_insert_ne, lookup_empty).
  assert (Hdom : dom m = {[ K1; K2 ]}).
  { subst m. rewrite !dom_insert_L, dom_empty_L. set_solver. }
  assert (Hsize : size m = 2%nat).
  { rewrite <- size_dom, Hdom, size_union, !size_singleton; [done|set_solver]. }
  clearbody m.
  erewrite Put_evict_one; cycle 1.
  { exact Hm3. }
  { apply mustEvict_full; simpl; lia. }
  { reflexivity. }
  { exact Hm2. }
  { apply mustEvict_false_iff. right. unfold evictLRU; simpl. rewrite Hm2; simpl.
    rewrite map_size_delete_Some, Hsize by eauto. simpl. lia. }
  eexists. split; [reflexivity|]. simpl. split_and!.
  - rewrite dom_insert_L, dom_delete_L, Hdom. set_solver.
  - rewrite lookup_insert_ne, lookup_delete_eq; done.
  - done.
Qed.

(** C4, an instance. *)
Lemma C4_lru_eviction_scenario_witness :
  ∃ c, runOps 1 [OpPut 1 "K1" (smallEntry "one"); OpPut 2 "K2" (smallEntry "two");
                 OpGet 3 "K1"; OpPut 4 "K3" (smallEntry "three")]
         (NewCache 2) = Some c
       ∧ dom (entries c) = {[ "K1"; "K3" ]}
       ∧ entries c !! "K2" = None
       ∧ accessOrder c = ["K1"; "K3"].
Proof.
  apply (C4_lru_eviction_scenario "K1" "K2" "K3");
    [discriminate | discriminate | discriminate
    | vm_compute; discriminate | vm_compute; discriminate | lia].
Defined.

(** C5 fails on the code.  In a cache with [maxEntries = 1] that holds a
    key, [Put] of the same key never returns: the key has left the order
    but not the map, the guard of the loop stays true and [evictLRU] finds
    nothing to evict.  No amount of fuel lets the second [Put] return. *)
Theorem C5_put_existing_key_at_capacity_never_returns
    (fuel0 fuel : nat) (now1 now2 : Z) (key : string) (e1 e2 : CacheEntry) :
  Put fuel0 now1 key e1 (NewCache 1) ≫= Put fuel now2 key e2 = None.
Proof.
  rewrite Put_no_evict; cycle 1.
  { apply lookup_empty. }
  { apply mustEvict_false_iff. left. apply map_size_empty. }
  cbn [mbind option_bind NewCache entries accessOrder maxEntries maxSize currentSize].
  unfold Put. cbn [entries accessOrder maxEntries maxSize currentSize].
  rewrite lookup_insert_eq. cbn [app removeFromOrder].
  rewrite decide_True by done.
  rewrite evictLoop_stuck; [done | done |].
  apply mustEvict_full; simpl;
    rewrite map_size_insert_None, map_size_empty by apply lookup_empty; lia.
Qed.

(** ** Filter: wildcard rules *)

Lemma HasSuffix_spec s suffix :
  HasSuffix s suffix = true ↔ ∃ p, s = p +:+ suffix.
Proof.
  induction s as [|c s IH]; simpl.
  - destruct (decide ("" = suffix)) as [<-|Hne].
    + split; [by exists "" | done].
    + split; [done | intros [p Hp]]. destruct p; simpl in Hp; [done | discriminate].
  - destruct (decide (String c s = suffix)) as [<-|Hne].
    + split; [by exists "" | done].
    + rewrite IH. split.
      * intros [p ->]. by exists (String c p).
      * intros [p Hp]. destruct p as [|a p]; simpl in Hp; [done|].
        injection Hp as _ ->. by exists p.
Qed.

Lemma HasPrefix_star X : HasPrefix ("*." +:+ X) "*." = true.
Proof. reflexivity. Qed.

Lemma HasPrefix_star_inv d :
  HasPrefix d "*." = true → d = "*." +:+ sliceFrom 2 d.
Proof.
  destruct d as [|a [|b d]]; cbn [HasPrefix]; try done.
  - by rewrite andb_false_r.
  - rewrite andb_true_r. intros [Ha Hb]%andb_true_iff.
    apply Ascii.eqb_eq in Ha, Hb. by subst.
Qed.

Lemma matchSuffixRules_true host order r :
  matchSuffixRules host order = (true, r) →
  r ∈ order ∧ ∃ X, r = "*." +:+ X ∧ wildcardMatch host X.
Proof.
  induction order as [|d order IH]; cbn [matchSuffixRules]; [done|].
  destruct (HasPrefix d "*.") eqn:Hp.
  - destruct (_ || _) eqn:Hm.
    + intros [= <-]. split; [by left|]. exists (sliceFrom 2 d).
      split; [by apply HasPrefix_star_inv|].
      apply orb_true_iff in Hm as [Hm|Hm%bool_decide_eq_true]; [by right | by left].
    + intros [Hin HX]%IH. split; [by right | done].
  - intros [Hin HX]%IH. split; [by right | done].
Qed.

Lemma matchSuffixRules_false host order r :
  matchSuffixRules host order = (false, r) →
  r = "" ∧ ∀ X, "*." +:+ X ∈ order → ¬ wildcardMatch host X.
Proof.
  induction order as [|d order IH]; cbn [matchSuffixRules].
  - intros [= <-]. split; [done|]. by intros X ?%elem_of_nil.
  - destruct (HasPrefix d "*.") eqn:Hp.
    + destruct (_ || _) eqn:Hm; [done|].
      intros [-> Hno]%IH. split; [done|].
      intros X [<-|Hin]%elem_of_cons; [|by apply Hno].
      apply orb_false_iff in Hm as [Hm1 Hm2%bool_decide_eq_false].
      change (sliceFrom 2 ("*." +:+ X)) with X in Hm1, Hm2.
      intros [->|Hs]; [done | congruence].
    + intros [-> Hno]%IH. split; [done|].
      intros X [<-|Hin]%elem_of_cons; [|by apply Hno].
      by rewrite HasPrefix_star in Hp.
Qed.

(** C2 (as amended).  With a wildcard rule [*.X] in the set and no exact
    domain or IP rule for the canonical host: the answer [(true, "*.X")]
    is given only to a host that equals [X] or ends with [".X"]; such a
    host is answered [true] with a wildcard rule of the set that it
    matches, which is [*.X] itself when no other wildcard rule matches
    it; and a host that matches no wildcard rule is answered
    [(false, "")]. *)
Theorem C2_wildcard_rules (f : Filter) (order : list string) (X host : string) :
  visits (blockedDomains f) order →
  is_Some (blockedDomains f !! ("*." +:+ X)) →
  readRule (blockedDomains f) (ToLower (TrimSpace host)) = false →
  readRule (blockedIPs f) (ToLower (TrimSpace host)) = false →
  (IsBlocked order f host = (true, "*." +:+ X) →
   wildcardMatch (ToLower (TrimSpace host)) X)
  ∧ (wildcardMatch (ToLower (TrimSpace host)) X →
     ∃ Y, IsBlocked order f host = (true, "*." +:+ Y)
          ∧ is_Some (blockedDomains f !! ("*." +:+ Y))
          ∧ wildcardMatch (ToLower (TrimSpace host)) Y)
  ∧ (wildcardMatch (ToLower (TrimSpace host)) X →
     (∀ Y, is_Some (blockedDomains f !! ("*." +:+ Y)) →
           wildcardMatch (ToLower (TrimSpace host)) Y → Y = X) →
     IsBlocked order f host = (true, "*." +:+ X))
  ∧ ((∀ Y, is_Some (blockedDomains f !! ("*." +:+ Y)) →
           ¬ wildcardMatch (ToLower (TrimSpace host)) Y) →
     IsBlocked order f host = (false, "")).
Proof.
  intros [Hnd Hvis] HX Hd Hi. unfold IsBlocked. rewrite Hd, Hi.
  set (h := ToLower (TrimSpace host)).
  assert (Hfound : wildcardMatch h X →
    ∃ Y, matchSuffixRules h order = (true, "*." +:+ Y)
         ∧ is_Some (blockedDomains f !! ("*." +:+ Y)) ∧ wildcardMatch h Y).
  { intros Hm. destruct (matchSuffixRules h order) as [[] r] eqn:Hr.
    - apply matchSuffixRules_true in Hr as (Hin & Y & -> & HY).
      exists Y. split_and!; [done | by apply Hvis | done].
    - apply matchSuffixRules_false in Hr as [_ Hno].
      destruct (Hno X); [by apply Hvis | done]. }
  split_and!.
  - intros Hr. apply matchSuffixRules_true in Hr as (_ & Y & HY & Hm).
    apply (f_equal (sliceFrom 2)) in HY.
    change (X = Y) in HY. by subst.
  - done.
  - intros Hm Huniq. destruct (Hfound Hm) as (Y & Hr & HYin & HY).
    by rewrite Hr, (Huniq Y HYin HY).
  - intros Hno. destruct (matchSuffixRules h order) as [[] r] eqn:Hr.
    + apply matchSuffixRules_true in Hr as (Hin & Y & -> & HY).
      destruct (Hno Y); [by apply Hvis | done].
    + by apply matchSuffixRules_false in Hr as [-> _].
Qed.

Lemma visits_empty {V} : visits (∅ : gmap string V) [].
Proof.
  split; [constructor|]. intros k. rewrite lookup_empty.
  split; [by intros ?%elem_of_nil | by intros []].
Qed.

Lemma visits_insert {V} (m : gmap string V) order k v :
  m !! k = None → visits m order → visits (<[k := v]> m) (k :: order).
Proof.
  intros Hk [Hnd Hvis]. split.
  - constructor; [|done]. rewrite Hvis, Hk. by intros [].
  - intros k'. rewrite elem_of_cons, lookup_insert, Hvis.
    destruct (decide (k = k')) as [->|]; [|naive_solver].
    split; [eauto | by left].
Qed.

(** C2, an instance: the scenario of the spec. *)
Lemma C2_wildcard_rules_witness :
  (IsBlocked ["*.mal.test"] malRules " A.B.Mal.Test " = (true, "*.mal.test") →
   wildcardMatch (ToLower (TrimSpace " A.B.Mal.Test ")) "mal.test")
  ∧ (wildcardMatch (ToLower (TrimSpace " A.B.Mal.Test ")) "mal.test" →
     ∃ Y, IsBlocked ["*.mal.test"] malRules " A.B.Mal.Test " = (true, "*." +:+ Y)
          ∧ is_Some (blockedDomains malRules !! ("*." +:+ Y))
          ∧ wildcardMatch (ToLower (TrimSpace " A.B.Mal.Test ")) Y)
  ∧ (wildcardMatch (ToLower (TrimSpace " A.B.Mal.Test ")) "mal.test" →
     (∀ Y, is_Some (blockedDomains malRules !! ("*." +:+ Y)) →
           wildcardMatch (ToLower (TrimSpace " A.B.Mal.Test ")) Y → Y = "mal.test") →
     IsBlocked ["*.mal.test"] malRules " A.B.Mal.Test " = (true, "*.mal.test"))
  ∧ ((∀ Y, is_Some (blockedDomains malRules !! ("*." +:+ Y)) →
           ¬ wildcardMatch (ToLower (TrimSpace " A.B.Mal.Test ")) Y) →
     IsBlocked ["*.mal.test"] malRules " A.B.Mal.Test " = (false, "")).
Proof.
  apply (C2_wildcard_rules malRules ["*.mal.test"] "mal.test" " A.B.Mal.Test ").
  - apply (visits_insert ∅ []); [reflexivity | apply visits_empty].
  - exists true. reflexivity.
  - reflexivity.
  - reflexivity.
Defined.

(** C2 as stated fails.  With the rules [*.b.c] and [*.c], visited in this
    order, the host [a.b.c] ends with [".c"] and has no exact rule, yet the
    rule returned is [*.b.c], not [*.c]. *)
Lemma C2_counterexample_overlapping_wildcards :
  visits (blockedDomains overlappingRules) ["*.b.c"; "*.c"]
  ∧ is_Some (blockedDomains overlappingRules !! "*.c")
  ∧ readRule (blockedDomains overlappingRules) (ToLower (TrimSpace "a.b.c")) = false
  ∧ readRule (blockedIPs overlappingRules) (ToLower (TrimSpace "a.b.c")) = false
  ∧ wildcardMatch (ToLower (TrimSpace "a.b.c")) "c"
  ∧ IsBlocked ["*.b.c"; "*.c"] overlappingRules "a.b.c" = (true, "*.b.c")
  ∧ IsBlocked ["*.b.c"; "*.c"] overlappingRules "a.b.c" ≠ (true, "*.c").
Proof.
  split_and!.
  - apply (visits_insert {[ "*.c" := true ]} ["*.c"]); [reflexivity|].
    apply (visits_insert ∅ []); [reflexivity | apply visits_empty].
  - exists true. reflexivity.
  - reflexivity.
  - reflexivity.
  - right. reflexivity.
  - reflexivity.
  - vm_compute. discriminate.
Qed.

(** ** Byte strings *)

Lemma append_assoc (a b c : string) : (a +:+ b) +:+ c = a +:+ (b +:+ c).
Proof. induction a as [|x a IH]; simpl; [done | by rewrite IH]. Qed.

Lemma append_nil_r (a : string) : a +:+ "" = a.
Proof. induction a as [|x a IH]; simpl; [done | by rewrite IH]. Qed.

Lemma sliceTo_sliceFrom n s : sliceTo n s +:+ sliceFrom n s = s.
Proof.
  revert s. induction n as [|n IH]; intros [|c s]; simpl; try done.
  by rewrite IH.
Qed.

Lemma length_sliceTo n s :
  (n ≤ String.length s)%nat → String.length (sliceTo n s) = n.
Proof.
  revert s. induction n as [|n IH]; intros [|c s]; simpl; try done; try lia.
  intros H. rewrite IH; lia.
Qed.

Lemma sliceTo_app a b : sliceTo (String.length a) (a +:+ b) = a.
Proof. induction a as [|x a IH]; simpl; [by destruct b | by rewrite IH]. Qed.

Lemma sliceFrom_app a b : sliceFrom (String.length a) (a +:+ b) = b.
Proof. induction a as [|x a IH]; simpl; [by destruct b | done]. Qed.

Lemma hasByte_app c a b : hasByte c (a +:+ b) = hasByte c a || hasByte c b.
Proof.
  induction a as [|x a IH]; simpl; [done|]. by destruct (Ascii.eqb x c).
Qed.

(** [Index] finds the first occurrence. *)
Lemma Index_Some s sep i :
  Index s sep = Some i →
  s = sliceTo i s +:+ String sep (sliceFrom (S i) s)
  ∧ hasByte sep (sliceTo i s) = false
  ∧ String.length (sliceTo i s) = i.
Proof.
  revert i. induction s as [|c s IH]; intros i; simpl; [done|].
  destruct (Ascii.eqb c sep) eqn:Hc.
  - intros [= <-]. apply Ascii.eqb_eq in Hc as ->. done.
  - destruct (Index s sep) as [j|]; simpl; [|done]. intros [= <-].
    destruct (IH j eq_refl) as (H1 & H2 & H3). simpl.
    rewrite Hc, H2, H3. split_and!; [|done..]. f_equal. exact H1.
Qed.

Lemma Index_None s sep : Index s sep = None ↔ hasByte sep s = false.
Proof.
  induction s as [|c s IH]; simpl; [done|].
  destruct (Ascii.eqb c sep); [done|].
  destruct (Index s sep); simpl; [|tauto].
  split; [done|]. intros H. by apply IH in H.
Qed.

Lemma Index_app a sep b :
  hasByte sep a = false → Index (a +:+ String sep b) sep = Some (String.length a).
Proof.
  induction a as [|x a IH]; simpl.
  - by rewrite Ascii.eqb_refl.
  - destruct (Ascii.eqb x sep); [done|]. intros H. by rewrite IH.
Qed.

(** [SplitN(s, sep, 2)]: either [s] has no [sep] and comes back whole, or
    it is cut at its first [sep]. *)
Lemma SplitN_2 s sep :
  (hasByte sep s = false ∧ SplitN s sep 2 = [s])
  ∨ (∃ a b, s = a +:+ String sep b ∧ hasByte sep a = false
            ∧ SplitN s sep 2 = [a; b]).
Proof.
  cbn [SplitN]. destruct (Index s sep) as [i|] eqn:Hi.
  - right. apply Index_Some in Hi as (H1 & H2 & H3). eauto.
  - left. by apply Index_None in Hi.
Qed.

Lemma SplitN_2_cut a sep b :
  hasByte sep a = false → SplitN (a +:+ String sep b) sep 2 = [a; b].
Proof.
  intros Ha. cbn [SplitN]. rewrite Index_app by done.
  f_equal; [apply sliceTo_app|].
  change (String sep b) with (String sep "" +:+ b).
  rewrite <- append_assoc.
  replace (S (String.length a)) with (String.length (a +:+ String sep ""))
    by (rewrite length_append; simpl; lia).
  by rewrite sliceFrom_app.
Qed.

Lemma ReadString_Some delim reader line rest :
  ReadString delim reader = Some (line, rest) →
  reader = line +:+ rest ∧ line ≠ ""
  ∧ ∃ l, line = l +:+ String delim "" ∧ hasByte delim l = false.
Proof.
  revert line. induction reader as [|c r IH]; intros line; simpl; [done|].
  destruct (Ascii.eqb c delim) eqn:Hc.
  - intros [= <- <-]. apply Ascii.eqb_eq in Hc as ->.
    split_and!; [done.. | by exists ""].
  - destruct (ReadString delim r) as [[l' rest']|]; [|done].
    intros [= <- <-]. destruct (IH l' eq_refl) as (-> & _ & l & -> & Hl).
    split_and!; [done.. |]. exists (String c l). simpl. by rewrite Hc, Hl.
Qed.

Lemma ReadString_app delim l rest :
  hasByte delim l = false →
  ReadString delim (l +:+ String delim rest) = Some (l +:+ String delim "", rest).
Proof.
  induction l as [|x l IH]; simpl.
  - by rewrite Ascii.eqb_refl.
  - destruct (Ascii.eqb x delim); [done|]. intros H. by rewrite IH.
Qed.

(** *** Case mapping, byte by byte *)

Lemma lower_upper c : lower (upper c) = lower c.
Proof. each_byte c. Qed.

Lemma lower_lower c : lower (lower c) = lower c.
Proof. each_byte c. Qed.

Lemma isSpace_lower c : isSpace (lower c) = isSpace c.
Proof. each_byte c. Qed.

Lemma eqb_lower_colon c : Ascii.eqb (lower c) ":" = Ascii.eqb c ":".
Proof. each_byte c. Qed.

Lemma eqb_lower_LF c : Ascii.eqb (lower c) LF = Ascii.eqb c LF.
Proof. each_byte c. Qed.

Lemma mapBytes_app f a b : mapBytes f (a +:+ b) = mapBytes f a +:+ mapBytes f b.
Proof. induction a as [|x a IH]; simpl; [done | by rewrite IH]. Qed.

Lemma ToLower_app a b : ToLower (a +:+ b) = ToLower a +:+ ToLower b.
Proof. apply mapBytes_app. Qed.

Lemma ToLower_ToUpper s : ToLower (ToUpper s) = ToLower s.
Proof.
  induction s as [|c s IH]; simpl; [done|].
  unfold ToLower, ToUpper in *. simpl. by rewrite lower_upper, IH.
Qed.

Lemma ToLower_ToLower s : ToLower (ToLower s) = ToLower s.
Proof.
  induction s as [|c s IH]; simpl; [done|].
  unfold ToLower in *. simpl. by rewrite lower_lower, IH.
Qed.

Lemma hasByte_ToLower_colon s : hasByte ":" (ToLower s) = hasByte ":" s.
Proof.
  induction s as [|c s IH]; simpl; [done|].
  unfold ToLower in *. by rewrite eqb_lower_colon, IH.
Qed.

Lemma hasByte_ToLower_LF s : hasByte LF (ToLower s) = hasByte LF s.
Proof.
  induction s as [|c s IH]; simpl; [done|].
  unfold ToLower in *. by rewrite eqb_lower_LF, IH.
Qed.

(** *** Trimming *)

Lemma TrimLeftFunc_split p s :
  ∃ pre, s = pre +:+ TrimLeftFunc p s ∧ allBytes p pre = true.
Proof.
  induction s as [|c s (pre & IH1 & IH2)]; simpl; [by exists ""|].
  destruct (p c) eqn:Hc; [|by exists ""].
  exists (String c pre). simpl. by rewrite Hc, IH2, <- IH1.
Qed.

Lemma TrimRightFunc_split p s :
  ∃ suf, s = TrimRightFunc p s +:+ suf ∧ allBytes p suf = true.
Proof.
  induction s as [|c s (suf & IH1 & IH2)]; simpl; [by exists ""|].
  destruct (TrimRightFunc p s) as [|d r] eqn:Hr.
  - destruct (p c) eqn:Hc.
    + exists (String c s). simpl in IH1. subst suf. simpl. by rewrite Hc.
    + exists s. simpl in *. by subst.
  - exists suf. simpl. by rewrite IH1 at 1.
Qed.

Lemma hasByte_TrimLeftFunc c p s :
  hasByte c s = false → hasByte c (TrimLeftFunc p s) = false.
Proof.
  destruct (TrimLeftFunc_split p s) as (pre & Hs & _). rewrite Hs at 1.
  rewrite hasByte_app. by intros [_ ?]%orb_false_iff.
Qed.

Lemma hasByte_TrimRightFunc c p s :
  hasByte c s = false → hasByte c (TrimRightFunc p s) = false.
Proof.
  destruct (TrimRightFunc_split p s) as (suf & Hs & _). rewrite Hs at 1.
  rewrite hasByte_app. by intros [? _]%orb_false_iff.
Qed.

Lemma hasByte_TrimSpace c s : hasByte c s = false → hasByte c (TrimSpace s) = false.
Proof. intros H. by apply hasByte_TrimRightFunc, hasByte_TrimLeftFunc. Qed.

Lemma endsClean_TrimRightFunc p s : endsClean p (TrimRightFunc p s) = true.
Proof.
  induction s as [|c s IH]; simpl; [done|].
  destruct (TrimRightFunc p s) as [|d r] eqn:Hr.
  - destruct (p c) eqn:Hc; simpl; [done | by rewrite Hc].
  - done.
Qed.

Lemma TrimRightFunc_clean p s : endsClean p s = true → TrimRightFunc p s = s.
Proof.
  induction s as [|c s IH]; simpl; [done|].
  destruct s as [|d s].
  - simpl. intros H. by destruct (p c).
  - intros H. rewrite (IH H). done.
Qed.

Lemma TrimLeftFunc_clean p s : startsClean p s = true → TrimLeftFunc p s = s.
Proof. destruct s as [|c s]; simpl; [done|]. by destruct (p c). Qed.

Lemma startsClean_TrimLeftFunc p s : startsClean p (TrimLeftFunc p s) = true.
Proof.
  induction s as [|c s IH]; simpl; [done|].
  destruct (p c) eqn:Hc; [done|]. simpl. by rewrite Hc.
Qed.

Lemma startsClean_TrimRightFunc p s :
  startsClean p s = true → startsClean p (TrimRightFunc p s) = true.
Proof.
  destruct s as [|c s]; simpl; [done|]. intros Hc.
  destruct (TrimRightFunc p s); [|done].
  destruct (p c) eqn:E; simpl; [done | by rewrite E].
Qed.

Lemma TrimRightFunc_all p a b :
  allBytes p b = true → TrimRightFunc p (a +:+ b) = TrimRightFunc p a.
Proof.
  intros Hb. induction a as [|c a IH]; simpl.
  - induction b as [|d b IHb]; simpl; [done|]. simpl in Hb.
    apply andb_true_iff in Hb as [Hd Hb]. by rewrite (IHb Hb), Hd.
  - by rewrite IH.
Qed.

Lemma endsClean_app p a b :
  b ≠ "" → endsClean p (a +:+ b) = endsClean p b.
Proof.
  intros Hb. induction a as [|c a IH]; simpl; [done|].
  destruct (a +:+ b) as [|d r] eqn:Hab; [|done].
  destruct a; simpl in Hab; [done | discriminate].
Qed.

Lemma endsClean_weaken (p q : ascii → bool) s :
  (∀ c, q c = true → p c = true) → endsClean p s = true → endsClean q s = true.
Proof.
  intros Hpq. induction s as [|c s IH]; simpl; [done|].
  destruct s; [|done]. intros Hc. specialize (Hpq c).
  destruct (q c), (p c); naive_solver.
Qed.

Lemma TrimSpace_trimmed s : trimmed (TrimSpace s).
Proof.
  split.
  - apply startsClean_TrimRightFunc, startsClean_TrimLeftFunc.
  - apply endsClean_TrimRightFunc.
Qed.

Lemma trimmed_TrimSpace s : trimmed s → TrimSpace s = s.
Proof.
  intros [H1 H2]. unfold TrimSpace. rewrite TrimLeftFunc_clean by done.
  by apply TrimRightFunc_clean.
Qed.

Lemma TrimSpace_space s : TrimSpace (" " +:+ s) = TrimSpace s.
Proof. reflexivity. Qed.

Lemma startsClean_ToLower s : startsClean isSpace (ToLower s) = startsClean isSpace s.
Proof. destruct s as [|c s]; simpl; [done|]. by rewrite isSpace_lower. Qed.

Lemma endsClean_ToLower s : endsClean isSpace (ToLower s) = endsClean isSpace s.
Proof.
  induction s as [|c s IH]; simpl; [done|].
  destruct s as [|d s]; simpl in *; [by rewrite isSpace_lower | done].
Qed.

Lemma TrimLeftFunc_ToLower s :
  TrimLeftFunc isSpace (ToLower s) = ToLower (TrimLeftFunc isSpace s).
Proof.
  induction s as [|c s IH]; simpl; [done|].
  rewrite isSpace_lower. by destruct (isSpace c).
Qed.

Lemma TrimRightFunc_ToLower s :
  TrimRightFunc isSpace (ToLower s) = ToLower (TrimRightFunc isSpace s).
Proof.
  induction s as [|c s IH]; simpl; [done|].
  unfold ToLower in *. rewrite IH.
  destruct (TrimRightFunc isSpace s); simpl; [|done].
  rewrite isSpace_lower. by destruct (isSpace c).
Qed.

Lemma ToLower_TrimSpace_ToLower s :
  ToLower (TrimSpace (ToLower s)) = TrimSpace (ToLower s).
Proof.
  unfold TrimSpace.
  by rewrite TrimLeftFunc_ToLower, TrimRightFunc_ToLower, ToLower_ToLower.
Qed.

(** *** Splitting and joining *)

Lemma sliceFrom_S_app a sep b :
  sliceFrom (S (String.length a)) (a +:+ String sep b) = b.
Proof. induction a as [|x a IH]; simpl; [by destruct b | done]. Qed.

Lemma SplitN_3_cut a b c sep :
  hasByte sep a = false → hasByte sep b = false →
  SplitN (a +:+ String sep (b +:+ String sep c)) sep 3 = [a; b; c].
Proof.
  intros Ha Hb. change (SplitN ?s sep 3) with
    (match Index s sep with
     | None => [s]
     | Some i => sliceTo i s :: SplitN (sliceFrom (S i) s) sep 2
     end).
  rewrite Index_app by done. rewrite sliceTo_app, sliceFrom_S_app.
  by rewrite SplitN_2_cut.
Qed.

Lemma SplitN_3_inv s sep a b c :
  SplitN s sep 3 = [a; b; c] →
  s = a +:+ String sep (b +:+ String sep c)
  ∧ hasByte sep a = false ∧ hasByte sep b = false.
Proof.
  change (SplitN s sep 3) with
    (match Index s sep with
     | None => [s]
     | Some i => sliceTo i s :: SplitN (sliceFrom (S i) s) sep 2
     end).
  destruct (Index s sep) as [i|] eqn:Hi; [|done].
  apply Index_Some in Hi as (Hs & Ha & _).
  destruct (SplitN_2 (sliceFrom (S i) s) sep) as [[_ H2] | (b' & c' & Hbc & Hb & H2)];
    rewrite H2; [done|].
  intros [= <- <- <-]. rewrite <- Hbc. done.
Qed.

Lemma Split_nonempty s sep : Split s sep ≠ [].
Proof.
  destruct s as [|c s]; simpl; [done|].
  destruct (Ascii.eqb c sep); [done|]. by destruct (Split s sep).
Qed.

Lemma Join_cons c p ps sep :
  Join (String c p :: ps) sep = String c (Join (p :: ps) sep).
Proof. by destruct ps. Qed.

Lemma Join_Split s sep : Join (Split s sep) (String sep "") = s.
Proof.
  induction s as [|c s IH]; simpl; [done|].
  destruct (Ascii.eqb c sep) eqn:Hc.
  - apply Ascii.eqb_eq in Hc as ->.
    pose proof (Split_nonempty s sep). destruct (Split s sep) as [|p ps]; [done|].
    cbn [Join]. simpl. by rewrite <- IH.
  - pose proof (Split_nonempty s sep). destruct (Split s sep) as [|p ps]; [done|].
    by rewrite Join_cons, IH.
Qed.

Lemma ToLower_capitalizePart part : ToLower (capitalizePart part) = ToLower part.
Proof.
  unfold capitalizePart. destruct part as [|c r]; [done|].
  replace (0 <? len (String c r)) with true
    by (symmetry; apply Z.ltb_lt; unfold len; simpl; lia).
  change (String (lower (upper c)) (ToLower (ToLower r))
          = String (lower c) (ToLower r)).
  by rewrite lower_upper, ToLower_ToLower.
Qed.

Lemma ToLower_Join_capitalized parts sep :
  ToLower (Join (map capitalizePart parts) sep) = ToLower (Join parts sep).
Proof.
  induction parts as [|p [|q parts] IH]; [done | apply ToLower_capitalizePart |].
  change (ToLower (capitalizePart p +:+ sep +:+ Join (map capitalizePart (q :: parts)) sep)
          = ToLower (p +:+ sep +:+ Join (q :: parts) sep)).
  by rewrite !ToLower_app, IH, ToLower_capitalizePart.
Qed.

(** Lower-casing undoes [capitalizeHeader]. *)
Lemma ToLower_capitalizeHeader name : ToLower (capitalizeHeader name) = ToLower name.
Proof.
  unfold capitalizeHeader. rewrite ToLower_Join_capitalized.
  by rewrite (Join_Split name "-").
Qed.

(** *** Header lines, read and written *)

Lemma isSpace_cutset c : hasByte c CRLF = true → isSpace c = true.
Proof.
  destruct c as [[] [] [] [] [] [] [] []]; vm_compute; intros H;
    first [reflexivity | discriminate H].
Qed.

Lemma TrimRight_line l :
  TrimRight (l +:+ String LF "") CRLF = TrimRightFunc (fun c => hasByte c CRLF) l.
Proof. unfold TrimRight. by apply TrimRightFunc_all. Qed.

Lemma TrimRight_CRLF x :
  endsClean (fun c => hasByte c CRLF) x = true → TrimRight (x +:+ CRLF) CRLF = x.
Proof.
  intros Hx. unfold TrimRight. rewrite TrimRightFunc_all by done.
  by apply TrimRightFunc_clean.
Qed.

(** One round of the header loop on one line of the stream stores a clean
    header. *)
Lemma header_line_clean l idx :
  hasByte LF l = false →
  Index (TrimRight (l +:+ String LF "") CRLF) ":" = Some idx →
  cleanHeader
    (TrimSpace (ToLower (sliceTo idx (TrimRight (l +:+ String LF "") CRLF))),
     TrimSpace (sliceFrom (S idx) (TrimRight (l +:+ String LF "") CRLF))).
Proof.
  intros Hl Hidx. rewrite TrimRight_line in *.
  set (line := TrimRightFunc _ l) in *.
  assert (Hline : hasByte LF line = false) by by apply hasByte_TrimRightFunc.
  apply Index_Some in Hidx as (Hs & Hk & _).
  rewrite Hs, hasByte_app in Hline. apply orb_false_iff in Hline as [Hl1 Hl2].
  simpl in Hl2. change (Ascii.eqb ":" LF) with false in Hl2.
  split; [split_and!|split].
  - by apply hasByte_TrimSpace; rewrite hasByte_ToLower_colon.
  - by apply hasByte_TrimSpace; rewrite hasByte_ToLower_LF.
  - apply TrimSpace_trimmed.
  - apply ToLower_TrimSpace_ToLower.
  - by apply hasByte_TrimSpace.
  - apply TrimSpace_trimmed.
Qed.

Lemma readHeaderLines_clean fuel acc reader headers rest :
  map_Forall (fun k v => cleanHeader (k, v)) acc →
  readHeaderLines fuel acc reader = Ok (headers, rest) →
  map_Forall (fun k v => cleanHeader (k, v)) headers.
Proof.
  revert acc reader. induction fuel as [|fuel IH]; intros acc reader Hacc;
    cbn [readHeaderLines]; [done|].
  destruct (ReadString LF reader) as [[raw reader']|] eqn:Hr; [|done].
  apply ReadString_Some in Hr as (_ & _ & l & -> & Hl).
  case_bool_decide; [by intros [= <- <-]|].
  destruct (Index _ ":") as [idx|] eqn:Hidx; [|by apply IH].
  apply IH. apply map_Forall_insert_2; [|done].
  by apply header_line_clean.
Qed.

(** One round of the header loop on one line that [SerializeRequest] wrote
    stores the header the line was written from. *)
Lemma header_line_roundtrip fuel acc k v rest :
  cleanHeader (k, v) →
  readHeaderLines (S fuel) acc
    ((capitalizeHeader k +:+ ": " +:+ v +:+ CRLF) +:+ rest)
  = readHeaderLines fuel (<[k := v]> acc) rest.
Proof.
  intros [(Hk1 & Hk2 & Hk3 & Hk4) [Hv1 Hv2]]. cbn [fst snd] in *.
  assert (Hn1 : hasByte ":" (capitalizeHeader k) = false).
  { by rewrite <- hasByte_ToLower_colon, ToLower_capitalizeHeader, Hk4. }
  assert (Hn2 : hasByte LF (capitalizeHeader k) = false).
  { by rewrite <- hasByte_ToLower_LF, ToLower_capitalizeHeader, Hk4. }
  set (name := capitalizeHeader k) in *.
  assert (Hraw : (name +:+ ": " +:+ v +:+ CRLF) +:+ rest
                 = (name +:+ ": " +:+ v +:+ String CR "") +:+ String LF rest).
  { rewrite ?append_assoc. simpl. rewrite ?append_assoc. done. }
  assert (Hline : (name +:+ ": " +:+ v +:+ String CR "") +:+ String LF ""
                  = (name +:+ String ":" (" " +:+ v)) +:+ CRLF).
  { rewrite ?append_assoc. simpl. rewrite ?append_assoc. done. }
  rewrite Hraw. cbn [readHeaderLines]. rewrite ReadString_app; cycle 1.
  { rewrite !hasByte_app, Hn2, Hv1. done. }
  rewrite Hline, TrimRight_CRLF; cycle 1.
  { rewrite endsClean_app by done. destruct v as [|c v]; [done|].
    change (endsClean (fun c => hasByte c CRLF) (String c v) = true).
    apply (endsClean_weaken isSpace); [apply isSpace_cutset | apply Hv2]. }
  rewrite bool_decide_eq_false_2 by by destruct name.
  rewrite Index_app by done.
  rewrite sliceTo_app, sliceFrom_S_app, TrimSpace_space.
  subst name. rewrite ToLower_capitalizeHeader, Hk4.
  by rewrite !trimmed_TrimSpace.
Qed.

Lemma length_headerBlock hs : (length hs ≤ String.length (headerBlock hs))%nat.
Proof.
  induction hs as [|[k v] hs IH]; simpl; [done|].
  rewrite !length_append. simpl. lia.
Qed.

Lemma readHeaderLines_serialized hs fuel acc body :
  Forall cleanHeader hs → (length hs < fuel)%nat →
  readHeaderLines fuel acc (headerBlock hs +:+ CRLF +:+ body)
  = Ok (insertAll acc hs, body).
Proof.
  intros Hhs. revert fuel acc.
  induction Hhs as [|[k v] hs Hkv Hhs IH]; intros fuel acc Hfuel.
  - destruct fuel as [|fuel]; [simpl in Hfuel; lia|]. reflexivity.
  - destruct fuel as [|fuel]; [simpl in Hfuel; lia|].
    cbn [headerBlock fold_right fst snd]. fold (headerBlock hs).
    rewrite append_assoc, header_line_roundtrip by done.
    apply IH. simpl in Hfuel. lia.
Qed.

Lemma insertAll_list_to_map hs acc :
  NoDup hs.*1 → insertAll acc hs = list_to_map hs ∪ acc.
Proof.
  revert acc. induction hs as [|[k v] hs IH]; intros acc Hnd; simpl.
  - by rewrite (left_id_L ∅ (∪)).
  - apply NoDup_cons in Hnd as [Hk Hnd]. unfold insertAll in *. simpl.
    rewrite IH by done. rewrite <- insert_union_l.
    by rewrite insert_union_r by by apply not_elem_of_list_to_map_1.
Qed.

Lemma insertAll_visits (headers : gmap string string) hs :
  hs ≡ₚ map_to_list headers → insertAll ∅ hs = headers.
Proof.
  intros Hperm.
  assert (Hnd : NoDup hs.*1).
  { rewrite Hperm. apply NoDup_fst_map_to_list. }
  rewrite insertAll_list_to_map by done. rewrite (right_id_L ∅ (∪)).
  rewrite (list_to_map_proper hs (map_to_list headers)) by done.
  apply list_to_map_to_list.
Qed.

(** ** Parser *)

Lemma readHeaderLines_rest fuel headers reader headers' rest :
  readHeaderLines fuel headers reader = Ok (headers', rest) →
  ∃ taken, reader = taken +:+ rest.
Proof.
  revert headers reader. induction fuel as [|fuel IH]; intros headers reader;
    cbn [readHeaderLines]; [done|].
  destruct (ReadString LF reader) as [[line reader']|] eqn:Hr; [|done].
  apply ReadString_Some in Hr as (-> & _ & _).
  assert (Hrec : ∀ h, readHeaderLines fuel h reader' = Ok (headers', rest) →
                      ∃ taken, line +:+ reader' = taken +:+ rest).
  { intros h [taken ->]%IH. exists (line +:+ taken). by rewrite append_assoc. }
  case_bool_decide.
  - intros [= <- <-]. by exists line.
  - destruct (Index _ _); apply Hrec.
Qed.

Lemma readBody_Ok headers reader body rest :
  readBody headers reader = Ok (body, rest) →
  reader = body +:+ rest
  ∧ match headers !! "content-length" with
    | None => body = ""
    | Some contentLengthStr =>
        ∃ n, Atoi contentLengthStr = Some n
             ∧ 0 ≤ n ≤ 10485760 ∧ len body = n
    end.
Proof.
  unfold readBody.
  destruct (headers !! "content-length") as [cl|]; [|by intros [= <- <-]].
  destruct (Atoi cl) as [n|]; [|done].
  destruct (n <? 0) eqn:Hneg; [done|].
  destruct (n >? 10 * 1024 * 1024) eqn:Hbig; [done|].
  unfold ReadFull. destruct (_ <=? _)%nat eqn:Hlen; [|done].
  intros [= <- <-]. split; [by rewrite sliceTo_sliceFrom|].
  exists n. apply Nat.leb_le in Hlen.
  unfold len. rewrite length_sliceTo by done. split_and!; [done | lia..].
Qed.

Lemma readBody_Err headers reader contentLengthStr :
  headers !! "content-length" = Some contentLengthStr →
  (Atoi contentLengthStr = None
   ∨ ∃ n, Atoi contentLengthStr = Some n ∧ (n < 0 ∨ 10485760 < n)) →
  ∃ e, readBody headers reader = Err e.
Proof.
  intros Hcl Hbad. unfold readBody. rewrite Hcl.
  destruct Hbad as [-> | (n & -> & Hn)]; [eauto|].
  destruct (n <? 0) eqn:Hneg; [eauto|].
  destruct (n >? 10 * 1024 * 1024) eqn:Hbig; [eauto|]. lia.
Qed.

Section ParserProperties.

Variable url_Parse : string → option URL.

(** What a successful parse of a request other than CONNECT went through. *)
Lemma ParseHTTPRequest_plain reader req rest :
  ParseHTTPRequest url_Parse reader = Ok (req, rest) →
  req_IsConnect req = false →
  ∃ line reader1 p0 reader2,
    ReadString LF reader = Some (line, reader1)
    ∧ SplitN (TrimRight line CRLF) " " 3
      = [p0; req_RequestTarget req; req_Version req]
    ∧ req_Method req = ToUpper p0 ∧ req_Method req ≠ "CONNECT"
    ∧ readHeaders reader1 = Ok (req_Headers req, reader2)
    ∧ extractHostAndPort url_Parse (req_RequestTarget req) (req_Headers req)
      = Ok (req_Host req, req_Port req)
    ∧ readBody (req_Headers req) reader2 = Ok (req_Body req, rest).
Proof.
  unfold ParseHTTPRequest.
  destruct (ReadString LF reader) as [[line reader1]|] eqn:Hline; [|done].
  destruct (SplitN _ _ _) as [|p0 [|p1 [|p2 [|]]]] eqn:Hparts; try done.
  case_bool_decide as Hm.
  { destruct (SplitN p1 _ _) as [|h [|ps [|]]]; try done.
    destruct (Atoi ps); [|done]. by intros [= <- <-]. }
  destruct (readHeaders reader1) as [[headers reader2]|] eqn:Hh; [|done].
  destruct (extractHostAndPort _ _ _) as [[host port]|] eqn:Hhp; [|done].
  destruct (readBody _ _) as [[body reader3]|] eqn:Hb; [|done].
  intros [= <- <-] _. simpl. by exists line, reader1, p0, reader2.
Qed.

(** What a successful parse of a CONNECT request went through: the request
    line alone. *)
Lemma ParseHTTPRequest_connect reader req rest :
  ParseHTTPRequest url_Parse reader = Ok (req, rest) →
  req_IsConnect req = true →
  ∃ line p0 portStr,
    ReadString LF reader = Some (line, rest)
    ∧ SplitN (TrimRight line CRLF) " " 3
      = [p0; req_RequestTarget req; req_Version req]
    ∧ req_Method req = "CONNECT" ∧ ToUpper p0 = "CONNECT"
    ∧ req_Headers req = ∅ ∧ req_Body req = ""
    ∧ SplitN (req_RequestTarget req) ":" 2 = [req_Host req; portStr]
    ∧ Atoi portStr = Some (req_Port req).
Proof.
  unfold ParseHTTPRequest.
  destruct (ReadString LF reader) as [[line reader1]|] eqn:Hline; [|done].
  destruct (SplitN _ _ _) as [|p0 [|p1 [|p2 [|]]]] eqn:Hparts; try done.
  case_bool_decide as Hm.
  - destruct (SplitN p1 _ _) as [|h [|ps [|]]] eqn:Hhp; try done.
    destruct (Atoi ps) as [port|] eqn:Hport; [|done].
    intros [= <- <-] _. simpl. by exists line, p0, ps.
  - destruct (readHeaders reader1) as [[headers reader2]|]; [|done].
    destruct (extractHostAndPort _ _ _) as [[host port]|]; [|done].
    destruct (readBody _ _) as [[body reader3]|]; [|done].
    by intros [= <- <-].
Qed.

Lemma ParseHTTPRequest_IsConnect reader req rest :
  ParseHTTPRequest url_Parse reader = Ok (req, rest) →
  req_IsConnect req = bool_decide (req_Method req = "CONNECT").
Proof.
  intros HP. destruct (req_IsConnect req) eqn:Hc.
  - apply ParseHTTPRequest_connect in HP as (? & ? & ? & _ & _ & -> & _); done.
  - apply ParseHTTPRequest_plain in HP as (? & ? & ? & ? & _ & _ & _ & Hm & _);
      [|done]. by rewrite bool_decide_eq_false_2.
Qed.

(** C6.  For a request other than CONNECT whose header block has been read
    and whose host and port are resolved: without [content-length] the
    parse succeeds with an empty body and takes no byte after the header
    block; with a [content-length] that [Atoi] reads as a number between 0
    and 10,485,760 it succeeds exactly when that many bytes follow the
    header block, and the body is these bytes, the rest left unread; a
    [content-length] that [Atoi] does not read, or that is negative or
    above 10,485,760, makes the parse fail.  And a parse that succeeds has
    read the body in this way. *)
Theorem C6_content_length_decides_body
    (reader line reader1 p0 p1 p2 : string) (headers : gmap string string)
    (reader2 : string) :
  ReadString LF reader = Some (line, reader1) →
  SplitN (TrimRight line CRLF) " " 3 = [p0; p1; p2] →
  ToUpper p0 ≠ "CONNECT" →
  readHeaders reader1 = Ok (headers, reader2) →
  (∀ req rest,
     ParseHTTPRequest url_Parse reader = Ok (req, rest) →
     req_Headers req = headers
     ∧ reader2 = req_Body req +:+ rest
     ∧ match headers !! "content-length" with
       | Some contentLengthStr =>
           ∃ n, Atoi contentLengthStr = Some n
                ∧ 0 ≤ n ≤ 10485760 ∧ len (req_Body req) = n
       | None => req_Body req = ""
       end)
  ∧ (∀ contentLengthStr,
       headers !! "content-length" = Some contentLengthStr →
       (Atoi contentLengthStr = None
        ∨ ∃ n, Atoi contentLengthStr = Some n ∧ (n < 0 ∨ 10485760 < n)) →
       ∃ e, ParseHTTPRequest url_Parse reader = Err e)
  ∧ (∀ host port,
       extractHostAndPort url_Parse p1 headers = Ok (host, port) →
       (headers !! "content-length" = None →
        ParseHTTPRequest url_Parse reader
        = Ok ({| req_Method := ToUpper p0; req_RequestTarget := p1;
                 req_Version := p2; req_Headers := headers; req_Body := "";
                 req_Host := host; req_Port := port; req_IsConnect := false |},
              reader2))
       ∧ (∀ contentLengthStr n,
            headers !! "content-length" = Some contentLengthStr →
            Atoi contentLengthStr = Some n → 0 ≤ n ≤ 10485760 →
            (n ≤ len reader2 →
             ParseHTTPRequest url_Parse reader
             = Ok ({| req_Method := ToUpper p0; req_RequestTarget := p1;
                      req_Version := p2; req_Headers := headers;
                      req_Body := sliceTo (Z.to_nat n) reader2;
                      req_Host := host; req_Port := port;
                      req_IsConnect := false |},
                   sliceFrom (Z.to_nat n) reader2)
             ∧ len (sliceTo (Z.to_nat n) reader2) = n)
            ∧ (len reader2 < n →
               ParseHTTPRequest url_Parse reader = Err ErrReadBody))).
Proof.
  intros Hline Hparts Hm Hh. unfold ParseHTTPRequest.
  rewrite Hline, Hparts, bool_decide_eq_false_2, Hh by done. split_and!.
  - intros req rest.
    destruct (extractHostAndPort _ _ _) as [[host port]|]; [|done].
    destruct (readBody headers reader2) as [[body reader3]|] eqn:Hb; [|done].
    intros [= <- <-]. simpl. apply readBody_Ok in Hb as [-> Hb]. done.
  - intros cl Hcl Hbad.
    destruct (extractHostAndPort _ _ _) as [[host port]|]; [|eauto].
    destruct (readBody_Err headers reader2 cl Hcl Hbad) as [e ->]. eauto.
  - intros host port ->. unfold readBody. split.
    + by intros ->.
    + intros cl n -> -> Hn.
      replace (n <? 0) with false by lia.
      replace (n >? 10 * 1024 * 1024) with false by lia.
      unfold ReadFull, len. split; intros Hlen.
      * rewrite (proj2 (Nat.leb_le _ _)) by lia. split; [done|].
        rewrite length_sliceTo by lia. lia.
      * by rewrite (proj2 (Nat.leb_gt _ _)) by lia.
Qed.

Lemma Atoi_range s v : Atoi s = Some v → - 2 ^ 63 ≤ v ≤ 2 ^ 63 - 1.
Proof.
  unfold Atoi. destruct s as [|c s]; [done|].
  destruct (if _ || _ then s else String c s); [done|].
  destruct (parseDigits _ _) as [n|]; [|done].
  destruct (_ && _) eqn:Hr; [|done]. intros [= <-]. lia.
Qed.

(** C7 (as amended).  After a successful parse the destination is the one
    the request names, as it names it: for CONNECT the target is
    [host:port], cut at its first colon; for an absolute-form target the
    host is the URL's [Hostname()] and the port the URL's port, or 443 for
    [https://] and 80 otherwise when the URL has none; else the [Host]
    header gives [host] or [host:port], cut at its first colon, with port 80
    when it has no colon.  The host keeps the case it came in, and the port
    is whatever [int] [Atoi] reads. *)
Theorem C7_resolved_destination (reader : string) (req : HTTPRequest) (rest : string) :
  ParseHTTPRequest url_Parse reader = Ok (req, rest) →
  - 2 ^ 63 ≤ req_Port req ≤ 2 ^ 63 - 1
  ∧ if req_IsConnect req then
      ∃ portStr,
        req_RequestTarget req = req_Host req +:+ ":" +:+ portStr
        ∧ hasByte ":" (req_Host req) = false
        ∧ Atoi portStr = Some (req_Port req)
    else if isAbsoluteForm (req_RequestTarget req) then
      ∃ parsedURL,
        url_Parse (req_RequestTarget req) = Some parsedURL
        ∧ req_Host req = url_Hostname parsedURL
        ∧ if bool_decide (url_Port parsedURL = "")
          then req_Port req
               = (if HasPrefix (req_RequestTarget req) "https://" then 443 else 80)
          else Atoi (url_Port parsedURL) = Some (req_Port req)
    else
      ∃ hostHeader,
        req_Headers req !! "host" = Some hostHeader
        ∧ ((hostHeader = req_Host req ∧ hasByte ":" hostHeader = false
            ∧ req_Port req = 80)
           ∨ ∃ portStr,
               hostHeader = req_Host req +:+ ":" +:+ portStr
               ∧ hasByte ":" (req_Host req) = false
               ∧ Atoi portStr = Some (req_Port req)).
Proof.
  intros HP. destruct (req_IsConnect req) eqn:Hc.
  - apply ParseHTTPRequest_connect in HP
      as (line & p0 & portStr & _ & _ & _ & _ & _ & _ & Hsplit & Hport); [|done].
    split; [by apply Atoi_range in Hport|]. exists portStr.
    destruct (SplitN_2 (req_RequestTarget req) ":") as [[_ H1] | (a & b & Ht & Ha & H2)];
      rewrite Hsplit in *; [done|].
    injection H2 as <- <-. done.
  - apply ParseHTTPRequest_plain in HP
      as (line & reader1 & p0 & reader2 & _ & _ & _ & _ & _ & Hhp & _); [|done].
    unfold extractHostAndPort in Hhp.
    destruct (isAbsoluteForm (req_RequestTarget req)).
    + destruct (url_Parse (req_RequestTarget req)) as [u|]; [|done].
      case_bool_decide as Hp.
      * destruct (HasPrefix _ "https://"); injection Hhp as <- <-;
          (split; [lia|]); exists u; by rewrite bool_decide_eq_true_2.
      * destruct (Atoi (url_Port u)) as [port|] eqn:Hport; [|done].
        injection Hhp as <- <-. split; [by apply Atoi_range in Hport|].
        exists u. by rewrite bool_decide_eq_false_2.
    + destruct (req_Headers req !! "host") as [hv|]; [|done].
      destruct (SplitN_2 hv ":") as [[Hno H1] | (a & b & Ht & Ha & H2)].
      * rewrite H1 in Hhp. injection Hhp as <- <-. split; [lia|].
        exists hv. split; [done|]. by left.
      * rewrite H2 in Hhp. destruct (Atoi b) as [port|] eqn:Hport; [|done].
        injection Hhp as <- <-. split; [by apply Atoi_range in Hport|].
        exists hv. split; [done|]. right. by exists b.
Qed.

Lemma upstreamTarget_absolute target u :
  isAbsoluteForm target = true → url_Parse target = Some u →
  upstreamTarget url_Parse target = pathWithQuery u.
Proof.
  intros Ha Hu. unfold upstreamTarget, pathWithQuery. rewrite Ha, Hu.
  destruct (bool_decide (url_RawQuery u = "")) eqn:Hq.
  - apply bool_decide_eq_true in Hq.
    rewrite bool_decide_eq_false_2 by (by intros []). by rewrite append_nil_r.
  - apply bool_decide_eq_false in Hq. by rewrite bool_decide_eq_true_2.
Qed.

Lemma readBody_again headers reader body rest :
  readBody headers reader = Ok (body, rest) →
  readBody headers body = Ok (body, "").
Proof.
  intros Hb. apply readBody_Ok in Hb as [_ Hb]. unfold readBody.
  destruct (headers !! "content-length") as [cl|]; [|by subst].
  destruct Hb as (n & -> & Hn & Hlen).
  replace (n <? 0) with false by (symmetry; apply Z.ltb_ge; lia).
  replace (n >? 10 * 1024 * 1024) with false
    by (symmetry; rewrite Z.gtb_ltb; apply Z.ltb_ge; lia).
  unfold ReadFull. unfold len in Hlen.
  replace (Z.to_nat n) with (String.length body) by lia.
  rewrite Nat.leb_refl.
  pose proof (sliceTo_app body "") as H1. pose proof (sliceFrom_app body "") as H2.
  rewrite append_nil_r in H1, H2. by rewrite H1, H2.
Qed.

Lemma extractHostAndPort_origin target headers hostHeader :
  isAbsoluteForm target = false →
  headers !! "host" = Some hostHeader → resolvableHost hostHeader →
  ∃ host port, extractHostAndPort url_Parse target headers = Ok (host, port).
Proof.
  intros Ha Hh Hr. unfold extractHostAndPort. rewrite Ha, Hh.
  destruct Hr as [Hno | (h & p & -> & Hh' & [port Hp])].
  - destruct (SplitN_2 hostHeader ":") as [[_ ->] | (a & b & -> & _ & _)]; [eauto|].
    rewrite hasByte_app in Hno. simpl in Hno. by rewrite orb_true_r in Hno.
  - change (h +:+ ":" +:+ p) with (h +:+ String ":" p).
    rewrite SplitN_2_cut, Hp by done. eauto.
Qed.

(** The request line, written and read again. *)
Lemma request_line_roundtrip target version tail :
  hasByte " " target = false → hasByte LF target = false →
  hasByte LF version = false →
  endsClean (fun c => hasByte c CRLF) (String " " version) = true →
  ∃ raw,
    ReadString LF (("GET" +:+ " " +:+ target +:+ " " +:+ version +:+ CRLF) +:+ tail)
    = Some (raw, tail)
    ∧ SplitN (TrimRight raw CRLF) " " 3 = ["GET"; target; version].
Proof.
  intros Ht1 Ht2 Hv1 Hv2.
  exists (("GET" +:+ String " " target) +:+ String " " version +:+ CRLF). split.
  - replace (("GET" +:+ " " +:+ target +:+ " " +:+ version +:+ CRLF) +:+ tail)
      with (("GET" +:+ " " +:+ target +:+ " " +:+ version +:+ String CR "")
              +:+ String LF tail)
      by (rewrite ?append_assoc; simpl; rewrite ?append_assoc; done).
    rewrite ReadString_app.
    + f_equal. f_equal. rewrite ?append_assoc. simpl. rewrite ?append_assoc. done.
    + simpl. rewrite !hasByte_app, Ht2. simpl. rewrite hasByte_app, Hv1. done.
  - rewrite <- append_assoc. rewrite TrimRight_CRLF.
    + rewrite append_assoc.
      replace (("GET" +:+ String " " target) +:+ String " " version)
        with ("GET" +:+ String " " (target +:+ String " " version))
        by (rewrite ?append_assoc; done).
      by apply SplitN_3_cut.
    + by rewrite endsClean_app.
Qed.

(** C1 (as amended).  Take an ASCII request that has parsed, with method
    GET, an absolute-form target that [url.Parse] reads as [u], and a
    [Host] header that is [host] or [host:port] with a port [Atoi] reads.
    If the path-with-query of [u] holds no space and no line feed and is
    not itself absolute-form, then the bytes [SerializeRequest] writes, in
    whatever order it visits the headers, parse again: to a request with
    the same method, the path-with-query as its target, and the same
    headers (and the same version and body), with nothing left over. *)
Theorem C1_serialize_then_parse (reader : string) (req : HTTPRequest)
    (rest : string) (u : URL) (hostHeader : string)
    (hs : list (string * string)) :
  ParseHTTPRequest url_Parse reader = Ok (req, rest) →
  req_Method req = "GET" →
  isAbsoluteForm (req_RequestTarget req) = true →
  url_Parse (req_RequestTarget req) = Some u →
  req_Headers req !! "host" = Some hostHeader →
  resolvableHost hostHeader →
  hasByte " " (pathWithQuery u) = false →
  hasByte LF (pathWithQuery u) = false →
  isAbsoluteForm (pathWithQuery u) = false →
  map_Forall (fun k v => allBytes isASCII k = true ∧ allBytes isASCII v = true)
             (req_Headers req) →
  hs ≡ₚ map_to_list (req_Headers req) →
  ∃ req',
    ParseHTTPRequest url_Parse (SerializeRequest url_Parse hs req) = Ok (req', "")
    ∧ req_Method req' = req_Method req
    ∧ req_RequestTarget req' = pathWithQuery u
    ∧ req_Headers req' = req_Headers req
    ∧ req_Version req' = req_Version req
    ∧ req_Body req' = req_Body req.
Proof.
  intros HP Hget Habs Hu Hhost Hres Hsp Hlf Horigin _ Hperm.
  assert (Hplain : req_IsConnect req = false).
  { rewrite (ParseHTTPRequest_IsConnect _ _ _ HP), Hget. done. }
  destruct (ParseHTTPRequest_plain _ _ _ HP Hplain)
    as (raw & reader1 & p0 & reader2 & Hraw & Hparts & _ & _ & Hheaders & _ & Hbody).
  (* the version, as the first parse left it *)
  apply ReadString_Some in Hraw as (_ & _ & l & -> & Hl).
  rewrite TrimRight_line in Hparts.
  assert (Hline : hasByte LF (TrimRightFunc (fun c => hasByte c CRLF) l) = false)
    by by apply hasByte_TrimRightFunc.
  pose proof (endsClean_TrimRightFunc (fun c => hasByte c CRLF) l) as Hends.
  apply SplitN_3_inv in Hparts as (Hsplit & _ & _).
  rewrite Hsplit in Hline, Hends.
  assert (Hv1 : hasByte LF (req_Version req) = false).
  { rewrite hasByte_app in Hline. apply orb_false_iff in Hline as [_ Hline].
    simpl in Hline. change (Ascii.eqb " " LF) with false in Hline.
    rewrite hasByte_app in Hline. apply orb_false_iff in Hline as [_ Hline].
    simpl in Hline. done. }
  assert (Hv2 : endsClean (fun c => hasByte c CRLF) (String " " (req_Version req)) = true).
  { replace (p0 +:+ String " " (req_RequestTarget req +:+ String " " (req_Version req)))
      with ((p0 +:+ String " " (req_RequestTarget req)) +:+ String " " (req_Version req))
      in Hends by (rewrite ?append_assoc; done).
    by rewrite endsClean_app in Hends. }
  (* the headers, as the first parse left them *)
  assert (Hclean : Forall cleanHeader hs).
  { unfold readHeaders in Hheaders.
    apply readHeaderLines_clean in Hheaders; [|apply map_Forall_empty].
    apply map_Forall_to_list in Hheaders. rewrite Hperm.
    eapply Forall_impl; [exact Hheaders|]. by intros [k v]. }
  (* the second parse *)
  unfold SerializeRequest. fold (headerBlock hs).
  rewrite (upstreamTarget_absolute _ _ Habs Hu), Hget.
  destruct (request_line_roundtrip (pathWithQuery u) (req_Version req)
              (headerBlock hs +:+ CRLF +:+ req_Body req) Hsp Hlf Hv1 Hv2)
    as (raw & Hread & Hparts).
  destruct (extractHostAndPort_origin (pathWithQuery u) (req_Headers req) hostHeader
              Horigin Hhost Hres) as (host & port & Hhp).
  unfold ParseHTTPRequest. rewrite Hread, Hparts.
  change (bool_decide (ToUpper "GET" = "CONNECT")) with false. cbn iota.
  unfold readHeaders. rewrite readHeaderLines_serialized; [|done|]; cycle 1.
  { pose proof (length_headerBlock hs). rewrite length_append. simpl. lia. }
  rewrite (insertAll_visits _ _ Hperm), Hhp, (readBody_again _ _ _ _ Hbody).
  eexists. split; [reflexivity|]. done.
Qed.

End ParserProperties.

(** C6, three instances: three bytes announced and six sent, no length
    announced, a negative length announced. *)
Lemma C6_content_length_decides_body_witness :
  (ParseHTTPRequest url_Parse_ref postStream
   = Ok ({| req_Method := ToUpper "POST"; req_RequestTarget := "/x";
            req_Version := "HTTP/1.1"; req_Headers := postHeaders;
            req_Body := sliceTo (Z.to_nat 3) "abcdef";
            req_Host := "h"; req_Port := 80; req_IsConnect := false |},
         sliceFrom (Z.to_nat 3) "abcdef")
   ∧ len (sliceTo (Z.to_nat 3) "abcdef") = 3)
  ∧ ParseHTTPRequest url_Parse_ref
      ("POST /x HTTP/1.1" +:+ CRLF +:+ "Host: h" +:+ CRLF +:+ CRLF +:+ "abcdef")
    = Ok ({| req_Method := ToUpper "POST"; req_RequestTarget := "/x";
             req_Version := "HTTP/1.1"; req_Headers := {[ "host" := "h" ]};
             req_Body := ""; req_Host := "h"; req_Port := 80;
             req_IsConnect := false |}, "abcdef")
  ∧ ∃ e, ParseHTTPRequest url_Parse_ref
           ("POST /x HTTP/1.1" +:+ CRLF +:+ "Host: h" +:+ CRLF
              +:+ "Content-Length: -1" +:+ CRLF +:+ CRLF +:+ "abcdef")
         = Err e.
Proof.
  split; [|split].
  - refine (proj1 (proj2 (proj2 (proj2
      (C6_content_length_decides_body url_Parse_ref postStream
         ("POST /x HTTP/1.1" +:+ CRLF)
         ("Host: h" +:+ CRLF +:+ "Content-Length: 3" +:+ CRLF +:+ CRLF +:+ "abcdef")
         "POST" "/x" "HTTP/1.1" postHeaders "abcdef" _ _ _ _)) "h" 80 _)
      "3" 3 _ _ _) _);
      first [reflexivity | (vm_compute; discriminate) | lia | (unfold len; simpl; lia)].
  - refine (proj1 (proj2 (proj2
      (C6_content_length_decides_body url_Parse_ref
         ("POST /x HTTP/1.1" +:+ CRLF +:+ "Host: h" +:+ CRLF +:+ CRLF +:+ "abcdef")
         ("POST /x HTTP/1.1" +:+ CRLF)
         ("Host: h" +:+ CRLF +:+ CRLF +:+ "abcdef")
         "POST" "/x" "HTTP/1.1" {[ "host" := "h" ]} "abcdef" _ _ _ _)) "h" 80 _) _);
      first [reflexivity | (vm_compute; discriminate)].
  - refine (proj1 (proj2
      (C6_content_length_decides_body url_Parse_ref
         ("POST /x HTTP/1.1" +:+ CRLF +:+ "Host: h" +:+ CRLF
            +:+ "Content-Length: -1" +:+ CRLF +:+ CRLF +:+ "abcdef")
         ("POST /x HTTP/1.1" +:+ CRLF)
         ("Host: h" +:+ CRLF +:+ "Content-Length: -1" +:+ CRLF +:+ CRLF +:+ "abcdef")
         "POST" "/x" "HTTP/1.1" {[ "host" := "h"; "content-length" := "-1" ]}
         "abcdef" _ _ _ _)) "-1" _ _);
      first [reflexivity | (vm_compute; discriminate)
            | (right; exists (-1); split; [reflexivity | lia])].
Defined.

(** C7, an instance: a CONNECT request. *)
Lemma C7_resolved_destination_witness :
  - 2 ^ 63 ≤ req_Port connectRequest ≤ 2 ^ 63 - 1
  ∧ ∃ portStr,
      req_RequestTarget connectRequest = req_Host connectRequest +:+ ":" +:+ portStr
      ∧ hasByte ":" (req_Host connectRequest) = false
      ∧ Atoi portStr = Some (req_Port connectRequest).
Proof.
  apply (C7_resolved_destination url_Parse_ref connectStream connectRequest "").
  reflexivity.
Defined.

(** C7 as stated fails, from each of the three sources of the
    destination: the host keeps its capital letters, and the port is
    outside 1-65535. *)
Lemma C7_counterexample_host_case_and_port :
  (∃ req rest,
     ParseHTTPRequest url_Parse_ref connectStream = Ok (req, rest)
     ∧ req_Host req = "Example.COM" ∧ ToLower (req_Host req) ≠ req_Host req
     ∧ req_Port req = 0 ∧ ¬ (1 ≤ req_Port req ≤ 65535))
  ∧ (∃ req rest,
       ParseHTTPRequest url_Parse_ref hostHeaderStream = Ok (req, rest)
       ∧ req_Host req = "EXAMPLE.test" ∧ ToLower (req_Host req) ≠ req_Host req
       ∧ req_Port req = 99999 ∧ ¬ (1 ≤ req_Port req ≤ 65535))
  ∧ (∃ req rest,
       ParseHTTPRequest url_Parse_ref absoluteStream = Ok (req, rest)
       ∧ req_Host req = "EXAMPLE.test" ∧ ToLower (req_Host req) ≠ req_Host req
       ∧ req_Port req = 0 ∧ ¬ (1 ≤ req_Port req ≤ 65535)).
Proof.
  split_and!; eexists _, _; (split; [vm_compute; reflexivity|]); simpl;
    (split_and!; [reflexivity | vm_compute; discriminate | reflexivity | lia]).
Qed.

(** ** Connections that take every byte *)

Lemma wrote_refl conn : c_room conn = None → wrote conn "" conn.
Proof. intros H. split; [by rewrite append_nil_r | done]. Qed.

Lemma wrote_trans c1 x c2 y c3 :
  wrote c1 x c2 → wrote c2 y c3 → wrote c1 (x +:+ y) c3.
Proof.
  intros [H1 _] [H2 H3]. split; [|done]. by rewrite H2, H1, append_assoc.
Qed.

Lemma Write_reliable conn p :
  c_room conn = None →
  ∃ conn', Write conn p = (len p, false, conn') ∧ wrote conn p conn'.
Proof. intros H. unfold Write. rewrite H. eexists. split; [done|]. done. Qed.

Lemma writeAll_reliable conn data :
  c_room conn = None →
  ∃ conn', writeAll conn data = (len data, false, conn') ∧ wrote conn data conn'.
Proof.
  intros H. unfold writeAll. destruct (0 <? len data) eqn:Hl.
  - destruct (Write_reliable conn data H) as (conn' & -> & Hw). eauto.
  - exists conn. assert (data = "") as ->.
    { destruct data; [done|]. unfold len in Hl. cbn [String.length] in Hl.
      apply Z.ltb_ge in Hl. lia. }
    split; [done | by apply wrote_refl].
Qed.

Lemma Write_c_in conn p : c_in (Write conn p).2 = c_in conn.
Proof. unfold Write. destruct (c_room conn); [case_match|]; done. Qed.

Lemma writeAll_c_in conn data n err conn' :
  writeAll conn data = (n, err, conn') → c_in conn' = c_in conn.
Proof.
  unfold writeAll. destruct (0 <? len data); [|by intros [= _ _ <-]].
  pose proof (Write_c_in conn data) as Hc.
  destruct (Write conn data) as [[m e] conn1]. simpl in Hc.
  destruct e; by intros [= _ _ <-].
Qed.

Lemma sendErrorResponse_reliable conn statusCode message :
  c_room conn = None →
  wrote conn (errorResponse statusCode message)
        (sendErrorResponse conn statusCode message).
Proof.
  intros H. unfold sendErrorResponse.
  destruct (Write_reliable conn (errorResponse statusCode message) H)
    as (conn' & -> & Hw). done.
Qed.

(** The relay loops pass on a prefix of what the upstream sends. *)
Lemma forwardHeaderLines_relays fuel reader conn n n' err conn' reader' :
  c_room conn = None →
  forwardHeaderLines fuel reader conn n = (n', err, conn', reader') →
  ∃ x, wrote conn x conn' ∧ reader = x +:+ reader'.
Proof.
  revert reader conn n. induction fuel as [|fuel IH]; intros reader conn n Hroom;
    cbn [forwardHeaderLines].
  - intros [= _ _ <- <-]. exists "". split; [by apply wrote_refl | done].
  - destruct (ReadString LF reader) as [[line reader1]|] eqn:Hr.
    + apply ReadString_Some in Hr as (-> & _ & _).
      destruct (writeAll_reliable conn line Hroom) as (conn1 & -> & Hw).
      cbn iota beta.
      destruct (_ || _).
      * intros [= _ _ <- <-]. eauto.
      * intros (y & Hy & ->)%IH; [|apply Hw]. exists (line +:+ y).
        split; [by eapply wrote_trans | by rewrite append_assoc].
    + intros [= _ _ <- <-]. exists "". split; [by apply wrote_refl | done].
Qed.

Lemma streamBodyLoop_relays fuel reader e conn total total' err conn' :
  c_room conn = None →
  streamBodyLoop fuel reader e conn total = (total', err, conn') →
  ∃ x tail, wrote conn x conn' ∧ reader = x +:+ tail.
Proof.
  revert reader conn total. induction fuel as [|fuel IH];
    intros reader conn total Hroom; cbn [streamBodyLoop].
  - intros [= _ _ <-]. exists "", reader. split; [by apply wrote_refl | done].
  - generalize (Nat.min readBufferSize (String.length reader)). intros k.
    destruct (0 <? k)%nat.
    + destruct (writeAll_reliable conn (sliceTo k reader) Hroom)
        as (conn1 & -> & Hw).
      cbn iota beta.
      intros (y & tail & Hy & Htail)%IH; [|apply Hw].
      exists (sliceTo k reader +:+ y), tail.
      split; [by eapply wrote_trans|].
      by rewrite append_assoc, <- Htail, sliceTo_sliceFrom.
    + destruct e; intros [= _ _ <-]; exists "", reader;
        (split; [by apply wrote_refl | done]).
Qed.

Lemma streamBody_relays reader e conn total err conn' :
  c_room conn = None →
  streamBody reader e conn = (total, err, conn') →
  ∃ x tail, wrote conn x conn' ∧ reader = x +:+ tail.
Proof. unfold streamBody. apply streamBodyLoop_relays. Qed.

Lemma forwardResponse_relays upstreamConn conn statusCode n err conn' :
  c_room conn = None →
  forwardResponse upstreamConn conn = (statusCode, n, err, conn') →
  ∃ x tail, wrote conn x conn' ∧ c_in upstreamConn = x +:+ tail.
Proof.
  intros Hroom. unfold forwardResponse.
  destruct (ReadString LF (c_in upstreamConn)) as [[statusLine reader]|] eqn:Hr.
  - apply ReadString_Some in Hr as (-> & _ & _).
    destruct (writeAll_reliable conn statusLine Hroom) as (conn1 & -> & Hw1).
    cbn iota beta.
    destruct (forwardHeaderLines _ _ _ _) as [[[n2 err2] conn2] reader2] eqn:Hh.
    apply forwardHeaderLines_relays in Hh as (x2 & Hw2 & ->); [|apply Hw1].
    destruct err2.
    + intros [= _ _ _ <-]. exists (statusLine +:+ x2), reader2.
      split; [by eapply wrote_trans | by rewrite append_assoc].
    + destruct (streamBody _ _ _) as [[n3 err3] conn3] eqn:Hs.
      apply streamBody_relays in Hs as (x3 & tail & Hw3 & ->); [|apply Hw2].
      intros [= _ _ _ <-]. exists (statusLine +:+ x2 +:+ x3), tail.
      split; [|by rewrite !append_assoc].
      eapply wrote_trans; [done|]. by eapply wrote_trans.
  - intros [= _ _ _ <-]. exists "", (c_in upstreamConn).
    split; [by apply wrote_refl | done].
Qed.

(** ** Server *)

Lemma errorResponse_format statusCode reason :
  isErrorResponse statusCode reason (errorResponse statusCode reason).
Proof.
  eexists. split; [reflexivity|]. unfold errorResponse.
  cbn zeta. rewrite !append_assoc. reflexivity.
Qed.

Lemma sliceTo_all n s : (String.length s ≤ n)%nat → sliceTo n s = s.
Proof.
  revert n. induction s as [|c s IH]; intros [|n] Hn; simpl in *; try done; [lia|].
  rewrite IH; [done | lia].
Qed.

(** The bytes of one [Write], and of [sendErrorResponse]. *)
Lemma Write_sent conn p : c_out (Write conn p).2 = c_out conn +:+ sent conn p.
Proof.
  unfold Write, sent. destruct (c_room conn) as [room|]; [|done].
  destruct (_ <=? _)%nat eqn:Hl; simpl; [|done].
  apply Nat.leb_le in Hl. by rewrite sliceTo_all.
Qed.

Lemma sendErrorResponse_sent conn statusCode message :
  c_out (sendErrorResponse conn statusCode message)
  = c_out conn +:+ sent conn (errorResponse statusCode message).
Proof. apply Write_sent. Qed.

Lemma surjective_pairing_3 {A B C} (r : A * B * C) : r = (r.1.1, r.1.2, r.2).
Proof. by destruct r as [[? ?] ?]. Defined.

Section ServerProperties.

Variable url_Parse : string → option URL.

(** [ForwardRequest] leaves with the client a prefix of what the upstream
    it dialled has sent, and nothing when it could not dial. *)
Lemma ForwardRequest_relays w req conn statusCode up down err conn' :
  c_room conn = None →
  ForwardRequest url_Parse w req conn = (statusCode, up, down, err, conn') →
  ∃ x, wrote conn x conn'
       ∧ match dial w (JoinHostPort (req_Host req) (Itoa (req_Port req))) with
         | Some upstreamConn => ∃ tail, c_in upstreamConn = x +:+ tail
         | None => x = ""
         end.
Proof.
  intros Hroom. unfold ForwardRequest.
  destruct (dial w _) as [upstreamConn|].
  - destruct (writeAll upstreamConn _) as [[n e] upstreamConn'] eqn:Hsend.
    apply writeAll_c_in in Hsend.
    destruct e.
    + intros [= _ _ _ _ <-]. exists "". split; [by apply wrote_refl|].
      by exists (c_in upstreamConn).
    + destruct (forwardResponse _ _) as [[[st n2] e2] conn2] eqn:Hf.
      apply forwardResponse_relays in Hf as (x & tail & Hw & Hin); [|done].
      rewrite Hsend in Hin.
      destruct e2; intros [= _ _ _ _ <-]; exists x; eauto.
  - intros [= _ _ _ _ <-]. exists "". split; [by apply wrote_refl | done].
Qed.

(** C10.  With a non-empty [authentication_token], a CONNECT request that
    parses is answered 407 and logged [AUTH_FAILED], whatever follows its
    request line: the parser has returned before reading any header, so the
    headers are empty and the lookup of [proxy-authorization] reads [""].
    The client is sent the 407 response, status line, three headers, blank
    line and body, as far as it takes the bytes, and nothing else. *)
Theorem C10_connect_with_token_is_407 (s : Server) (w : World) (clientIP : string)
    (clientPort : Z) (conn : Conn) (req : HTTPRequest) (rest : string) :
  ParseHTTPRequest url_Parse (c_in conn) = Ok (req, rest) →
  req_Method req = "CONNECT" →
  AuthToken (config s) ≠ "" →
  req_Headers req = ∅
  ∧ handleConnection url_Parse s w clientIP clientPort conn
    = (sendErrorResponse conn 407 "Proxy Authentication Required", cache s,
       logRequest w clientIP clientPort (req_Host req) (req_Port req) "CONNECT"
         (req_RequestTarget req) "AUTH_FAILED" 407 0 0 "")
  ∧ c_out (handleConnection url_Parse s w clientIP clientPort conn).1.1
    = c_out conn
      +:+ sent conn
            ("HTTP/1.1 407 Proxy Authentication Required" +:+ CRLF
             +:+ "Content-Type: text/plain" +:+ CRLF
             +:+ "Content-Length: 33" +:+ CRLF
             +:+ "Connection: close" +:+ CRLF
             +:+ CRLF
             +:+ "407 Proxy Authentication Required")
  ∧ le_Action (handleConnection url_Parse s w clientIP clientPort conn).2
    = "AUTH_FAILED"
  ∧ le_UpstreamStatus (handleConnection url_Parse s w clientIP clientPort conn).2
    = 407.
Proof.
  intros HP Hm Htok.
  assert (Hc : req_IsConnect req = true).
  { rewrite (ParseHTTPRequest_IsConnect _ _ _ _ HP). by apply bool_decide_eq_true_2. }
  destruct (ParseHTTPRequest_connect _ _ _ _ HP Hc)
    as (_ & _ & _ & _ & _ & _ & _ & Hh & _).
  assert (H : handleConnection url_Parse s w clientIP clientPort conn
    = (sendErrorResponse conn 407 "Proxy Authentication Required", cache s,
       logRequest w clientIP clientPort (req_Host req) (req_Port req) "CONNECT"
         (req_RequestTarget req) "AUTH_FAILED" 407 0 0 "")).
  { unfold handleConnection. rewrite HP, Hh, lookup_empty. simpl.
    rewrite !bool_decide_eq_true_2 by done. simpl. by rewrite Hm. }
  rewrite H. split_and!; [done | done | | done | done].
  cbn [fst]. apply sendErrorResponse_sent.
Qed.

(** C9 (as amended).  For a request that is forwarded (parsed, authorised,
    not CONNECT, not blocked, not served from the cache) by a client that
    takes every byte: when [ForwardRequest] returns an error, the proxy
    logs [ERROR] with status 502 and writes the 502 response after
    whatever bytes of the upstream response it has relayed already, a
    prefix of what the upstream has sent; when none were relayed the client
    receives the 502 response alone. *)
Theorem C9_upstream_error_is_502 (s : Server) (w : World) (clientIP : string)
    (clientPort : Z) (conn : Conn) (req : HTTPRequest) (rest : string)
    (statusCode up down : Z) (err : string) (conn1 : Conn) :
  ParseHTTPRequest url_Parse (c_in conn) = Ok (req, rest) →
  (AuthToken (config s) = ""
   ∨ default "" (req_Headers req !! "proxy-authorization") = AuthToken (config s)) →
  req_IsConnect req = false →
  (IsBlocked (rangeRules w (blockedDomains (filter s))) (filter s) (req_Host req)).1
    = false →
  (∀ c, cache s = Some c →
        MakeCacheKey (req_Method req) (req_RequestTarget req) ≠ "" →
        entries c !! MakeCacheKey (req_Method req) (req_RequestTarget req) = None) →
  c_room conn = None →
  ForwardRequest url_Parse w req conn = (statusCode, up, down, Some err, conn1) →
  ∃ conn' cache' relayed,
    handleConnection url_Parse s w clientIP clientPort conn
    = (conn', cache',
       logRequest w clientIP clientPort (req_Host req) (req_Port req)
         (req_Method req) (req_RequestTarget req) "ERROR" 502 up down err)
    ∧ c_out conn1 = c_out conn +:+ relayed
    ∧ c_out conn' = c_out conn +:+ relayed +:+ errorResponse 502 "Bad Gateway"
    ∧ match dial w (JoinHostPort (req_Host req) (Itoa (req_Port req))) with
      | Some upstreamConn => ∃ tail, c_in upstreamConn = relayed +:+ tail
      | None => relayed = ""
      end.
Proof.
  intros HP Hauth Hplain Hblk Hmiss Hroom Hfwd.
  destruct (ForwardRequest_relays _ _ _ _ _ _ _ _ Hroom Hfwd) as (relayed & Hw & Hpre).
  pose proof (sendErrorResponse_reliable conn1 502 "Bad Gateway" (proj2 Hw)) as Hw'.
  pose proof (wrote_trans _ _ _ _ _ Hw Hw') as [Hout _].
  unfold handleConnection. rewrite HP, Hplain.
  replace (bool_decide (AuthToken (config s) ≠ "") && _) with false; cycle 1.
  { symmetry. apply andb_false_iff. destruct Hauth as [Ha|Ha].
    - left. by apply bool_decide_eq_false_2; intros [].
    - right. by apply bool_decide_eq_false_2; intros []. }
  destruct (IsBlocked _ _ _) as [blocked rule]. simpl in Hblk. subst blocked.
  rewrite Hfwd.
  exists (sendErrorResponse conn1 502 "Bad Gateway").
  destruct (cache s) as [c|] eqn:Hcache.
  - case_bool_decide as Hkey.
    + unfold Get. rewrite (Hmiss c eq_refl Hkey).
      exists (Some c), relayed. split_and!; [done | apply Hw | done | done].
    + exists (Some c), relayed. split_and!; [done | apply Hw | done | done].
  - exists None, relayed. split_and!; [done | apply Hw | done | done].
Qed.

(** The error responses, by the entry that is logged.  To a client that
    takes every byte, whenever the entry logged is [ERROR] with 400,
    [AUTH_FAILED], [BLOCKED] with 501 or with 403, what was written to the
    client is one error response in the format of the spec; when it is
    [ERROR] with 502 (a forwarded request that failed), the bytes relayed
    so far are followed by such a response; and when a CONNECT request
    fails at the dial, what was written is the bare status line
    [HTTP/1.1 502 Bad Gateway] and a blank line. *)
Lemma error_responses_by_entry (s : Server) (w : World) (clientIP : string)
    (clientPort : Z) (conn conn' : Conn) (cache' : option Cache) (log : LogEntry) :
  c_room conn = None →
  handleConnection url_Parse s w clientIP clientPort conn = (conn', cache', log) →
  (le_Action log = "ERROR" → le_UpstreamStatus log = 400 →
   ∃ resp, wrote conn resp conn' ∧ isErrorResponse 400 "Bad Request" resp)
  ∧ (le_Action log = "AUTH_FAILED" →
     ∃ resp, wrote conn resp conn'
             ∧ isErrorResponse 407 "Proxy Authentication Required" resp)
  ∧ (le_Action log = "BLOCKED" → le_UpstreamStatus log = 501 →
     ∃ resp, wrote conn resp conn' ∧ isErrorResponse 501 "Not Implemented" resp)
  ∧ (le_Action log = "BLOCKED" → le_UpstreamStatus log = 403 →
     ∃ resp, wrote conn resp conn' ∧ isErrorResponse 403 "Forbidden" resp)
  ∧ (le_Action log = "ERROR" → le_UpstreamStatus log = 502 →
     ∃ relayed resp, wrote conn (relayed +:+ resp) conn'
                     ∧ isErrorResponse 502 "Bad Gateway" resp)
  ∧ (∀ req rest,
       ParseHTTPRequest url_Parse (c_in conn) = Ok (req, rest) →
       req_IsConnect req = true → le_Action log = "ERROR" →
       dial w (JoinHostPort (req_Host req) (Itoa (req_Port req))) = None →
       wrote conn ("HTTP/1.1 502 Bad Gateway" +:+ CRLF +:+ CRLF) conn').
Proof.
  intros Hroom H.
  assert (Hsend : ∀ code reason,
    ∃ resp, wrote conn resp (sendErrorResponse conn code reason)
            ∧ isErrorResponse code reason resp).
  { intros code reason. exists (errorResponse code reason).
    split; [by apply sendErrorResponse_reliable | apply errorResponse_format]. }
  unfold handleConnection in H.
  destruct (ParseHTTPRequest url_Parse (c_in conn)) as [[req rest]|e] eqn:HP.
  2:{ injection H as <- <- <-. by leaf. }
  destruct (_ && _).
  { injection H as <- <- <-. by leaf. }
  destruct (req_IsConnect req) eqn:Hc.
  - destruct (negb _).
    { injection H as <- <- <-. by leaf. }
    destruct (IsBlocked _ _ _) as [[] rule].
    { injection H as <- <- <-. by leaf. }
    unfold HandleCONNECT in H.
    destruct (dial w _) as [upstreamConn|] eqn:Hdial.
    + destruct (Write conn _) as [[n e] conn1]. destruct e.
      * injection H as <- <- <-. by leaf.
      * destruct (tunnelErr w); injection H as <- <- <-; by leaf.
    + destruct (Write_reliable conn ("HTTP/1.1 502 Bad Gateway" +:+ CRLF +:+ CRLF) Hroom)
        as (conn1 & HW & Hw).
      rewrite HW in H. injection H as <- <- <-. by leaf.
  - destruct (IsBlocked _ _ _) as [[] rule].
    { injection H as <- <- <-. by leaf. }
    assert (Hfwd : ∀ c,
      match ForwardRequest url_Parse w req conn with
      | (statusCode, bytesUpstream, bytesDownstream, Some err, conn0) =>
          (sendErrorResponse conn0 502 "Bad Gateway", c,
           logRequest w clientIP clientPort (req_Host req) (req_Port req)
             (req_Method req) (req_RequestTarget req) "ERROR" 502
             bytesUpstream bytesDownstream err)
      | (statusCode, bytesUpstream, bytesDownstream, None, conn0) =>
          (conn0, c,
           logRequest w clientIP clientPort (req_Host req) (req_Port req)
             (req_Method req) (req_RequestTarget req) "ALLOWED" statusCode
             bytesUpstream bytesDownstream "")
      end = (conn', cache', log) →
      (le_Action log = "ERROR" → le_UpstreamStatus log = 400 →
       ∃ resp, wrote conn resp conn' ∧ isErrorResponse 400 "Bad Request" resp)
      ∧ (le_Action log = "AUTH_FAILED" →
         ∃ resp, wrote conn resp conn'
                 ∧ isErrorResponse 407 "Proxy Authentication Required" resp)
      ∧ (le_Action log = "BLOCKED" → le_UpstreamStatus log = 501 →
         ∃ resp, wrote conn resp conn' ∧ isErrorResponse 501 "Not Implemented" resp)
      ∧ (le_Action log = "BLOCKED" → le_UpstreamStatus log = 403 →
         ∃ resp, wrote conn resp conn' ∧ isErrorResponse 403 "Forbidden" resp)
      ∧ (le_Action log = "ERROR" → le_UpstreamStatus log = 502 →
         ∃ relayed resp, wrote conn (relayed +:+ resp) conn'
                         ∧ isErrorResponse 502 "Bad Gateway" resp)
      ∧ (∀ req0 rest0,
           Ok (req, rest) = Ok (req0, rest0) →
           req_IsConnect req0 = true → le_Action log = "ERROR" →
           dial w (JoinHostPort (req_Host req0) (Itoa (req_Port req0))) = None →
           wrote conn ("HTTP/1.1 502 Bad Gateway" +:+ CRLF +:+ CRLF) conn')).
    { clear H. intros c.
      destruct (ForwardRequest url_Parse w req conn)
        as [[[[st up] down] [err|]] conn0] eqn:Hf.
      - intros [= <- <- <-].
        destruct (ForwardRequest_relays _ _ _ _ _ _ _ _ Hroom Hf) as (relayed & Hw & _).
        leaf.
        intros _ _. exists relayed, (errorResponse 502 "Bad Gateway").
        split; [|apply errorResponse_format].
        eapply wrote_trans; [done|].
        apply sendErrorResponse_reliable, Hw.
      - intros [= <- <- <-]. by leaf. }
    destruct (cache s) as [c|]; [|exact (Hfwd _ H)].
    case_bool_decide; [|exact (Hfwd _ H)].
    destruct (Get _ _ _) as [[entry|] c']; [|exact (Hfwd _ H)].
    injection H as <- <- <-. by leaf.
Qed.

(** C8 (as amended).  To a client that takes every byte, what
    [handleConnection] writes on each of its error paths is: for a request
    that does not parse, one error response 400 in the format of the spec;
    for a request without the token, 407; for CONNECT with tunnelling off,
    501; for a blocked host, 403; for a forwarded request that failed, the
    bytes relayed so far followed by one error response 502; and for a
    CONNECT request whose upstream cannot be reached, the bare status line
    [HTTP/1.1 502 Bad Gateway] and a blank line.  The entry logged has the
    action and the status of the path; and, the other way round, whenever
    the entry logged is [ERROR] with 400 or 502, [AUTH_FAILED], or
    [BLOCKED] with 501 or 403, what was written is as said. *)
Theorem C8_error_responses (s : Server) (w : World) (clientIP : string)
    (clientPort : Z) (conn conn' : Conn) (cache' : option Cache) (log : LogEntry) :
  c_room conn = None →
  handleConnection url_Parse s w clientIP clientPort conn = (conn', cache', log) →
  (∀ e, ParseHTTPRequest url_Parse (c_in conn) = Err e →
        le_Action log = "ERROR" ∧ le_UpstreamStatus log = 400
        ∧ ∃ resp, wrote conn resp conn' ∧ isErrorResponse 400 "Bad Request" resp)
  ∧ (∀ req rest,
       ParseHTTPRequest url_Parse (c_in conn) = Ok (req, rest) →
       (AuthToken (config s) ≠ "" →
        default "" (req_Headers req !! "proxy-authorization") ≠ AuthToken (config s) →
        le_Action log = "AUTH_FAILED" ∧ le_UpstreamStatus log = 407
        ∧ ∃ resp, wrote conn resp conn'
                  ∧ isErrorResponse 407 "Proxy Authentication Required" resp)
       ∧ (AuthToken (config s) = ""
          ∨ default "" (req_Headers req !! "proxy-authorization")
            = AuthToken (config s) →
          (req_IsConnect req = true → EnableConnectTunnel (config s) = false →
           le_Action log = "BLOCKED" ∧ le_UpstreamStatus log = 501
           ∧ ∃ resp, wrote conn resp conn'
                     ∧ isErrorResponse 501 "Not Implemented" resp)
          ∧ ((req_IsConnect req = true → EnableConnectTunnel (config s) = true) →
             (IsBlocked (rangeRules w (blockedDomains (filter s))) (filter s)
                (req_Host req)).1 = true →
             le_Action log = "BLOCKED" ∧ le_UpstreamStatus log = 403
             ∧ ∃ resp, wrote conn resp conn' ∧ isErrorResponse 403 "Forbidden" resp)
          ∧ (req_IsConnect req = false →
             (IsBlocked (rangeRules w (blockedDomains (filter s))) (filter s)
                (req_Host req)).1 = false →
             (∀ c, cache s = Some c →
                   MakeCacheKey (req_Method req) (req_RequestTarget req) ≠ "" →
                   entries c !! MakeCacheKey (req_Method req) (req_RequestTarget req)
                   = None) →
             ∀ statusCode up down err conn1,
               ForwardRequest url_Parse w req conn
               = (statusCode, up, down, Some err, conn1) →
               le_Action log = "ERROR" ∧ le_UpstreamStatus log = 502
               ∧ ∃ relayed resp,
                   wrote conn relayed conn1
                   ∧ wrote conn (relayed +:+ resp) conn'
                   ∧ isErrorResponse 502 "Bad Gateway" resp)
          ∧ (req_IsConnect req = true → EnableConnectTunnel (config s) = true →
             (IsBlocked (rangeRules w (blockedDomains (filter s))) (filter s)
                (req_Host req)).1 = false →
             dial w (JoinHostPort (req_Host req) (Itoa (req_Port req))) = None →
             le_Action log = "ERROR"
             ∧ wrote conn ("HTTP/1.1 502 Bad Gateway" +:+ CRLF +:+ CRLF) conn')))
  ∧ (le_Action log = "ERROR" → le_UpstreamStatus log = 400 →
     ∃ resp, wrote conn resp conn' ∧ isErrorResponse 400 "Bad Request" resp)
  ∧ (le_Action log = "AUTH_FAILED" →
     ∃ resp, wrote conn resp conn'
             ∧ isErrorResponse 407 "Proxy Authentication Required" resp)
  ∧ (le_Action log = "BLOCKED" → le_UpstreamStatus log = 501 →
     ∃ resp, wrote conn resp conn' ∧ isErrorResponse 501 "Not Implemented" resp)
  ∧ (le_Action log = "BLOCKED" → le_UpstreamStatus log = 403 →
     ∃ resp, wrote conn resp conn' ∧ isErrorResponse 403 "Forbidden" resp)
  ∧ (le_Action log = "ERROR" → le_UpstreamStatus log = 502 →
     ∃ relayed resp, wrote conn (relayed +:+ resp) conn'
                     ∧ isErrorResponse 502 "Bad Gateway" resp)
  ∧ (∀ req rest,
       ParseHTTPRequest url_Parse (c_in conn) = Ok (req, rest) →
       req_IsConnect req = true → le_Action log = "ERROR" →
       dial w (JoinHostPort (req_Host req) (Itoa (req_Port req))) = None →
       wrote conn ("HTTP/1.1 502 Bad Gateway" +:+ CRLF +:+ CRLF) conn').
Proof.
  intros Hroom H.
  assert (Hsend : ∀ code reason,
    ∃ resp, wrote conn resp (sendErrorResponse conn code reason)
            ∧ isErrorResponse code reason resp).
  { intros code reason. exists (errorResponse code reason).
    split; [by apply sendErrorResponse_reliable | apply errorResponse_format]. }
  split; [|split; [|by eapply error_responses_by_entry]].
  - intros e HP. unfold handleConnection in H. rewrite HP in H.
    injection H as <- <- <-. split_and!; [done | done | apply Hsend].
  - intros req rest HP. unfold handleConnection in H. rewrite HP in H. split.
    + intros Htok Hhdr. rewrite !bool_decide_eq_true_2 in H by done. simpl in H.
      injection H as <- <- <-. split_and!; [done | done | apply Hsend].
    + intros Hauth.
      replace (bool_decide (AuthToken (config s) ≠ "") && _) with false in H; cycle 1.
      { symmetry. apply andb_false_iff. destruct Hauth as [Ha|Ha].
        - left. by apply bool_decide_eq_false_2; intros [].
        - right. by apply bool_decide_eq_false_2; intros []. }
      split_and!.
      * intros Hc Hoff. rewrite Hc, Hoff in H. simpl in H.
        injection H as <- <- <-. split_and!; [done | done | apply Hsend].
      * intros Hon Hblk.
        destruct (IsBlocked _ _ _) as [blocked rule]. simpl in Hblk. subst blocked.
        destruct (req_IsConnect req).
        -- rewrite Hon in H by done. simpl in H.
           injection H as <- <- <-. split_and!; [done | done | apply Hsend].
        -- injection H as <- <- <-. split_and!; [done | done | apply Hsend].
      * intros Hc Hblk Hmiss statusCode up down err conn1 Hf.
        rewrite Hc in H.
        destruct (IsBlocked _ _ _) as [blocked rule]. simpl in Hblk. subst blocked.
        rewrite Hf in H.
        destruct (ForwardRequest_relays _ _ _ _ _ _ _ _ Hroom Hf) as (relayed & Hw & _).
        assert (Hres : conn' = sendErrorResponse conn1 502 "Bad Gateway"
                       ∧ le_Action log = "ERROR" ∧ le_UpstreamStatus log = 502).
        { destruct (cache s) as [c|] eqn:Hcache.
          - case_bool_decide as Hkey.
            + unfold Get in H. rewrite (Hmiss c eq_refl Hkey) in H.
              by injection H as <- <- <-.
            + by injection H as <- <- <-.
          - by injection H as <- <- <-. }
        destruct Hres as (-> & ? & ?). split_and!; [done | done |].
        exists relayed, (errorResponse 502 "Bad Gateway").
        split_and!; [done | | apply errorResponse_format].
        eapply wrote_trans; [done|]. apply sendErrorResponse_reliable, Hw.
      * intros Hc Hon Hblk Hdial. rewrite Hc, Hon in H. simpl in H.
        destruct (IsBlocked _ _ _) as [blocked rule]. simpl in Hblk. subst blocked.
        unfold HandleCONNECT in H. rewrite Hdial in H.
        destruct (Write_reliable conn ("HTTP/1.1 502 Bad Gateway" +:+ CRLF +:+ CRLF) Hroom)
          as (conn1 & HW & Hw).
        rewrite HW in H. simpl in H. injection H as <- <- <-. done.
Qed.

End ServerProperties.

(** C10, an instance: the client sends the very token the proxy is
    configured with, and is answered 407. *)
Lemma C10_connect_with_token_is_407_witness :
  req_Headers apiRequest = ∅
  ∧ handleConnection url_Parse_ref secretServer deafWorld "10.0.0.1" 5555
      (clientSending connectApi)
    = (sendErrorResponse (clientSending connectApi) 407 "Proxy Authentication Required",
       cache secretServer,
       logRequest deafWorld "10.0.0.1" 5555 (req_Host apiRequest) (req_Port apiRequest)
         "CONNECT" (req_RequestTarget apiRequest) "AUTH_FAILED" 407 0 0 "")
  ∧ c_out (handleConnection url_Parse_ref secretServer deafWorld "10.0.0.1" 5555
             (clientSending connectApi)).1.1
    = c_out (clientSending connectApi)
      +:+ sent (clientSending connectApi)
            ("HTTP/1.1 407 Proxy Authentication Required" +:+ CRLF
             +:+ "Content-Type: text/plain" +:+ CRLF
             +:+ "Content-Length: 33" +:+ CRLF
             +:+ "Connection: close" +:+ CRLF
             +:+ CRLF
             +:+ "407 Proxy Authentication Required")
  ∧ le_Action (handleConnection url_Parse_ref secretServer deafWorld "10.0.0.1" 5555
                 (clientSending connectApi)).2
    = "AUTH_FAILED"
  ∧ le_UpstreamStatus (handleConnection url_Parse_ref secretServer deafWorld
                         "10.0.0.1" 5555 (clientSending connectApi)).2
    = 407.
Proof.
  apply (C10_connect_with_token_is_407 url_Parse_ref secretServer deafWorld
           "10.0.0.1" 5555 (clientSending connectApi) apiRequest
           ("Proxy-Authorization: secret" +:+ CRLF +:+ CRLF)).
  - reflexivity.
  - reflexivity.
  - discriminate.
Defined.

(** C9, an instance: the upstream is reset after its first header line. *)
Lemma C9_upstream_error_is_502_witness :
  match ForwardRequest url_Parse_ref resetWorld exampleRequest (clientSending getExample) with
  | (statusCode, up, down, Some err, conn1) =>
      ∃ conn' cache' relayed,
        handleConnection url_Parse_ref openServer resetWorld "10.0.0.1" 5555
          (clientSending getExample)
        = (conn', cache',
           logRequest resetWorld "10.0.0.1" 5555 (req_Host exampleRequest)
             (req_Port exampleRequest) (req_Method exampleRequest)
             (req_RequestTarget exampleRequest) "ERROR" 502 up down err)
        ∧ c_out conn1 = c_out (clientSending getExample) +:+ relayed
        ∧ c_out conn' = c_out (clientSending getExample) +:+ relayed
                          +:+ errorResponse 502 "Bad Gateway"
        ∧ ∃ tail, c_in resetUpstream = relayed +:+ tail
  | _ => False
  end.
Proof.
  destruct (ForwardRequest _ _ _ _) as [[[[statusCode up] down] [err|]] conn1] eqn:Hf.
  - apply (C9_upstream_error_is_502 url_Parse_ref openServer resetWorld "10.0.0.1" 5555
             (clientSending getExample) exampleRequest "" statusCode up down err conn1).
    + reflexivity.
    + left. reflexivity.
    + reflexivity.
    + reflexivity.
    + intros c Hc. discriminate Hc.
    + reflexivity.
    + exact Hf.
  - vm_compute in Hf. discriminate Hf.
Defined.

(** C9 as stated fails.  The upstream sends [HTTP/1.1 200 OK] and one
    header line and is then reset: the client receives these two lines and,
    after them, a whole 502 response. *)
Lemma C9_counterexample_502_after_partial_response :
  c_out (handleConnection url_Parse_ref openServer resetWorld "10.0.0.1" 5555
           (clientSending getExample)).1.1
  = ("HTTP/1.1 200 OK" +:+ CRLF +:+ "Content-Length: 10" +:+ CRLF)
      +:+ errorResponse 502 "Bad Gateway"
  ∧ le_Action (handleConnection url_Parse_ref openServer resetWorld "10.0.0.1" 5555
                 (clientSending getExample)).2 = "ERROR"
  ∧ c_out (handleConnection url_Parse_ref openServer resetWorld "10.0.0.1" 5555
             (clientSending getExample)).1.1
    ≠ "HTTP/1.1 200 OK" +:+ CRLF +:+ "Content-Length: 10" +:+ CRLF.
Proof. split_and!; [vm_compute; reflexivity.. | vm_compute; discriminate]. Qed.

(** C8, three instances: a request line that never ends is answered 400,
    a CONNECT without the token 407, a blocked host 403. *)
Lemma C8_error_responses_witness :
  (le_Action (handleConnection url_Parse_ref openServer deafWorld "10.0.0.1" 5555
                (clientSending "GET / HTTP/1.1")).2 = "ERROR"
   ∧ le_UpstreamStatus (handleConnection url_Parse_ref openServer deafWorld
                          "10.0.0.1" 5555 (clientSending "GET / HTTP/1.1")).2 = 400
   ∧ ∃ resp,
       wrote (clientSending "GET / HTTP/1.1") resp
         (handleConnection url_Parse_ref openServer deafWorld "10.0.0.1" 5555
            (clientSending "GET / HTTP/1.1")).1.1
       ∧ isErrorResponse 400 "Bad Request" resp)
  ∧ (le_Action (handleConnection url_Parse_ref secretServer deafWorld "10.0.0.1" 5555
                  (clientSending connectApi)).2 = "AUTH_FAILED"
     ∧ le_UpstreamStatus (handleConnection url_Parse_ref secretServer deafWorld
                            "10.0.0.1" 5555 (clientSending connectApi)).2 = 407
     ∧ ∃ resp,
         wrote (clientSending connectApi) resp
           (handleConnection url_Parse_ref secretServer deafWorld "10.0.0.1" 5555
              (clientSending connectApi)).1.1
         ∧ isErrorResponse 407 "Proxy Authentication Required" resp)
  ∧ (le_Action (handleConnection url_Parse_ref blockingServer deafWorld "10.0.0.1"
                  5555 (clientSending getMal)).2 = "BLOCKED"
     ∧ le_UpstreamStatus (handleConnection url_Parse_ref blockingServer deafWorld
                            "10.0.0.1" 5555 (clientSending getMal)).2 = 403
     ∧ ∃ resp,
         wrote (clientSending getMal) resp
           (handleConnection url_Parse_ref blockingServer deafWorld "10.0.0.1" 5555
              (clientSending getMal)).1.1
         ∧ isErrorResponse 403 "Forbidden" resp).
Proof.
  split; [|split].
  - refine (proj1
      (C8_error_responses url_Parse_ref openServer deafWorld "10.0.0.1" 5555
         (clientSending "GET / HTTP/1.1") _ _ _ eq_refl _) ErrReadRequestLine _).
    + apply surjective_pairing_3.
    + reflexivity.
  - refine (proj1 (proj1 (proj2
      (C8_error_responses url_Parse_ref secretServer deafWorld "10.0.0.1" 5555
         (clientSending connectApi) _ _ _ eq_refl _))
      apiRequest ("Proxy-Authorization: secret" +:+ CRLF +:+ CRLF) _) _ _).
    + apply surjective_pairing_3.
    + reflexivity.
    + discriminate.
    + discriminate.
  - refine (proj1 (proj2 (proj2 (proj1 (proj2
      (C8_error_responses url_Parse_ref blockingServer deafWorld "10.0.0.1" 5555
         (clientSending getMal) _ _ _ eq_refl _))
      malRequest "" _) _)) _ _).
    + apply surjective_pairing_3.
    + vm_compute. reflexivity.
    + left. reflexivity.
    + intros H. discriminate H.
    + vm_compute. reflexivity.
Defined.

(** C8 as stated fails.  A CONNECT request whose upstream cannot be reached
    is answered with the status line [HTTP/1.1 502 Bad Gateway] and a blank
    line: no header and no body. *)
Lemma C8_counterexample_connect_dial_failure :
  c_out (handleConnection url_Parse_ref openServer deafWorld "10.0.0.1" 5555
           (clientSending connectPlain)).1.1
  = "HTTP/1.1 502 Bad Gateway" +:+ CRLF +:+ CRLF
  ∧ le_Action (handleConnection url_Parse_ref openServer deafWorld "10.0.0.1" 5555
                 (clientSending connectPlain)).2 = "ERROR"
  ∧ ¬ isErrorResponse 502 "Bad Gateway"
        (c_out (handleConnection url_Parse_ref openServer deafWorld "10.0.0.1" 5555
                  (clientSending connectPlain)).1.1).
Proof.
  split_and!; [vm_compute; reflexivity.. |].
  intros (body & -> & H). vm_compute in H. discriminate H.
Qed.

(** C1, an instance: the plain GET of the spec. *)
Lemma C1_serialize_then_parse_witness :
  ∃ req',
    ParseHTTPRequest url_Parse_ref
      (SerializeRequest url_Parse_ref [("host", "example.test")] plainGetRequest)
    = Ok (req', "")
    ∧ req_Method req' = req_Method plainGetRequest
    ∧ req_RequestTarget req' = pathWithQuery plainGetURL
    ∧ req_Headers req' = req_Headers plainGetRequest
    ∧ req_Version req' = req_Version plainGetRequest
    ∧ req_Body req' = req_Body plainGetRequest.
Proof.
  apply (C1_serialize_then_parse url_Parse_ref plainGetStream plainGetRequest ""
           plainGetURL "example.test" [("host", "example.test")]).
  - reflexivity.
  - reflexivity.
  - reflexivity.
  - reflexivity.
  - reflexivity.
  - left. reflexivity.
  - reflexivity.
  - reflexivity.
  - reflexivity.
  - apply map_Forall_singleton. split; reflexivity.
  - cbn [plainGetRequest req_Headers]. by rewrite map_to_list_singleton.
Defined.

(** C1 as stated fails.  A target with an escaped space parses, and its
    serialized form parses again to another target; a [Host] header with a
    port that is no number does not stop the first parse of an
    absolute-form request, and stops the second. *)
Lemma C1_counterexample_escape_and_host_port :
  (∃ req u,
     ParseHTTPRequest url_Parse_ref escapedSpaceStream = Ok (req, "")
     ∧ req_Method req = "GET"
     ∧ isAbsoluteForm (req_RequestTarget req) = true
     ∧ is_Some (req_Headers req !! "host")
     ∧ url_Parse_ref (req_RequestTarget req) = Some u
     ∧ pathWithQuery u = "/a b"
     ∧ ∃ req',
         ParseHTTPRequest url_Parse_ref
           (SerializeRequest url_Parse_ref (map_to_list (req_Headers req)) req)
         = Ok (req', "")
         ∧ req_RequestTarget req' = "/a"
         ∧ req_RequestTarget req' ≠ pathWithQuery u)
  ∧ (∃ req,
       ParseHTTPRequest url_Parse_ref badHostPortStream = Ok (req, "")
       ∧ req_Method req = "GET"
       ∧ isAbsoluteForm (req_RequestTarget req) = true
       ∧ is_Some (req_Headers req !! "host")
       ∧ ParseHTTPRequest url_Parse_ref
           (SerializeRequest url_Parse_ref (map_to_list (req_Headers req)) req)
         = Err ErrInvalidHostPort).
Proof.
  split.
  - eexists _, _. split; [vm_compute; reflexivity|]. simpl.
    split_and!; [reflexivity | reflexivity | by eexists | vm_compute; reflexivity
                | reflexivity |].
    eexists. split; [vm_compute; reflexivity|]. simpl. split; [reflexivity | discriminate].
  - eexists. split; [vm_compute; reflexivity|]. simpl.
    split_and!; [reflexivity | reflexivity | by eexists | vm_compute; reflexivity].
Qed.

Example ex_url :
  url_Parse_ref "http://example.test/a?b=1"
    = Some {| url_Hostname := "example.test"; url_Port := "";
              url_Path := "/a"; url_RawQuery := "b=1" |}
  ∧ url_Parse_ref "https://Example.test:8443"
    = Some {| url_Hostname := "Example.test"; url_Port := "8443";
              url_Path := ""; url_RawQuery := "" |}
  ∧ url_Parse_ref "http://h/a%20b/?#f"
    = Some {| url_Hostname := "h"; url_Port := "";
              url_Path := "/a b/"; url_RawQuery := "" |}
  ∧ url_Parse_ref "http://h:x/" = None
  ∧ url_Parse_ref "http://h/%zz" = None.
Proof. vm_compute. repeat split. Qed.

Example ex_parse :
  ParseHTTPRequest url_Parse_ref
    ("GET http://example.test/a?b=1 HTTP/1.1" +:+ CRLF +:+ "Host: example.test" +:+ CRLF
       +:+ "Content-Length: 3" +:+ CRLF +:+ CRLF +:+ "hi!more")
  = Ok ({| req_Method := "GET"; req_RequestTarget := "http://example.test/a?b=1";
           req_Version := "HTTP/1.1";
           req_Headers := {[ "host" := "example.test"; "content-length" := "3" ]};
           req_Body := "hi!"; req_Host := "example.test"; req_Port := 80;
           req_IsConnect := false |}, "more")
  ∧ SerializeRequest url_Parse_ref [("host", "example.test")]
      {| req_Method := "GET"; req_RequestTarget := "http://example.test/a?b=1";
         req_Version := "HTTP/1.1"; req_Headers := {[ "host" := "example.test" ]};
         req_Body := ""; req_Host := "example.test"; req_Port := 80;
         req_IsConnect := false |}
    = "GET /a?b=1 HTTP/1.1" +:+ CRLF +:+ "Host: example.test" +:+ CRLF +:+ CRLF
  ∧ capitalizeHeader "content-type" = "Content-Type"
  ∧ capitalizeHeader "x--fOO-" = "X--Foo-".
Proof. vm_compute. repeat split. Qed.

Example ex_strings :
  ToLower (TrimSpace "  Ab.C  ") = "ab.c"
  ∧ SplitN "GET /a b c" " " 3 = ["GET"; "/a"; "b c"]
  ∧ SplitN "GET /a" " " 3 = ["GET"; "/a"]
  ∧ Split "content-type-" "-" = ["content"; "type"; ""]
  ∧ Atoi "-12" = Some (-12) ∧ Atoi "+7" = Some 7 ∧ Atoi "" = None ∧ Atoi "-" = None
  ∧ Atoi "9223372036854775808" = None ∧ Atoi "1 " = None
  ∧ Itoa 502 = "502" ∧ Itoa 0 = "0" ∧ Itoa (-3) = "-3"
  ∧ TrimRight ("a" +:+ CRLF +:+ CRLF) CRLF = "a"
  ∧ HasSuffix "a.b.c" ".c" = true ∧ HasSuffix "a.b.c" "b" = false
  ∧ HasPrefix "*.x" "*." = true.
Proof. vm_compute. repeat split. Qed.

(* ================================================================= *)
(** * Further properties of the code *)

(** ** Numbers: [Atoi] and [Itoa] *)

Lemma parseDigits_numeral acc d :
  parseDigits acc (NilEmpty.string_of_uint d) = Some (valueOf acc d).
Proof. revert acc. induction d; intros acc; simpl; [done | apply IHd..]. Qed.

Lemma valueOf_acc d (acc : positive) :
  valueOf (Z.pos acc) d = Z.pos (Pos.of_uint_acc d acc).
Proof.
  revert acc. induction d; intros acc; simpl; [done | ..];
    rewrite <- IHd; f_equal; lia.
Qed.

Lemma valueOf_numeral d : valueOf 0 d = Z.of_N (Pos.of_uint d).
Proof.
  induction d; simpl; [done | done | ..];
    match goal with |- valueOf ?k _ = _ => change k with (Z.pos (Z.to_pos k)) end;
    by rewrite valueOf_acc.
Qed.

Lemma numeral_shape p :
  ∃ c s, NilEmpty.string_of_uint (Pos.to_uint p) = String c s
         ∧ c ≠ "-"%char ∧ c ≠ "+"%char.
Proof.
  pose proof (Unsigned.to_uint_nonnil p) as Hn.
  destruct (Pos.to_uint p); [done | ..]; simpl; eexists _, _; done.
Qed.

Lemma Itoa_pos p : Itoa (Z.pos p) = NilEmpty.string_of_uint (Pos.to_uint p).
Proof.
  unfold Itoa. cbn [Z.to_int NilZero.string_of_int]. unfold NilZero.string_of_uint.
  pose proof (Unsigned.to_uint_nonnil p). by destruct (Pos.to_uint p).
Qed.

Lemma Itoa_neg p : Itoa (Z.neg p) = String "-" (NilEmpty.string_of_uint (Pos.to_uint p)).
Proof.
  unfold Itoa. cbn [Z.to_int NilZero.string_of_int]. unfold NilZero.string_of_uint.
  pose proof (Unsigned.to_uint_nonnil p). by destruct (Pos.to_uint p).
Qed.

(** [Atoi] reads what [Itoa] writes. *)
Lemma Atoi_Itoa z : - 2 ^ 63 ≤ z ≤ 2 ^ 63 - 1 → Atoi (Itoa z) = Some z.
Proof.
  intros Hz. destruct z as [|p|p]; [done | |].
  - rewrite Itoa_pos. destruct (numeral_shape p) as (c & s & Hs & Hm & Hp).
    pose proof (parseDigits_numeral 0 (Pos.to_uint p)) as Hd.
    rewrite valueOf_numeral, DecimalPos.Unsigned.of_to in Hd.
    rewrite Hs in *. unfold Atoi.
    rewrite !bool_decide_eq_false_2 by done. cbn [orb]. rewrite Hd.
    cbn [Z.of_N].
    replace (_ && _) with true; [done|].
    symmetry. apply andb_true_iff. lia.
  - rewrite Itoa_neg. destruct (numeral_shape p) as (c & s & Hs & _ & _).
    pose proof (parseDigits_numeral 0 (Pos.to_uint p)) as Hd.
    rewrite valueOf_numeral, DecimalPos.Unsigned.of_to in Hd.
    unfold Atoi. rewrite bool_decide_eq_true_2 by done. cbn [orb].
    rewrite Hs in *. rewrite Hd. cbn [Z.of_N].
    replace (_ && _) with true; [done|].
    symmetry. apply andb_true_iff. lia.
Qed.

Lemma parseDigits_Some acc s v :
  parseDigits acc s = Some v → allBytes (byteIn 48 57) s = true.
Proof.
  revert acc. induction s as [|c s IH]; intros acc; simpl; [done|].
  unfold digitVal. destruct (byteIn 48 57 c); [|done]. apply IH.
Qed.

(** [Atoi] reads no string with a colon. *)
Lemma Atoi_colon s : hasByte ":" s = true → Atoi s = None.
Proof.
  intros Hc. unfold Atoi. destruct s as [|c s]; [done|].
  set (digits := if _ || _ then s else String c s).
  assert (Hd : hasByte ":" digits = true).
  { subst digits. simpl in Hc. destruct (Ascii.eqb c ":") eqn:Hcc.
    - apply Ascii.eqb_eq in Hcc as ->. simpl. done.
    - by destruct (_ || _); [|simpl; rewrite Hcc]. }
  clearbody digits. destruct digits as [|d ds]; [done|].
  destruct (parseDigits 0 (String d ds)) as [n|] eqn:Hp; [|done].
  apply parseDigits_Some in Hp. exfalso. clear -Hd Hp.
  induction (String d ds) as [|a r IH]; simpl in *; [done|].
  apply andb_true_iff in Hp as [Ha Hr].
  destruct (Ascii.eqb a ":") eqn:Haa; [|by apply IH].
  apply Ascii.eqb_eq in Haa as ->. done.
Qed.

(** [Itoa] of a number that is not negative writes digits, and at least
    one. *)
Lemma Itoa_digits z :
  0 ≤ z → allBytes (byteIn 48 57) (Itoa z) = true ∧ Itoa z ≠ "".
Proof.
  intros Hz. destruct z as [|p|p]; [done | | lia].
  rewrite Itoa_pos. split.
  - apply (parseDigits_Some 0 _ _ (parseDigits_numeral 0 (Pos.to_uint p))).
  - destruct (numeral_shape p) as (c & s & -> & _). done.
Qed.

Lemma digits_no_byte c s :
  byteIn 48 57 c = false → allBytes (byteIn 48 57) s = true → hasByte c s = false.
Proof.
  intros Hc. induction s as [|a s IH]; simpl; [done|].
  intros [Ha Hs]%andb_true_iff. destruct (Ascii.eqb a c) eqn:Hac; [|by apply IH].
  apply Ascii.eqb_eq in Hac as ->. congruence.
Qed.

Lemma digit_not_space c : byteIn 48 57 c = true → isSpace c = false.
Proof. destruct c as [[] [] [] [] [] [] [] []]; vm_compute; congruence. Qed.

Lemma digits_endsClean s :
  allBytes (byteIn 48 57) s = true → endsClean isSpace s = true.
Proof.
  induction s as [|a s IH]; simpl; [done|].
  intros [Ha Hs]%andb_true_iff. destruct s; [|by apply IH].
  by rewrite digit_not_space.
Qed.

(** ** cache.go: sizes, termination, eviction, keys *)

(** X1.  After any sequence of [Get], [Put] and [Clear] on a cache made by
    [NewCache], in a program that assigns to no entry object while the
    cache holds it, [GetStats] returns the number of entries and the number
    of bytes held, bodies and header names and values counted under every
    key; the [Size] of every object the cache holds is the size [Put]
    computes from its body and headers. *)
Theorem X1_stats_are_exact (n : Z) (fuel : nat) (ops : list Shared.CacheOp)
    (h0 h : Shared.Store) (c : Shared.Cache) :
  Shared.runOps fuel ops h0 (Shared.NewCache n) = Some (h, c) →
  Shared.leavesHeld fuel ops h0 (Shared.NewCache n) = true →
  Shared.GetStats c
  = (Z.of_nat (size (Shared.entries c)), heldBytes (h <$> Shared.entries c))
  ∧ (∀ k p, Shared.entries c !! k = Some p → ce_Size (h p) = entrySize (h p)).
Proof.
  intros Hrun Hfree.
  destruct (Shared_NewCache_inv h0 n) as (Hc0 & Hs0 & Hb0).
  destruct (Shared_runOps_inv fuel ops h0 (Shared.NewCache n) h c)
    as ((_ & _ & Hsz) & Hs & _); [simpl; lia | done..|].
  split.
  - unfold Shared.GetStats. f_equal. simpl in Hsz. rewrite Hsz.
    by apply totalSize_heldBytes.
  - intros k p Hk. apply (Hs k). simpl. by rewrite lookup_fmap, Hk.
Qed.

(** X1, an instance: an object put, read, and put again under a second
    key. *)
Lemma X1_stats_are_exact_witness :
  match Shared.runOps 1
          [Shared.OpPut 1 "a" 1%positive; Shared.OpGet 2 "a";
           Shared.OpAssign 2%positive (smallEntry "yy");
           Shared.OpPut 3 "b" 2%positive; Shared.OpPut 4 "c" 1%positive]
          (fun _ => smallEntry "x") (Shared.NewCache 3) with
  | Some (h, c) =>
      Shared.GetStats c
      = (Z.of_nat (size (Shared.entries c)), heldBytes (h <$> Shared.entries c))
      ∧ (∀ k p, Shared.entries c !! k = Some p → ce_Size (h p) = entrySize (h p))
  | None => False
  end.
Proof.
  destruct (Shared.runOps _ _ _ _) as [[h c]|] eqn:Hrun.
  - eapply (X1_stats_are_exact 3 1); [exact Hrun | vm_compute; reflexivity].
  - vm_compute in Hrun. discriminate.
Defined.

Lemma length_removeFromOrder key order :
  (length (removeFromOrder key order) ≤ length order)%nat.
Proof.
  induction order as [|k order IH]; simpl; [done|].
  destruct (decide (k = key)); simpl; lia.
Qed.

Lemma evictLRU_present key c :
  coherentBut key c → is_Some (entries c !! key) →
  is_Some (entries (evictLRU c) !! key).
Proof.
  intros (_ & Hdom & _) Hk. unfold evictLRU.
  destruct (accessOrder c) as [|k rest] eqn:Ho; [done|].
  assert (Hin : is_Some (delete key (entries c) !! k)) by (apply Hdom; left).
  destruct Hin as [e He].
  assert (k ≠ key) by (intros ->; by rewrite lookup_delete_eq in He).
  rewrite lookup_delete_ne in He by done. rewrite He. simpl.
  by rewrite lookup_delete_ne.
Qed.

Lemma evictLRU_nonneg c :
  map_Forall (fun _ e => 0 ≤ ce_Size e) (entries c) →
  map_Forall (fun _ e => 0 ≤ ce_Size e) (entries (evictLRU c)).
Proof. intros H k e He. apply (H k e). by apply evictLRU_entries. Qed.

(** The loop cannot leave while the key of [Put] is in the map and the
    new entry alone is above the byte bound. *)
Lemma evictLoop_oversize fuel sz key c :
  coherentBut key c → is_Some (entries c !! key) →
  map_Forall (fun _ e => 0 ≤ ce_Size e) (entries c) →
  maxSize c < sz → evictLoop fuel sz c = None.
Proof.
  revert c. induction fuel as [|fuel IH]; intros c Hc Hk Hnn Hbig;
    assert (Hm : mustEvict sz c = true)
      by (destruct Hk as [e He]; destruct Hc as (_ & _ & Hsz);
          assert (0 ≤ totalSize (delete key (entries c)))
            by (apply totalSize_nonneg; intros k' e' He';
                apply (Hnn k' e'); rewrite lookup_delete in He'; by case_decide);
          assert (size (entries c) ≠ 0%nat) by (by eapply map_size_ne_0_lookup_2);
          unfold mustEvict; apply andb_true_iff; split;
          [apply orb_true_iff; right|]; lia);
    simpl; rewrite Hm; [done|].
  apply IH.
  - by apply coherentBut_evictLRU.
  - by apply evictLRU_present.
  - by apply evictLRU_nonneg.
  - by rewrite evictLRU_maxSize.
Qed.

(** With room for two entries and a new entry under the byte bound, the
    loop leaves after at most as many rounds as the order has keys. *)
Lemma evictLoop_terminates_present sz key c :
  coherentBut key c → 2 ≤ maxEntries c → sz ≤ maxSize c →
  is_Some (evictLoop (length (accessOrder c)) sz c).
Proof.
  remember (length (accessOrder c)) as n eqn:Hn. revert c Hn.
  induction n as [|n IH]; intros c Hn Hc Hmax Hsz; simpl.
  - destruct (mustEvict sz c) eqn:Hm; [|eauto]. exfalso.
    destruct Hc as (_ & Hdom & Hcs).
    destruct (accessOrder c) as [|k rest] eqn:Ho; [|done].
    assert (Hempty : delete key (entries c) = ∅).
    { apply map_empty. intros k. apply eq_None_not_Some. rewrite <- Hdom.
      apply not_elem_of_nil. }
    rewrite Hempty, totalSize_empty in Hcs.
    assert (Hsize : (size (entries c) ≤ 1)%nat).
    { pose proof (map_size_delete key (entries c)) as Hd.
      rewrite Hempty, map_size_empty in Hd.
      destruct (entries c !! key); unfold id in Hd; simpl in Hd; lia. }
    assert (Hf : mustEvict sz c = false).
    { apply mustEvict_false_iff. right. lia. }
    congruence.
  - destruct (mustEvict sz c) eqn:Hm; [|eauto].
    destruct (accessOrder c) as [|k rest] eqn:Ho; [done|].
    assert (Hlen : n = length (accessOrder (evictLRU c))).
    { unfold evictLRU. rewrite Ho. simpl in Hn. case_match; simpl; lia. }
    apply IH; [done | by apply coherentBut_evictLRU | | ].
    + by rewrite evictLRU_maxEntries.
    + by rewrite evictLRU_maxSize.
Qed.

(** [Put] returns or not by what the invariants say. *)
Lemma Put_returns_inv (n : Z) (c : Cache) (now : Z) (key : string) (entry : CacheEntry) :
  coherent c → sized c → maxEntries c = n → maxSize c = 100 * 1024 * 1024 →
  ((∃ fuel, is_Some (Put fuel now key entry c))
   ↔ entries c !! key = None ∨ (2 ≤ n ∧ entrySize entry ≤ 100 * 1024 * 1024))
  ∧ (entries c !! key = None ∨ (2 ≤ n ∧ entrySize entry ≤ 100 * 1024 * 1024) →
     is_Some (Put (length (accessOrder c)) now key entry c)).
Proof.
  intros Hc Hs Hme Hms.
  assert (Hret : entries c !! key = None
                 ∨ (2 ≤ n ∧ entrySize entry ≤ 100 * 1024 * 1024) →
                 is_Some (Put (length (accessOrder c)) now key entry c)).
  { intros Hcond.
    assert (Hloop : ∃ c2,
      evictLoop (length (accessOrder c)) (entrySize entry)
        match entries c !! key with
        | Some existing =>
            {| entries := entries c;
               accessOrder := removeFromOrder key (accessOrder c);
               maxEntries := maxEntries c;
               maxSize := maxSize c;
               currentSize := currentSize c - ce_Size existing |}
        | None => c
        end = Some c2).
    { pose proof (Put_before_loop key c Hc) as Hb.
      destruct (entries c !! key) as [existing|] eqn:Hk.
      - destruct Hcond as [|[Hn Hsz]]; [done|].
        destruct (evictLoop_terminates_present (entrySize entry) key _ Hb)
          as [c2 Hl]; [simpl; lia.. |].
        exists c2. eapply evictLoop_fuel; [exact Hl|]. simpl.
        apply length_removeFromOrder.
      - destruct (evictLoop_terminates (entrySize entry) key c Hb Hk) as [c2 Hl].
        by exists c2. }
    destruct Hloop as [c2 Hl]. unfold Put. rewrite Hl. eauto. }
  split; [|done]. split; [|intros Hcond; eauto].
  intros [fuel [c' HP]].
  destruct (entries c !! key) as [existing|] eqn:Hk; [|by left]. right.
  destruct (decide (2 ≤ n)) as [Hn|Hn].
  - split; [done|].
    destruct (decide (entrySize entry ≤ 100 * 1024 * 1024)) as [|Hbig]; [done|].
    exfalso. unfold Put in HP. pose proof (Put_before_loop key c Hc) as Hb.
    rewrite Hk in HP, Hb.
    rewrite (evictLoop_oversize fuel (entrySize entry) key) in HP;
      [done | done | simpl; eauto | by apply sized_nonneg | simpl; lia].
  - exfalso. rewrite Put_single_slot_existing in HP; [done | done | eauto | lia].
Qed.

(** X2.  In every state that [Get], [Put] and [Clear] reach from
    [NewCache n], in a program that assigns to no entry object while the
    cache holds it, [Put] returns exactly when the key is not in the cache,
    or [n] is at least 2 and the new entry is at most 100 MiB; it then
    returns within as many rounds of its loop as the cache has keys, with
    the object stored under the key, its [Size] and [LastAccessed] set, and
    the key last in the order. *)
Theorem X2_put_returns_iff (n : Z) (fuel0 : nat) (ops : list Shared.CacheOp)
    (h0 h : Shared.Store) (c : Shared.Cache) (now : Z) (key : string)
    (entry : Shared.ptr) :
  Shared.runOps fuel0 ops h0 (Shared.NewCache n) = Some (h, c) →
  Shared.leavesHeld fuel0 ops h0 (Shared.NewCache n) = true →
  ((∃ fuel, is_Some (Shared.Put fuel now key entry h c))
   ↔ Shared.entries c !! key = None
     ∨ (2 ≤ n ∧ entrySize (h entry) ≤ 100 * 1024 * 1024))
  ∧ (Shared.entries c !! key = None
     ∨ (2 ≤ n ∧ entrySize (h entry) ≤ 100 * 1024 * 1024) →
     ∃ h' c',
       Shared.Put (length (Shared.accessOrder c)) now key entry h c = Some (h', c')
       ∧ Shared.entries c' !! key = Some entry
       ∧ h' entry = set_LastAccessed now (set_Size (entrySize (h entry)) (h entry))
       ∧ last (Shared.accessOrder c') = Some key).
Proof.
  intros Hrun Hfree.
  destruct (Shared_NewCache_inv h0 n) as (Hc0 & Hs0 & Hb0).
  destruct (Shared_runOps_inv fuel0 ops h0 (Shared.NewCache n) h c)
    as (Hc & Hs & _ & Hme & Hms); [simpl; lia | done..|].
  pose proof (agree_stamp h c entry now Hs) as Ha.
  set (hs := Shared.assign h entry _) in Ha.
  destruct (Put_returns_inv n (view hs c) now key (h entry)) as [Hiff Hret];
    [by eapply agree_coherent | by eapply agree_sized | done | done |].
  assert (Hkey : entries (view hs c) !! key = None ↔ Shared.entries c !! key = None).
  { simpl. by rewrite lookup_fmap, fmap_None. }
  assert (Hsome : ∀ fuel, is_Some (Shared.Put fuel now key entry h c)
                          ↔ is_Some (Put fuel now key (h entry) (view hs c))).
  { intros fuel. unfold hs. rewrite <- (view_Put fuel now key entry h c).
    by rewrite fmap_is_Some. }
  rewrite Hkey in Hiff, Hret. split.
  - rewrite <- Hiff. split; intros [fuel Hf]; exists fuel; by apply Hsome.
  - intros Hcond. apply Hret, Hsome in Hcond as [[h' c'] HP].
    exists h', c'. split; [exact HP|].
    apply Shared_Put_Some in HP as (-> & ? & ?).
    split_and!; [done | apply assign_eq | done].
Qed.

(** X2, an instance: an object the cache holds, put again under its key in
    a cache of two. *)
Lemma X2_put_returns_iff_witness :
  match Shared.runOps 1 [Shared.OpPut 1 "a" 1%positive] (fun _ => smallEntry "x")
          (Shared.NewCache 2) with
  | Some (h, c) =>
      ((∃ fuel, is_Some (Shared.Put fuel 2 "a" 1%positive h c))
       ↔ Shared.entries c !! "a" = None
         ∨ (2 ≤ 2 ∧ entrySize (h 1%positive) ≤ 100 * 1024 * 1024))
      ∧ (Shared.entries c !! "a" = None
         ∨ (2 ≤ 2 ∧ entrySize (h 1%positive) ≤ 100 * 1024 * 1024) →
         ∃ h' c',
           Shared.Put (length (Shared.accessOrder c)) 2 "a" 1%positive h c
           = Some (h', c')
           ∧ Shared.entries c' !! "a" = Some 1%positive
           ∧ h' 1%positive
             = set_LastAccessed 2
                 (set_Size (entrySize (h 1%positive)) (h 1%positive))
           ∧ last (Shared.accessOrder c') = Some "a")
  | None => False
  end.
Proof.
  destruct (Shared.runOps _ _ _ _) as [[h c]|] eqn:Hrun.
  - eapply (X2_put_returns_iff 2 1); [exact Hrun | vm_compute; reflexivity].
  - vm_compute in Hrun. discriminate.
Defined.

(** X3.  In a state reached from [NewCache n] that holds [n] entries,
    [Put] of a key that is not in the cache, with an entry that fits under
    the byte bound beside what is held, evicts the first key of the access
    order, the least recently used one, and nothing else; the new key goes
    to the back of the order. *)
Theorem X3_put_evicts_least_recent (n : Z) (fuel0 : nat) (ops : list CacheOp)
    (c : Cache) (fuel : nat) (now : Z) (key : string) (entry : CacheEntry)
    (k : string) (rest : list string) :
  runOps fuel0 ops (NewCache n) = Some c →
  entries c !! key = None →
  Z.of_nat (size (entries c)) = n →
  accessOrder c = k :: rest →
  currentSize c + entrySize entry ≤ 100 * 1024 * 1024 →
  ∃ c', Put (S fuel) now key entry c = Some c'
        ∧ entries c'
          = <[key := set_LastAccessed now (set_Size (entrySize entry) entry)]>
              (delete k (entries c))
        ∧ accessOrder c' = (rest ++ [key])%list
        ∧ is_Some (entries c !! k) ∧ entries c' !! k = None.
Proof.
  intros Hrun Hk Hfull Ho Hfit.
  apply runOps_sized in Hrun as (Hc & Hs & Hme & Hms);
    [|apply NewCache_coherent | apply NewCache_sized].
  cbn [NewCache maxEntries maxSize] in Hme, Hms.
  destruct Hc as (Hnd & Hdom & Hsz).
  assert (Hek : is_Some (entries c !! k)) by (apply Hdom; rewrite Ho; left).
  destruct Hek as [ek Hek].
  assert (Hne : k ≠ key) by (intros ->; congruence).
  assert (Hpos : size (entries c) ≠ 0%nat) by (by eapply map_size_ne_0_lookup_2).
  pose proof (entrySize_nonneg ek) as Hnn. rewrite <- (Hs k ek Hek) in Hnn.
  erewrite Put_evict_one; [| done | | done | done |].
  - eexists. split; [done|]. simpl. split_and!; [done | done | eauto |].
    by rewrite lookup_insert_ne, lookup_delete_eq.
  - apply mustEvict_full; lia.
  - apply mustEvict_false_iff. right. unfold evictLRU. rewrite Ho, Hek. simpl.
    rewrite map_size_delete_Some by eauto. lia.
Qed.

(** X3, an instance: the cache of one entry that [warmCache] is. *)
Lemma X3_put_evicts_least_recent_witness :
  ∃ c', Put 1 5 "GET:http://example.test/b" (smallEntry "yy") warmCache = Some c'
        ∧ entries c'
          = <["GET:http://example.test/b" :=
                set_LastAccessed 5
                  (set_Size (entrySize (smallEntry "yy")) (smallEntry "yy"))]>
              (delete "GET:http://example.test/" (entries warmCache))
        ∧ accessOrder c' = ([] ++ ["GET:http://example.test/b"])%list
        ∧ is_Some (entries warmCache !! "GET:http://example.test/")
        ∧ entries c' !! "GET:http://example.test/" = None.
Proof.
  apply (X3_put_evicts_least_recent 1 0
           [OpPut 1 "GET:http://example.test/" (smallEntry "hello")] warmCache 0 5
           "GET:http://example.test/b" (smallEntry "yy") "GET:http://example.test/" []).
  - vm_compute. reflexivity.
  - vm_compute. reflexivity.
  - vm_compute. reflexivity.
  - reflexivity.
  - vm_compute. discriminate.
Defined.

(** X4.  What [Put] has stored, [Get] returns: after a [Put] that returns,
    [Get] of the key finds the entry with the headers, status code and body
    that were put, [Size] as computed and [LastAccessed] the time of the
    [Get], and leaves the key last in the order. *)
Theorem X4_get_after_put (fuel : nat) (now now' : Z) (key : string)
    (entry : CacheEntry) (c c' : Cache) :
  Put fuel now key entry c = Some c' →
  ∃ e c'', Get now' key c' = (Some e, c'')
           ∧ ce_Headers e = ce_Headers entry
           ∧ ce_StatusCode e = ce_StatusCode entry
           ∧ ce_Body e = ce_Body entry
           ∧ ce_Size e = entrySize entry
           ∧ ce_LastAccessed e = now'
           ∧ last (accessOrder c'') = Some key.
Proof.
  unfold Put. destruct (evictLoop _ _ _) as [c2|]; [|done]. intros [= <-].
  unfold Get. simpl. rewrite lookup_insert_eq. eexists _, _. split; [done|].
  simpl. split_and!; try done. unfold moveToEnd. apply last_snoc.
Qed.

(** X4, an instance. *)
Lemma X4_get_after_put_witness :
  match Put 0 1 "a" (smallEntry "x") (NewCache 2) with
  | Some c' =>
      ∃ e c'', Get 2 "a" c' = (Some e, c'')
               ∧ ce_Headers e = ce_Headers (smallEntry "x")
               ∧ ce_StatusCode e = ce_StatusCode (smallEntry "x")
               ∧ ce_Body e = ce_Body (smallEntry "x")
               ∧ ce_Size e = entrySize (smallEntry "x")
               ∧ ce_LastAccessed e = 2
               ∧ last (accessOrder c'') = Some "a"
  | None => False
  end.
Proof.
  destruct (Put _ _ _ _ _) as [c'|] eqn:HP.
  - exact (X4_get_after_put 0 1 2 "a" (smallEntry "x") (NewCache 2) c' HP).
  - vm_compute in HP. discriminate.
Defined.

(** X5.  [MakeCacheKey] gives the empty key, which the server does not look
    up, exactly to the methods other than GET; two requests share a key
    that is not empty only when they have the same method and the same
    target; and a response that [IsCacheable] has a key and status 200. *)
Theorem X5_cache_keys (method1 target1 method2 target2 : string) :
  (MakeCacheKey method1 target1 = "" ↔ method1 ≠ "GET")
  ∧ (MakeCacheKey method1 target1 ≠ "" →
     MakeCacheKey method1 target1 = MakeCacheKey method2 target2 →
     method1 = method2 ∧ target1 = target2)
  ∧ (∀ statusCode, IsCacheable method1 statusCode = true →
                   MakeCacheKey method1 target1 ≠ "" ∧ statusCode = 200).
Proof.
  unfold MakeCacheKey, IsCacheable. split_and!.
  - case_bool_decide as H1; [done|]. subst. split; [discriminate | done].
  - case_bool_decide as H1; [done|]. intros _.
    case_bool_decide as H2.
    + subst. discriminate.
    + subst. simpl. intros [= ->]. done.
  - intros statusCode. case_bool_decide as H1; [done|].
    intros H%bool_decide_eq_true. subst. done.
Qed.

(** X5, an instance: a POST has no key, and a GET that is cacheable has
    one. *)
Lemma X5_cache_keys_witness :
  MakeCacheKey "POST" "/a" = ""
  ∧ (MakeCacheKey "GET" "/a" = MakeCacheKey "GET" "/b" → "/a" = "/b")
  ∧ MakeCacheKey "GET" "/a" ≠ "".
Proof.
  split_and!.
  - apply (proj1 (X5_cache_keys "POST" "/a" "GET" "/a")). discriminate.
  - intros H.
    apply (proj1 (proj2 (X5_cache_keys "GET" "/a" "GET" "/b"))) in H;
      [exact (proj2 H) | discriminate].
  - apply (proj2 (proj2 (X5_cache_keys "GET" "/a" "GET" "/a")) 200). reflexivity.
Defined.

(** ** filter.go: the verdict, and the rules file *)

Lemma readRule_true (m : gmap string bool) k : readRule m k = true ↔ m !! k = Some true.
Proof. unfold readRule. destruct (m !! k) as [[]|]; simpl; naive_solver. Qed.

Lemma IsBlocked_true_iff f order host :
  visits (blockedDomains f) order →
  (IsBlocked order f host).1 = true
  ↔ blockedDomains f !! ToLower (TrimSpace host) = Some true
    ∨ blockedIPs f !! ToLower (TrimSpace host) = Some true
    ∨ ∃ X, is_Some (blockedDomains f !! ("*." +:+ X))
           ∧ wildcardMatch (ToLower (TrimSpace host)) X.
Proof.
  intros [_ Ho]. unfold IsBlocked. set (h := ToLower (TrimSpace host)).
  destruct (readRule (blockedDomains f) h) eqn:Hd.
  { apply readRule_true in Hd. simpl. naive_solver. }
  destruct (readRule (blockedIPs f) h) eqn:Hi.
  { apply readRule_true in Hi. simpl. naive_solver. }
  assert (Hd' : blockedDomains f !! h ≠ Some true)
    by (intros H%readRule_true; congruence).
  assert (Hi' : blockedIPs f !! h ≠ Some true)
    by (intros H%readRule_true; congruence).
  destruct (matchSuffixRules h order) as [[] r] eqn:Hr; simpl.
  - apply matchSuffixRules_true in Hr as (Hin & X & -> & HX).
    split; [|done]. intros _. right. right. exists X. split; [by apply Ho | done].
  - apply matchSuffixRules_false in Hr as [_ Hno].
    split; [done|]. intros [?|[?|(X & HX & Hm)]]; [done | done |].
    destruct (Hno X); [by apply Ho | done].
Qed.

(** X6.  [IsBlocked] answers [true] exactly when the host, trimmed and in
    lower case, is a key that reads [true] in one of the two maps, or some
    key of the domain map is [*.X] and the host is [X] or ends in [.X].
    The rule it returns with [true] is a key of one of the maps, with
    [false] it is empty, and the order in which Go ranges over the map
    does not change the answer. *)
Theorem X6_blocked_verdict (f : Filter) (order : list string) (host : string) :
  visits (blockedDomains f) order →
  ((IsBlocked order f host).1 = true
   ↔ blockedDomains f !! ToLower (TrimSpace host) = Some true
     ∨ blockedIPs f !! ToLower (TrimSpace host) = Some true
     ∨ ∃ X, is_Some (blockedDomains f !! ("*." +:+ X))
            ∧ wildcardMatch (ToLower (TrimSpace host)) X)
  ∧ ((IsBlocked order f host).1 = true →
     is_Some (blockedDomains f !! (IsBlocked order f host).2)
     ∨ is_Some (blockedIPs f !! (IsBlocked order f host).2))
  ∧ ((IsBlocked order f host).1 = false → (IsBlocked order f host).2 = "")
  ∧ (∀ order', visits (blockedDomains f) order' →
               (IsBlocked order' f host).1 = (IsBlocked order f host).1).
Proof.
  intros Hvis. split_and!.
  - by apply IsBlocked_true_iff.
  - destruct Hvis as [_ Ho]. unfold IsBlocked.
    destruct (readRule (blockedDomains f) _) eqn:Hd.
    { apply readRule_true in Hd. simpl. intros _. left. eauto. }
    destruct (readRule (blockedIPs f) _) eqn:Hi.
    { apply readRule_true in Hi. simpl. intros _. right. eauto. }
    destruct (matchSuffixRules _ order) as [[] r] eqn:Hr; simpl; [|done].
    apply matchSuffixRules_true in Hr as (Hin & _). intros _. left. by apply Ho.
  - unfold IsBlocked.
    destruct (readRule (blockedDomains f) _); [done|].
    destruct (readRule (blockedIPs f) _); [done|].
    destruct (matchSuffixRules _ order) as [[] r] eqn:Hr; simpl; [done|].
    by apply matchSuffixRules_false in Hr as [-> _].
  - intros order' Hvis'.
    pose proof (IsBlocked_true_iff f order host Hvis) as H1.
    pose proof (IsBlocked_true_iff f order' host Hvis') as H2.
    destruct (IsBlocked order f host).1, (IsBlocked order' f host).1; try done.
    + by apply H2, H1.
    + symmetry. by apply H1, H2.
Qed.

(** X6, an instance: the wildcard rule of [malRules]. *)
Lemma X6_blocked_verdict_witness :
  ((IsBlocked ["*.mal.test"] malRules "A.Mal.Test ").1 = true
   ↔ blockedDomains malRules !! ToLower (TrimSpace "A.Mal.Test ") = Some true
     ∨ blockedIPs malRules !! ToLower (TrimSpace "A.Mal.Test ") = Some true
     ∨ ∃ X, is_Some (blockedDomains malRules !! ("*." +:+ X))
            ∧ wildcardMatch (ToLower (TrimSpace "A.Mal.Test ")) X)
  ∧ ((IsBlocked ["*.mal.test"] malRules "A.Mal.Test ").1 = true →
     is_Some (blockedDomains malRules
                !! (IsBlocked ["*.mal.test"] malRules "A.Mal.Test ").2)
     ∨ is_Some (blockedIPs malRules
                  !! (IsBlocked ["*.mal.test"] malRules "A.Mal.Test ").2))
  ∧ ((IsBlocked ["*.mal.test"] malRules "A.Mal.Test ").1 = false →
     (IsBlocked ["*.mal.test"] malRules "A.Mal.Test ").2 = "")
  ∧ (∀ order', visits (blockedDomains malRules) order' →
               (IsBlocked order' malRules "A.Mal.Test ").1
               = (IsBlocked ["*.mal.test"] malRules "A.Mal.Test ").1).
Proof.
  apply (X6_blocked_verdict malRules ["*.mal.test"] "A.Mal.Test ").
  apply (visits_insert ∅ [] "*.mal.test" true); [apply lookup_empty | apply visits_empty].
Defined.

(** Upper case and blanks. *)

Lemma isSpace_upper c : isSpace (upper c) = isSpace c.
Proof. each_byte c. Qed.

Lemma TrimLeftFunc_ToUpper s :
  TrimLeftFunc isSpace (ToUpper s) = ToUpper (TrimLeftFunc isSpace s).
Proof.
  induction s as [|c s IH]; simpl; [done|].
  rewrite isSpace_upper. by destruct (isSpace c).
Qed.

Lemma TrimRightFunc_ToUpper s :
  TrimRightFunc isSpace (ToUpper s) = ToUpper (TrimRightFunc isSpace s).
Proof.
  induction s as [|c s IH]; simpl; [done|].
  unfold ToUpper in *. rewrite IH.
  destruct (TrimRightFunc isSpace s); simpl; [|done].
  rewrite isSpace_upper. by destruct (isSpace c).
Qed.

Lemma TrimSpace_ToUpper s : TrimSpace (ToUpper s) = ToUpper (TrimSpace s).
Proof. unfold TrimSpace. by rewrite TrimLeftFunc_ToUpper, TrimRightFunc_ToUpper. Qed.

Lemma TrimLeftFunc_all p a b :
  allBytes p a = true → TrimLeftFunc p (a +:+ b) = TrimLeftFunc p b.
Proof.
  induction a as [|c a IH]; simpl; [done|].
  intros [Hc Ha]%andb_true_iff. rewrite Hc. by apply IH.
Qed.

Lemma TrimLeftFunc_all_nil p b : allBytes p b = true → TrimLeftFunc p b = "".
Proof.
  induction b as [|c b IH]; simpl; [done|].
  intros [Hc Hb]%andb_true_iff. rewrite Hc. by apply IH.
Qed.

Lemma TrimSpace_blanks pre s suf :
  allBytes isSpace pre = true → allBytes isSpace suf = true →
  TrimSpace (pre +:+ s +:+ suf) = TrimSpace s.
Proof.
  intros Hpre Hsuf. unfold TrimSpace. rewrite TrimLeftFunc_all by done.
  induction s as [|c s IH]; simpl.
  - by rewrite TrimLeftFunc_all_nil.
  - destruct (isSpace c); [done|].
    change (String c (s +:+ suf)) with (String c s +:+ suf).
    by rewrite TrimRightFunc_all.
Qed.

(** X7.  [IsBlocked] does not see the case of the host's letters, nor
    white space around it. *)
Theorem X7_blocked_case_blind (f : Filter) (order : list string)
    (host pre suf : string) :
  allBytes isASCII host = true →
  allBytes isSpace pre = true → allBytes isSpace suf = true →
  IsBlocked order f (pre +:+ ToUpper host +:+ suf) = IsBlocked order f host
  ∧ IsBlocked order f (pre +:+ ToLower host +:+ suf) = IsBlocked order f host.
Proof.
  intros _ Hpre Hsuf. unfold IsBlocked.
  rewrite !TrimSpace_blanks by done.
  rewrite TrimSpace_ToUpper, ToLower_ToUpper.
  assert (Hl : ToLower (TrimSpace (ToLower host)) = ToLower (TrimSpace host)).
  { unfold TrimSpace.
    by rewrite TrimLeftFunc_ToLower, TrimRightFunc_ToLower, ToLower_ToLower. }
  by rewrite Hl.
Qed.

(** X7, an instance. *)
Lemma X7_blocked_case_blind_witness :
  IsBlocked ["*.mal.test"] malRules (" " +:+ ToUpper "a.Mal.test" +:+ "  ")
  = IsBlocked ["*.mal.test"] malRules "a.Mal.test"
  ∧ IsBlocked ["*.mal.test"] malRules (" " +:+ ToLower "a.Mal.test" +:+ "  ")
    = IsBlocked ["*.mal.test"] malRules "a.Mal.test".
Proof.
  apply (X7_blocked_case_blind malRules ["*.mal.test"] "a.Mal.test" " " "  ");
    reflexivity.
Defined.

(** The rules file. *)

Lemma eqb_lower_hash c : Ascii.eqb (lower c) "#" = Ascii.eqb c "#".
Proof. each_byte c. Qed.

Lemma hasByte_ToLower_hash s : hasByte "#" (ToLower s) = hasByte "#" s.
Proof.
  induction s as [|c s IH]; simpl; [done|].
  unfold ToLower in *. by rewrite eqb_lower_hash, IH.
Qed.

Lemma TrimSpace_String c z :
  isSpace c = false → ∃ z', TrimSpace (String c z) = String c z'.
Proof.
  intros Hc. unfold TrimSpace. cbn [TrimLeftFunc]. rewrite Hc.
  cbn [TrimRightFunc]. destruct (TrimRightFunc isSpace z); rewrite ?Hc; eauto.
Qed.

Lemma ToLower_nonempty s : s ≠ "" → ToLower s ≠ "".
Proof. by destruct s. Qed.

Lemma trimmed_ToLower s : trimmed s → trimmed (ToLower s).
Proof. intros [H1 H2]. split; by rewrite ?startsClean_ToLower, ?endsClean_ToLower. Qed.

Lemma ruleOf_canonical text r : ruleOf text = Some r → canonicalRule r.
Proof.
  unfold ruleOf. pose proof (TrimSpace_trimmed text) as Ht.
  set (line := TrimSpace text) in *.
  destruct (bool_decide (line = "") || HasPrefix line "#") eqn:Hskip; [done|].
  apply orb_false_iff in Hskip as [Hne%bool_decide_eq_false Hhash].
  assert (Hy : ∃ y, match Index line "#" with
                    | Some idx => TrimSpace (sliceTo idx line)
                    | None => line
                    end = y
                    ∧ y ≠ "" ∧ trimmed y ∧ hasByte "#" y = false).
  { destruct (Index line "#") as [idx|] eqn:Hidx.
    - eexists. split; [done|].
      apply Index_Some in Hidx as (Hs & Hno & Hlen).
      destruct line as [|c l]; [done|].
      destruct Ht as [Hc _]. simpl in Hc. apply negb_true_iff in Hc.
      destruct idx as [|idx].
      { simpl in Hs. injection Hs as ->. done. }
      cbn [sliceTo] in *.
      destruct (TrimSpace_String c (sliceTo idx l) Hc) as [z' Hz].
      split_and!; [by rewrite Hz | apply TrimSpace_trimmed | by apply hasByte_TrimSpace].
    - exists line. split_and!; [done.. |]. by apply Index_None. }
  destruct Hy as (y & -> & Hy1 & Hy2 & Hy3). intros [= <-].
  rewrite (trimmed_TrimSpace y Hy2). split_and!.
  - by apply ToLower_nonempty.
  - by rewrite hasByte_ToLower_hash.
  - by apply trimmed_ToLower.
  - apply ToLower_ToLower.
Qed.

Section RulesProperties.

Variable ParseIP : string → bool.

(** What the scanner loop keeps: the two maps hold exactly the rules of the
    lines read so far and of the filter it started from, each in the map
    [ParseIP] sends it to when it comes from a line. *)
Lemma loadLine_lookup f text r :
  (blockedDomains (loadLine ParseIP f text) !! r
   = if bool_decide (ruleOf text = Some r) && negb (ParseIP r)
     then Some true else blockedDomains f !! r)
  ∧ (blockedIPs (loadLine ParseIP f text) !! r
     = if bool_decide (ruleOf text = Some r) && ParseIP r
       then Some true else blockedIPs f !! r).
Proof.
  unfold loadLine. destruct (ruleOf text) as [line|]; [|done].
  destruct (ParseIP line) eqn:Hip; simpl.
  - split.
    + case_bool_decide as H; [|done]. injection H as <-. by rewrite Hip.
    + rewrite lookup_insert. case_decide as H.
      * subst. by rewrite bool_decide_eq_true_2, Hip.
      * rewrite bool_decide_eq_false_2; [done|]. by intros [= ->].
  - split.
    + rewrite lookup_insert. case_decide as H.
      * subst. by rewrite bool_decide_eq_true_2, Hip.
      * rewrite bool_decide_eq_false_2; [done|]. by intros [= ->].
    + case_bool_decide as H; [|done]. injection H as <-. by rewrite Hip.
Qed.

Lemma loadLines_lookup lines f r :
  let named := existsb (fun text => bool_decide (ruleOf text = Some r)) lines in
  (blockedDomains (fold_left (loadLine ParseIP) lines f) !! r
   = if named && negb (ParseIP r) then Some true else blockedDomains f !! r)
  ∧ (blockedIPs (fold_left (loadLine ParseIP) lines f) !! r
     = if named && ParseIP r then Some true else blockedIPs f !! r).
Proof.
  revert f. induction lines as [|text lines IH]; intros f; [done|].
  cbn [fold_left existsb]. destruct (IH (loadLine ParseIP f text)) as [-> ->].
  destruct (loadLine_lookup f text r) as [-> ->].
  destruct (existsb _ lines), (bool_decide (ruleOf text = Some r)), (ParseIP r); done.
Qed.

Lemma named_spec lines r :
  existsb (fun text => bool_decide (ruleOf text = Some r)) lines = true
  ↔ ∃ text, text ∈ lines ∧ ruleOf text = Some r.
Proof.
  rewrite existsb_exists. split; intros (text & Hin & H); exists text.
  - apply list_elem_of_In in Hin. by apply bool_decide_eq_true in H.
  - apply list_elem_of_In in Hin. by rewrite bool_decide_eq_true.
Qed.

Lemma loadLines_size lines f :
  (size (blockedDomains (fold_left (loadLine ParseIP) lines f))
   + size (blockedIPs (fold_left (loadLine ParseIP) lines f))
   ≤ size (blockedDomains f) + size (blockedIPs f) + length lines)%nat.
Proof.
  revert f. induction lines as [|text lines IH]; intros f; simpl; [lia|].
  etrans; [apply IH|]. unfold loadLine.
  destruct (ruleOf text) as [line|]; [|lia].
  destruct (ParseIP line); simpl.
  - pose proof (map_size_insert line true (blockedIPs f)) as H.
    destruct (blockedIPs f !! line); unfold id in H; lia.
  - pose proof (map_size_insert line true (blockedDomains f)) as H.
    destruct (blockedDomains f !! line); unfold id in H; lia.
Qed.

Lemma LoadRules_lookup lines scanErr f0 f err r :
  LoadRules ParseIP (RulesOpened lines scanErr) f0 = (f, err) →
  (∀ v, blockedDomains f !! r = Some v
        ↔ v = true ∧ ParseIP r = false
          ∧ ∃ text, text ∈ lines ∧ ruleOf text = Some r)
  ∧ (∀ v, blockedIPs f !! r = Some v
          ↔ v = true ∧ ParseIP r = true
            ∧ ∃ text, text ∈ lines ∧ ruleOf text = Some r).
Proof.
  intros [= <- _].
  destruct (loadLines_lookup lines NewFilter r) as [-> ->].
  cbn [NewFilter blockedDomains blockedIPs]. rewrite !lookup_empty.
  pose proof (named_spec lines r) as Hn.
  destruct (existsb _ lines).
  - assert (Hex : ∃ text, text ∈ lines ∧ ruleOf text = Some r) by (by apply Hn).
    destruct (ParseIP r); simpl; split; intros v; split;
      try done; try (by intros [= <-]); by intros (-> & ? & ?).
  - assert (Hno : ¬ ∃ text, text ∈ lines ∧ ruleOf text = Some r)
      by (intros H%Hn; done).
    destruct (ParseIP r); simpl; split; intros v; split;
      try done; by intros (_ & _ & ?).
Qed.

(** X8.  [LoadRules] on a file that opens drops the rules the filter had
    and returns the scanner's error.  A rule is then in the IP map exactly
    when some line stands for it and [net.ParseIP] reads it, and in the
    domain map exactly when some line stands for it and [net.ParseIP] does
    not; every rule stored reads [true] and is in canonical form (not
    empty, trimmed, lower case, without [#]); and [GetBlockedCount] counts
    at most one rule for each line. *)
Theorem X8_rules_file_loaded (lines : list string) (scanErr : bool) (f0 f : Filter)
    (err : bool) :
  Forall (fun text => allBytes isASCII text = true) lines →
  LoadRules ParseIP (RulesOpened lines scanErr) f0 = (f, err) →
  err = scanErr
  ∧ (∀ r, is_Some (blockedDomains f !! r)
          ↔ ParseIP r = false ∧ ∃ text, text ∈ lines ∧ ruleOf text = Some r)
  ∧ (∀ r, is_Some (blockedIPs f !! r)
          ↔ ParseIP r = true ∧ ∃ text, text ∈ lines ∧ ruleOf text = Some r)
  ∧ (∀ r v, blockedDomains f !! r = Some v ∨ blockedIPs f !! r = Some v →
            v = true ∧ canonicalRule r)
  ∧ (GetBlockedCount f).1 + (GetBlockedCount f).2 ≤ Z.of_nat (length lines).
Proof.
  intros _ HL. split_and!.
  - by injection HL as _ <-.
  - intros r. destruct (LoadRules_lookup _ _ _ _ _ r HL) as [Hd _]. split.
    + intros [v Hv]. by apply Hd in Hv as (_ & ? & ?).
    + intros [? ?]. exists true. by apply Hd.
  - intros r. destruct (LoadRules_lookup _ _ _ _ _ r HL) as [_ Hi]. split.
    + intros [v Hv]. by apply Hi in Hv as (_ & ? & ?).
    + intros [? ?]. exists true. by apply Hi.
  - intros r v. destruct (LoadRules_lookup _ _ _ _ _ r HL) as [Hd Hi].
    intros [(-> & _ & text & _ & Hr)%Hd | (-> & _ & text & _ & Hr)%Hi];
      (split; [done | by eapply ruleOf_canonical]).
  - injection HL as <- _. unfold GetBlockedCount. cbn [fst snd].
    pose proof (loadLines_size lines NewFilter) as H.
    cbn [NewFilter blockedDomains blockedIPs] in H.
    rewrite !map_size_empty in H. lia.
Qed.

(** X9.  After [LoadRules] on a file that opens, [IsBlocked] blocks a host
    exactly when some line of the file stands for the host itself, trimmed
    and in lower case, or for a wildcard [*.X] that [net.ParseIP] does not
    read, with the host equal to [X] or ending in [.X]; and a line that
    stands for the host itself is the rule returned. *)
Theorem X9_rules_file_verdict (lines : list string) (scanErr : bool) (f0 f : Filter)
    (err : bool) (order : list string) (host : string) :
  Forall (fun text => allBytes isASCII text = true) lines →
  LoadRules ParseIP (RulesOpened lines scanErr) f0 = (f, err) →
  visits (blockedDomains f) order →
  ((IsBlocked order f host).1 = true
   ↔ ∃ text, text ∈ lines
       ∧ (ruleOf text = Some (ToLower (TrimSpace host))
          ∨ ∃ X, ruleOf text = Some ("*." +:+ X)
                 ∧ ParseIP ("*." +:+ X) = false
                 ∧ wildcardMatch (ToLower (TrimSpace host)) X))
  ∧ (∀ text, text ∈ lines → ruleOf text = Some (ToLower (TrimSpace host)) →
             IsBlocked order f host = (true, ToLower (TrimSpace host))).
Proof.
  intros _ HL Hvis. set (h := ToLower (TrimSpace host)).
  destruct (LoadRules_lookup _ _ _ _ _ h HL) as [Hd Hi]. split.
  - rewrite (IsBlocked_true_iff f order host Hvis). fold h. split.
    + intros [(_ & _ & text & Hin & Hr)%Hd
             | [(_ & _ & text & Hin & Hr)%Hi | (X & [v Hv] & Hm)]];
        [exists text; eauto.. |].
      destruct (LoadRules_lookup _ _ _ _ _ ("*." +:+ X) HL) as [HdX _].
      apply HdX in Hv as (_ & Hip & text & Hin & Hr). exists text.
      split; [done|]. right. by exists X.
    + intros (text & Hin & [Hr | (X & Hr & Hip & Hm)]).
      * destruct (ParseIP h) eqn:Hip.
        -- right. left. apply Hi. eauto.
        -- left. apply Hd. eauto.
      * right. right. exists X. split; [|done]. exists true.
        destruct (LoadRules_lookup _ _ _ _ _ ("*." +:+ X) HL) as [HdX _].
        apply HdX. eauto.
  - intros text Hin Hr. unfold IsBlocked. fold h.
    destruct (ParseIP h) eqn:Hip.
    + assert (H2 : readRule (blockedIPs f) h = true)
        by (apply readRule_true, Hi; eauto).
      rewrite H2. by destruct (readRule (blockedDomains f) h).
    + assert (H1 : readRule (blockedDomains f) h = true)
        by (apply readRule_true, Hd; eauto).
      by rewrite H1.
Qed.

End RulesProperties.

(** The keys of a map, in the order of [map_to_list], are one of the
    orders in which Go can visit it. *)
Lemma visits_keys {V} (m : gmap string V) : visits m (map_to_list m).*1.
Proof.
  split; [apply NoDup_fst_map_to_list|]. intros k.
  rewrite list_elem_of_fmap. split.
  - intros ([k' v] & -> & Hin). apply elem_of_map_to_list in Hin. eauto.
  - intros [v Hv]. exists (k, v). split; [done|]. by apply elem_of_map_to_list.
Qed.

(** X8, an instance: the rules file of the examples, read over
    [malRules]. *)
Lemma X8_rules_file_loaded_witness :
  let f := fold_left (loadLine ParseIP_ref) exampleRules NewFilter in
  false = false
  ∧ (∀ r, is_Some (blockedDomains f !! r)
          ↔ ParseIP_ref r = false
            ∧ ∃ text, text ∈ exampleRules ∧ ruleOf text = Some r)
  ∧ (∀ r, is_Some (blockedIPs f !! r)
          ↔ ParseIP_ref r = true
            ∧ ∃ text, text ∈ exampleRules ∧ ruleOf text = Some r)
  ∧ (∀ r v, blockedDomains f !! r = Some v ∨ blockedIPs f !! r = Some v →
            v = true ∧ canonicalRule r)
  ∧ (GetBlockedCount f).1 + (GetBlockedCount f).2
    ≤ Z.of_nat (length exampleRules).
Proof.
  intros f.
  apply (X8_rules_file_loaded ParseIP_ref exampleRules false malRules f false).
  - unfold exampleRules. repeat constructor.
  - reflexivity.
Defined.

(** X9, an instance: a host under the wildcard rule of the file. *)
Lemma X9_rules_file_verdict_witness :
  let f := fold_left (loadLine ParseIP_ref) exampleRules NewFilter in
  let order := (map_to_list (blockedDomains f)).*1 in
  ((IsBlocked order f "WWW.mal.test").1 = true
   ↔ ∃ text, text ∈ exampleRules
       ∧ (ruleOf text = Some (ToLower (TrimSpace "WWW.mal.test"))
          ∨ ∃ X, ruleOf text = Some ("*." +:+ X)
                 ∧ ParseIP_ref ("*." +:+ X) = false
                 ∧ wildcardMatch (ToLower (TrimSpace "WWW.mal.test")) X))
  ∧ (∀ text, text ∈ exampleRules →
             ruleOf text = Some (ToLower (TrimSpace "WWW.mal.test")) →
             IsBlocked order f "WWW.mal.test"
             = (true, ToLower (TrimSpace "WWW.mal.test"))).
Proof.
  intros f order.
  apply (X9_rules_file_verdict ParseIP_ref exampleRules false NewFilter f false
           order "WWW.mal.test").
  - unfold exampleRules. repeat constructor.
  - reflexivity.
  - apply visits_keys.
Defined.

(** ** config.go: validation and the INI file *)

Lemma Validate_None c :
  Validate c = None ↔
  1 ≤ ListenPort c ≤ 65535
  ∧ (ConcurrencyModel c = "thread_per_connection"
     ∨ ConcurrencyModel c = "thread_pool" ∧ 1 ≤ ThreadPoolSize c)
  ∧ 1 ≤ LogMaxSizeMB c
  ∧ (EnableCaching c = true → 1 ≤ CacheMaxEntries c).
Proof.
  unfold Validate.
  destruct (_ || _) eqn:H1.
  { split; [done|]. apply orb_true_iff in H1. lia. }
  apply orb_false_iff in H1 as [H1a H1b].
  destruct (bool_decide (ConcurrencyModel c ≠ "thread_per_connection")
            && bool_decide (ConcurrencyModel c ≠ "thread_pool")) eqn:H2.
  { split; [done|].
    apply andb_true_iff in H2 as [Ha%bool_decide_eq_true Hb%bool_decide_eq_true].
    intros (_ & [?|[? _]] & _); done. }
  destruct (bool_decide (ConcurrencyModel c = "thread_pool") && _) eqn:H3.
  { split; [done|]. apply andb_true_iff in H3 as [Ha%bool_decide_eq_true Hb].
    intros (_ & [Hm|[_ ?]] & _); [rewrite Ha in Hm; done | lia]. }
  destruct (LogMaxSizeMB c <? 1) eqn:H4.
  { split; [done|]. lia. }
  destruct (EnableCaching c && _) eqn:H5.
  { split; [done|]. apply andb_true_iff in H5 as [Ha Hb].
    intros (_ & _ & _ & Hc). specialize (Hc Ha). lia. }
  split; [intros _|done]. split_and!; try lia.
  - apply andb_false_iff in H2 as [Ha%bool_decide_eq_false|Hb%bool_decide_eq_false].
    + left. by apply dec_stable.
    + right. split; [by apply dec_stable|].
      apply andb_false_iff in H3 as [Hc%bool_decide_eq_false|Hc]; [|lia].
      by apply dec_stable in Hb.
  - intros Hc. rewrite Hc in H5. simpl in H5. lia.
Qed.

(** Whatever [LoadConfigFromINI] returns passes [Validate], the defaults
    for a missing file included. *)
Lemma Loaded_Validate file c : LoadConfigFromINI file = Loaded c → Validate c = None.
Proof.
  destruct file as [| |data]; simpl.
  - by intros [= <-].
  - done.
  - destruct (Validate _) eqn:Hv; [done|]. by intros [= <-].
Qed.

(** X10.  A configuration that [LoadConfigFromINI] returns is within the
    bounds of [Validate]: the port between 1 and 65535, one of the two
    concurrency models, a pool of at least one worker under [thread_pool],
    a log size of at least 1, and at least one cache entry when caching is
    on.  For a file that does not exist it is [DefaultConfig]. *)
Theorem X10_loaded_config_is_valid (file : ConfigFile) (c : Config) :
  LoadConfigFromINI file = Loaded c →
  1 ≤ ListenPort c ≤ 65535
  ∧ (ConcurrencyModel c = "thread_per_connection"
     ∨ ConcurrencyModel c = "thread_pool" ∧ 1 ≤ ThreadPoolSize c)
  ∧ 1 ≤ LogMaxSizeMB c
  ∧ (EnableCaching c = true → 1 ≤ CacheMaxEntries c)
  ∧ (file = ConfigNotExist → c = DefaultConfig).
Proof.
  intros Hload. pose proof (Loaded_Validate _ _ Hload) as Hv.
  apply Validate_None in Hv as (? & ? & ? & ?). split_and!; try done; try lia.
  intros ->. by injection Hload as <-.
Qed.

(** X10, an instance: the configuration file of the examples. *)
Lemma X10_loaded_config_is_valid_witness :
  match LoadConfigFromINI (ConfigData exampleINI) with
  | Loaded c =>
      1 ≤ ListenPort c ≤ 65535
      ∧ (ConcurrencyModel c = "thread_per_connection"
         ∨ ConcurrencyModel c = "thread_pool" ∧ 1 ≤ ThreadPoolSize c)
      ∧ 1 ≤ LogMaxSizeMB c
      ∧ (EnableCaching c = true → 1 ≤ CacheMaxEntries c)
      ∧ (ConfigData exampleINI = ConfigNotExist → c = DefaultConfig)
  | _ => False
  end.
Proof.
  destruct (LoadConfigFromINI (ConfigData exampleINI)) as [c| |e] eqn:Hload.
  - exact (X10_loaded_config_is_valid (ConfigData exampleINI) c Hload).
  - vm_compute in Hload. discriminate.
  - vm_compute in Hload. discriminate.
Defined.

Lemma setOption_unknown config key value :
  key ∉ knownKeys → setOption config key value = config.
Proof.
  intros Hk. unfold knownKeys in Hk. rewrite !not_elem_of_cons in Hk.
  destruct Hk as (? & ? & ? & ? & ? & ? & ? & ? & ? & ? & ? & _).
  unfold setOption. destruct config.
  by rewrite !bool_decide_eq_false_2 by done.
Qed.

Lemma setOption_not_a_number config key value :
  key ∈ numericKeys → Atoi value = None → setOption config key value = config.
Proof.
  intros Hk Hv. unfold numericKeys in Hk. rewrite !elem_of_cons in Hk.
  unfold setOption. destruct config. rewrite Hv.
  destruct Hk as [->|[->|[->|[->|[]%elem_of_nil]]]]; done.
Qed.

Lemma iniLine_inert config line : inertLine line → iniLine config line = config.
Proof.
  unfold iniLine.
  intros [Hb | [Hc | [Hn | (key & value & Hl & Hk & Hset)]]].
  - by rewrite Hb.
  - rewrite Hc. by rewrite orb_true_r.
  - destruct (_ || _); [done|].
    by destruct (SplitN_2 (TrimSpace line) "=") as [[_ ->] | (a & b & Hs & _ & _)];
      [|rewrite Hs, hasByte_app in Hn; simpl in Hn; rewrite orb_true_r in Hn].
  - destruct (_ || _); [done|]. rewrite Hl.
    change (key +:+ "=" +:+ value) with (key +:+ String "=" value).
    rewrite SplitN_2_cut by done.
    destruct Hset as [Hu | [Hnum Hv]];
      [by apply setOption_unknown | by apply setOption_not_a_number].
Qed.

Lemma iniLines_inert lines config :
  Forall inertLine lines → fold_left iniLine lines config = config.
Proof.
  revert config. induction lines as [|l lines IH]; intros c Hf; [done|].
  apply Forall_cons in Hf as [Hl Hf]. simpl. rewrite iniLine_inert by done.
  by apply IH.
Qed.

(** X11.  A configuration file in which every line is blank, a comment,
    without [=], with a key the [switch] does not know, or with a numeric
    key and a value [Atoi] does not read, loads as [DefaultConfig]: such
    lines set nothing and raise no error. *)
Theorem X11_inert_lines_give_defaults (data : string) :
  Forall inertLine (Split data LF) →
  LoadConfigFromINI (ConfigData data) = Loaded DefaultConfig.
Proof.
  intros Hall. unfold LoadConfigFromINI. by rewrite iniLines_inert.
Qed.

(** X11, an instance: a file with one line of each kind. *)
Lemma X11_inert_lines_give_defaults_witness :
  LoadConfigFromINI (ConfigData inertINI) = Loaded DefaultConfig.
Proof.
  apply (X11_inert_lines_give_defaults inertINI).
  change (Split inertINI LF)
    with ["# nothing here"; ""; "no equals sign"; "listen_port = eighty";
          "colour = blue"; ""].
  repeat apply Forall_cons_2; [| | | | | | apply Forall_nil_2].
  - right. left. reflexivity.
  - left. reflexivity.
  - right. right. left. reflexivity.
  - right. right. right. exists "listen_port ", " eighty".
    split_and!; [reflexivity | reflexivity |]. right. split; [|reflexivity].
    change (TrimSpace "listen_port ") with "listen_port". unfold numericKeys.
    apply list_elem_of_here.
  - right. right. right. exists "colour ", " blue".
    split_and!; [reflexivity | reflexivity |]. left.
    change (TrimSpace "colour ") with "colour". unfold knownKeys.
    rewrite !not_elem_of_cons. split_and!; try discriminate. apply not_elem_of_nil.
  - left. reflexivity.
Defined.

Lemma space_no_byte c s :
  isSpace c = false → allBytes isSpace s = true → hasByte c s = false.
Proof.
  intros Hc. induction s as [|a s IH]; simpl; [done|].
  intros [Ha Hs]%andb_true_iff. destruct (Ascii.eqb a c) eqn:Hac; [|by apply IH].
  apply Ascii.eqb_eq in Hac as ->. congruence.
Qed.

Lemma digits_TrimSpace s :
  allBytes (byteIn 48 57) s = true → TrimSpace s = s.
Proof.
  intros Hd. apply trimmed_TrimSpace. split; [|by apply digits_endsClean].
  destruct s as [|c s]; [done|]. simpl in *.
  apply andb_true_iff in Hd as [Hc _]. by rewrite digit_not_space.
Qed.

(** One line that sets the port, blanks wherever the code trims them. *)
Lemma iniLine_listen_port config (n : Z) (pre mid1 mid2 suf : string) :
  0 ≤ n ≤ 2 ^ 63 - 1 →
  allBytes isSpace pre = true → allBytes isSpace mid1 = true →
  allBytes isSpace mid2 = true → allBytes isSpace suf = true →
  iniLine config
    (pre +:+ ("listen_port" +:+ mid1 +:+ "=" +:+ mid2 +:+ Itoa n) +:+ suf)
  = setOption config "listen_port" (Itoa n)
  ∧ Atoi (Itoa n) = Some n.
Proof.
  intros Hn Hpre Hmid1 Hmid2 Hsuf.
  destruct (Itoa_digits n) as [Hd Hne]; [lia|].
  split; [|apply Atoi_Itoa; lia].
  unfold iniLine. rewrite TrimSpace_blanks by done.
  set (line := "listen_port" +:+ mid1 +:+ "=" +:+ mid2 +:+ Itoa n).
  assert (Hline : TrimSpace line = line).
  { apply trimmed_TrimSpace. split; [done|]. subst line.
    replace ("listen_port" +:+ mid1 +:+ "=" +:+ mid2 +:+ Itoa n)
      with (("listen_port" +:+ mid1 +:+ "=" +:+ mid2) +:+ Itoa n)
      by (rewrite ?append_assoc; done).
    rewrite endsClean_app by done. by apply digits_endsClean. }
  rewrite Hline. subst line. cbn [append HasPrefix bool_decide decide_rel].
  rewrite bool_decide_eq_false_2 by done. cbn [orb].
  change (String "l" (String "i" (String "s" (String "t" (String "e" (String "n"
            (String "_" (String "p" (String "o" (String "r" (String "t"
              (mid1 +:+ String "=" (mid2 +:+ Itoa n)))))))))))))
    with (("listen_port" +:+ mid1) +:+ String "=" (mid2 +:+ Itoa n)).
  rewrite SplitN_2_cut; cycle 1.
  { rewrite hasByte_app. rewrite (space_no_byte "=" mid1) by done. done. }
  f_equal.
  - replace ("listen_port" +:+ mid1) with ("" +:+ "listen_port" +:+ mid1) by done.
    by rewrite TrimSpace_blanks.
  - replace (mid2 +:+ Itoa n) with (mid2 +:+ Itoa n +:+ "")
      by (by rewrite append_nil_r).
    rewrite TrimSpace_blanks by done. by apply digits_TrimSpace.
Qed.

(** X12.  A configuration file with one line that sets [listen_port] to a
    number written in decimal, blanks allowed around the key and the
    value, and otherwise only lines that set nothing, loads as the defaults
    with that port when the number is between 1 and 65535, and is refused
    with the error of the port otherwise. *)
Theorem X12_listen_port_is_read_and_checked (data : string)
    (before after : list string) (n : Z) (pre mid1 mid2 suf : string) :
  Split data LF
  = (before ++ (pre +:+ ("listen_port" +:+ mid1 +:+ "=" +:+ mid2 +:+ Itoa n) +:+ suf)
               :: after)%list →
  Forall inertLine before → Forall inertLine after →
  0 ≤ n ≤ 2 ^ 63 - 1 →
  allBytes isSpace pre = true → allBytes isSpace mid1 = true →
  allBytes isSpace mid2 = true → allBytes isSpace suf = true →
  LoadConfigFromINI (ConfigData data)
  = (if (1 <=? n) && (n <=? 65535)
     then Loaded (setOption DefaultConfig "listen_port" (Itoa n))
     else LoadInvalid ErrListenPort)
  ∧ ListenPort (setOption DefaultConfig "listen_port" (Itoa n)) = n.
Proof.
  intros Hsplit Hbefore Hafter Hn Hpre Hmid1 Hmid2 Hsuf.
  destruct (iniLine_listen_port DefaultConfig n pre mid1 mid2 suf) as [Hline Hatoi];
    try done.
  assert (Hset : setOption DefaultConfig "listen_port" (Itoa n)
                 = {| ListenAddress := "0.0.0.0"; ListenPort := n;
                      ConcurrencyModel := "thread_per_connection";
                      ThreadPoolSize := 10; LogFilePath := "proxy.log";
                      LogMaxSizeMB := 100;
                      BlockedDomainsFile := "config/blocked_domains.txt";
                      EnableCaching := false; CacheMaxEntries := 1000;
                      EnableConnectTunnel := false; AuthToken := "" |}).
  { unfold setOption, DefaultConfig. rewrite Hatoi. done. }
  split; [|by rewrite Hset].
  unfold LoadConfigFromINI. rewrite Hsplit, fold_left_app. cbn [fold_left].
  rewrite (iniLines_inert before) by done. rewrite Hline.
  rewrite (iniLines_inert after) by done. rewrite Hset.
  unfold Validate. cbn [ListenPort ConcurrencyModel ThreadPoolSize LogMaxSizeMB
                        EnableCaching CacheMaxEntries].
  destruct (1 <=? n) eqn:H1, (n <=? 65535) eqn:H2; simpl;
    [replace (n <? 1) with false by lia; replace (n >? 65535) with false by lia; done
    | replace (n >? 65535) with true by lia; by rewrite orb_true_r
    | replace (n <? 1) with true by lia; done
    | replace (n <? 1) with true by lia; done].
Qed.

(** X12, an instance: port 70000 is refused. *)
Lemma X12_listen_port_is_read_and_checked_witness :
  LoadConfigFromINI
    (ConfigData ("# proxy" +:+ String LF ("  listen_port = 70000 " +:+ String LF "")))
  = (if (1 <=? 70000) && (70000 <=? 65535)
     then Loaded (setOption DefaultConfig "listen_port" (Itoa 70000))
     else LoadInvalid ErrListenPort)
  ∧ ListenPort (setOption DefaultConfig "listen_port" (Itoa 70000)) = 70000.
Proof.
  apply (X12_listen_port_is_read_and_checked _ ["# proxy"] [""] 70000 "  " " " " " " ").
  - reflexivity.
  - apply Forall_cons_2; [|apply Forall_nil_2]. right. left. reflexivity.
  - apply Forall_cons_2; [|apply Forall_nil_2]. left. reflexivity.
  - lia.
  - reflexivity.
  - reflexivity.
  - reflexivity.
  - reflexivity.
Defined.

(** ** parser.go: what a parsed request is, and what is refused *)

Lemma upper_upper c : upper (upper c) = upper c.
Proof. each_byte c. Qed.

Lemma eqb_upper_space c : Ascii.eqb (upper c) " " = Ascii.eqb c " ".
Proof. each_byte c. Qed.

Lemma eqb_upper_LF c : Ascii.eqb (upper c) LF = Ascii.eqb c LF.
Proof. each_byte c. Qed.

Lemma ToUpper_ToUpper s : ToUpper (ToUpper s) = ToUpper s.
Proof.
  induction s as [|c s IH]; simpl; [done|].
  unfold ToUpper in *. simpl. by rewrite upper_upper, IH.
Qed.

Lemma hasByte_ToUpper_space s : hasByte " " (ToUpper s) = hasByte " " s.
Proof.
  induction s as [|c s IH]; simpl; [done|].
  unfold ToUpper in *. by rewrite eqb_upper_space, IH.
Qed.

Lemma hasByte_ToUpper_LF s : hasByte LF (ToUpper s) = hasByte LF s.
Proof.
  induction s as [|c s IH]; simpl; [done|].
  unfold ToUpper in *. by rewrite eqb_upper_LF, IH.
Qed.

(** The three fields of a request line hold no line feed, and the first
    two no space. *)
Lemma request_line_fields line rest reader p0 p1 p2 :
  ReadString LF reader = Some (line, rest) →
  SplitN (TrimRight line CRLF) " " 3 = [p0; p1; p2] →
  hasByte " " p0 = false ∧ hasByte LF p0 = false
  ∧ hasByte " " p1 = false ∧ hasByte LF p1 = false
  ∧ hasByte LF p2 = false.
Proof.
  intros (_ & _ & l & -> & Hl)%ReadString_Some Hparts.
  rewrite TrimRight_line in Hparts.
  assert (Hline : hasByte LF (TrimRightFunc (fun c => hasByte c CRLF) l) = false)
    by by apply hasByte_TrimRightFunc.
  apply SplitN_3_inv in Hparts as (Hs & H0 & H1). rewrite Hs in Hline.
  rewrite hasByte_app in Hline. apply orb_false_iff in Hline as [Hl0 Hline].
  simpl in Hline. change (Ascii.eqb " " LF) with false in Hline.
  rewrite hasByte_app in Hline. apply orb_false_iff in Hline as [Hl1 Hline].
  simpl in Hline. done.
Qed.

(** One round of the header loop on one line [name: value]. *)
Lemma header_line_read fuel acc n v rest :
  plainHeader (n, v) →
  readHeaderLines (S fuel) acc ((n +:+ ": " +:+ v +:+ CRLF) +:+ rest)
  = readHeaderLines fuel (<[headerKey n := v]> acc) rest.
Proof.
  intros (Hn1 & Hn2 & Hv1 & Hv2). cbn [fst snd] in *.
  assert (Hraw : (n +:+ ": " +:+ v +:+ CRLF) +:+ rest
                 = (n +:+ ": " +:+ v +:+ String CR "") +:+ String LF rest).
  { rewrite ?append_assoc. simpl. rewrite ?append_assoc. done. }
  assert (Hline : (n +:+ ": " +:+ v +:+ String CR "") +:+ String LF ""
                  = (n +:+ String ":" (" " +:+ v)) +:+ CRLF).
  { rewrite ?append_assoc. simpl. rewrite ?append_assoc. done. }
  rewrite Hraw. cbn [readHeaderLines]. rewrite ReadString_app; cycle 1.
  { rewrite !hasByte_app, Hn2, Hv1. done. }
  rewrite Hline, TrimRight_CRLF; cycle 1.
  { rewrite endsClean_app by done. destruct v as [|c v]; [done|].
    change (endsClean (fun c => hasByte c CRLF) (String c v) = true).
    apply (endsClean_weaken isSpace); [apply isSpace_cutset | apply Hv2]. }
  rewrite bool_decide_eq_false_2 by by destruct n.
  rewrite Index_app by done.
  rewrite sliceTo_app, sliceFrom_S_app, TrimSpace_space.
  by rewrite (trimmed_TrimSpace v).
Qed.

Lemma length_headerLines hs : (length hs ≤ String.length (headerLines hs))%nat.
Proof.
  induction hs as [|[k v] hs IH]; simpl; [done|].
  rewrite !length_append. simpl. lia.
Qed.

Lemma readHeaderLines_block hs fuel acc body :
  Forall plainHeader hs → (length hs < fuel)%nat →
  readHeaderLines fuel acc (headerLines hs +:+ CRLF +:+ body)
  = Ok (insertAll acc (map (fun nv => (headerKey nv.1, nv.2)) hs), body).
Proof.
  intros Hhs. revert fuel acc.
  induction Hhs as [|[k v] hs Hkv Hhs IH]; intros fuel acc Hfuel.
  - destruct fuel as [|fuel]; [simpl in Hfuel; lia|]. reflexivity.
  - destruct fuel as [|fuel]; [simpl in Hfuel; lia|].
    cbn [headerLines fold_right fst snd]. fold (headerLines hs).
    rewrite append_assoc, header_line_read by done.
    apply IH. simpl in Hfuel. lia.
Qed.

Lemma insertAll_app acc l1 l2 :
  insertAll acc (l1 ++ l2) = insertAll (insertAll acc l1) l2.
Proof. unfold insertAll. apply fold_left_app. Qed.

Lemma insertAll_absent acc l k :
  k ∉ l.*1 → insertAll acc l !! k = acc !! k.
Proof.
  revert acc. induction l as [|[k' v'] l IH]; intros acc Hk; [done|].
  rewrite fmap_cons, not_elem_of_cons in Hk. destruct Hk as [Hne Hk].
  unfold insertAll in *. simpl. rewrite IH by done.
  by rewrite lookup_insert_ne.
Qed.

Lemma ReadString_None delim reader :
  ReadString delim reader = None ↔ hasByte delim reader = false.
Proof.
  induction reader as [|c r IH]; simpl; [done|].
  destruct (Ascii.eqb c delim); [done|].
  destruct (ReadString delim r) as [[l rest]|]; [|tauto].
  split; [done|]. intros H. by apply IH in H.
Qed.

Lemma countByte_app c a b :
  countByte c (a +:+ b) = (countByte c a + countByte c b)%nat.
Proof. induction a as [|x a IH]; simpl; [done|]. rewrite IH. lia. Qed.

Lemma countByte_0 c s : countByte c s = 0%nat ↔ hasByte c s = false.
Proof.
  induction s as [|x s IH]; simpl; [done|].
  destruct (Ascii.eqb x c); [split; [lia | done]|]. by rewrite <- IH.
Qed.

(** [SplitN(s, sep, 2)] by the number of separators. *)
Lemma SplitN_2_count s sep :
  match SplitN s sep 2 with
  | [a] => countByte sep s = 0%nat
  | [a; b] => countByte sep s = S (countByte sep b)
  | _ => False
  end.
Proof.
  destruct (SplitN_2 s sep) as [[Hno ->] | (a & b & Hs & Ha & ->)].
  - by apply countByte_0.
  - rewrite Hs at 1. rewrite countByte_app. simpl. rewrite Ascii.eqb_refl.
    apply countByte_0 in Ha. lia.
Qed.

(** [SplitN(s, sep, 3)] has three parts only when [s] has two separators. *)
Lemma SplitN_3_count s sep a b c :
  SplitN s sep 3 = [a; b; c] → (2 ≤ countByte sep s)%nat.
Proof.
  intros (-> & _ & _)%SplitN_3_inv.
  rewrite countByte_app. simpl. rewrite Ascii.eqb_refl, countByte_app. simpl.
  rewrite Ascii.eqb_refl. lia.
Qed.

(** A request line, written and read again. *)
Lemma request_line_read method target version tail :
  hasByte " " method = false → hasByte LF method = false →
  hasByte " " target = false → hasByte LF target = false →
  hasByte LF version = false →
  endsClean (fun c => hasByte c CRLF) (String " " version) = true →
  ∃ raw,
    ReadString LF ((method +:+ " " +:+ target +:+ " " +:+ version +:+ CRLF) +:+ tail)
    = Some (raw, tail)
    ∧ SplitN (TrimRight raw CRLF) " " 3 = [method; target; version].
Proof.
  intros Hm1 Hm2 Ht1 Ht2 Hv1 Hv2.
  exists ((method +:+ String " " target) +:+ String " " version +:+ CRLF). split.
  - replace ((method +:+ " " +:+ target +:+ " " +:+ version +:+ CRLF) +:+ tail)
      with ((method +:+ " " +:+ target +:+ " " +:+ version +:+ String CR "")
              +:+ String LF tail)
      by (rewrite ?append_assoc; simpl; rewrite ?append_assoc; simpl;
          rewrite ?append_assoc; done).
    rewrite ReadString_app.
    + f_equal. f_equal. rewrite ?append_assoc. simpl. rewrite ?append_assoc. simpl.
      rewrite ?append_assoc. done.
    + rewrite !hasByte_app, Hm2, Ht2, Hv1. done.
  - rewrite <- append_assoc. rewrite TrimRight_CRLF.
    + rewrite append_assoc.
      replace ((method +:+ String " " target) +:+ String " " version)
        with (method +:+ String " " (target +:+ String " " version))
        by (rewrite ?append_assoc; done).
      by apply SplitN_3_cut.
    + by rewrite endsClean_app.
Qed.

(** A string is known by what follows it. *)
Lemma append_inv_r (a b c : string) : a +:+ c = b +:+ c → a = b.
Proof.
  intros H.
  assert (Hlen : String.length a = String.length b).
  { apply (f_equal String.length) in H. rewrite !length_append in H. lia. }
  revert b H Hlen. induction a as [|x a IH]; intros [|y b] H Hlen; simpl in *;
    try done.
  injection H as -> H. f_equal. apply IH; [done | lia].
Qed.

(** A version without CR and LF is not trimmed. *)
Lemma cutset_bytes a :
  Ascii.eqb a CR = false → Ascii.eqb a LF = false → hasByte a CRLF = false.
Proof.
  destruct a as [[] [] [] [] [] [] [] []]; vm_compute; intros H1 H2;
    first [reflexivity | discriminate H1 | discriminate H2].
Qed.

Lemma endsClean_no_cutset version :
  hasByte CR version = false → hasByte LF version = false →
  endsClean (fun c => hasByte c CRLF) (String " " version) = true.
Proof.
  intros Hcr Hlf. destruct version as [|a v]; [done|].
  change (endsClean (fun c => hasByte c CRLF) (String a v) = true).
  revert a Hcr Hlf. induction v as [|b v IH]; intros a Hcr Hlf.
  - cbn [endsClean]. apply negb_true_iff, cutset_bytes.
    + cbn [hasByte] in Hcr. by destruct (Ascii.eqb a CR).
    + cbn [hasByte] in Hlf. by destruct (Ascii.eqb a LF).
  - cbn [endsClean]. apply IH.
    + cbn [hasByte] in Hcr. by destruct (Ascii.eqb a CR).
    + cbn [hasByte] in Hlf. by destruct (Ascii.eqb a LF).
Qed.

Section ParserMore.

Variable url_Parse : string → option URL.

(** X13.  In every request that [ParseHTTPRequest] returns, the method is
    in upper case and holds no space and no line feed, the target holds no
    space and no line feed, the version holds no line feed, and every
    header has a name that is trimmed, in lower case, without colon or line
    feed, and a value that is trimmed and without line feed. *)
Theorem X13_parsed_request_is_clean (reader : string) (req : HTTPRequest)
    (rest : string) :
  ParseHTTPRequest url_Parse reader = Ok (req, rest) →
  (∀ taken, reader = taken +:+ req_Body req +:+ rest →
            allBytes isASCII taken = true) →
  ToUpper (req_Method req) = req_Method req
  ∧ hasByte " " (req_Method req) = false
  ∧ hasByte LF (req_Method req) = false
  ∧ hasByte " " (req_RequestTarget req) = false
  ∧ hasByte LF (req_RequestTarget req) = false
  ∧ hasByte LF (req_Version req) = false
  ∧ map_Forall (fun k v => cleanHeader (k, v)) (req_Headers req)
  ∧ ∃ taken, reader = taken +:+ req_Body req +:+ rest.
Proof.
  intros HP _. destruct (req_IsConnect req) eqn:Hc.
  - destruct (ParseHTTPRequest_connect _ _ _ _ HP Hc)
      as (line & p0 & portStr & Hline & Hparts & Hm & Hp0 & Hh & Hb & _).
    destruct (request_line_fields _ _ _ _ _ _ Hline Hparts) as (? & ? & ? & ? & ?).
    rewrite Hm, Hh, Hb. split_and!; try done.
    apply ReadString_Some in Hline as (-> & _). by exists line.
  - destruct (ParseHTTPRequest_plain _ _ _ _ HP Hc)
      as (line & reader1 & p0 & reader2 & Hline & Hparts & Hm & _ & Hh & _ & Hb).
    destruct (request_line_fields _ _ _ _ _ _ Hline Hparts) as (? & ? & ? & ? & ?).
    rewrite Hm. split_and!; try done.
    + apply ToUpper_ToUpper.
    + by rewrite hasByte_ToUpper_space.
    + by rewrite hasByte_ToUpper_LF.
    + unfold readHeaders in Hh.
      by apply readHeaderLines_clean in Hh; [|apply map_Forall_empty].
    + apply ReadString_Some in Hline as (-> & _).
      apply readHeaderLines_rest in Hh as [taken ->].
      apply readBody_Ok in Hb as [-> _].
      exists (line +:+ taken). by rewrite !append_assoc.
Qed.

(** X14.  A stream without line feed is refused with the error of the
    read, and a first line with fewer than two spaces, once CR and LF are
    trimmed from its end, with the error of the request line, whatever
    follows it. *)
Theorem X14_malformed_request_line (reader : string) :
  (hasByte LF reader = false →
   ParseHTTPRequest url_Parse reader = Err ErrReadRequestLine)
  ∧ (∀ line rest,
       ReadString LF reader = Some (line, rest) →
       (countByte " " (TrimRight line CRLF) < 2)%nat →
       ParseHTTPRequest url_Parse reader = Err ErrInvalidRequestLine).
Proof.
  split.
  - intros H%ReadString_None. unfold ParseHTTPRequest. by rewrite H.
  - intros line rest Hline Hcount. unfold ParseHTTPRequest. rewrite Hline.
    destruct (SplitN _ " " 3) as [|p0 [|p1 [|p2 [|]]]] eqn:Hparts; try done.
    apply SplitN_3_count in Hparts. lia.
Qed.

(** X15.  The target of CONNECT and the [Host] header are split at the
    first colon only, and [Atoi] reads no colon: a CONNECT target with two
    colons or more, as every IPv6 literal with a port has, is refused for
    its port, one without colon for its target, and so is a request in
    origin form whose [Host] header has two colons or more. *)
Theorem X15_second_colon_is_rejected (reader line rest p0 target version : string) :
  ReadString LF reader = Some (line, rest) →
  SplitN (TrimRight line CRLF) " " 3 = [p0; target; version] →
  (ToUpper p0 = "CONNECT" → (2 ≤ countByte ":" target)%nat →
   ParseHTTPRequest url_Parse reader = Err ErrInvalidConnectPort)
  ∧ (ToUpper p0 = "CONNECT" → countByte ":" target = 0%nat →
     ParseHTTPRequest url_Parse reader = Err ErrInvalidConnectTarget)
  ∧ (∀ headers reader2 hostHeader,
       ToUpper p0 ≠ "CONNECT" → isAbsoluteForm target = false →
       readHeaders rest = Ok (headers, reader2) →
       headers !! "host" = Some hostHeader →
       (2 ≤ countByte ":" hostHeader)%nat →
       ParseHTTPRequest url_Parse reader = Err ErrInvalidHostPort).
Proof.
  intros Hline Hparts. unfold ParseHTTPRequest. rewrite Hline, Hparts.
  split_and!.
  - intros Hm Hc. rewrite bool_decide_eq_true_2 by done.
    pose proof (SplitN_2_count target ":") as Hs.
    destruct (SplitN target ":" 2) as [|a [|b [|]]]; [done | lia | | done].
    rewrite Atoi_colon; [done|].
    destruct (hasByte ":" b) eqn:Hb; [done|]. apply countByte_0 in Hb. lia.
  - intros Hm Hc. rewrite bool_decide_eq_true_2 by done.
    pose proof (SplitN_2_count target ":") as Hs.
    destruct (SplitN target ":" 2) as [|a [|b [|]]]; [done | done | lia | done].
  - intros headers reader2 hostHeader Hm Ha Hh Hhost Hc.
    rewrite bool_decide_eq_false_2, Hh by done.
    unfold extractHostAndPort. rewrite Ha, Hhost.
    pose proof (SplitN_2_count hostHeader ":") as Hs.
    destruct (SplitN hostHeader ":" 2) as [|a [|b [|]]]; [done | lia | | done].
    rewrite Atoi_colon; [done|].
    destruct (hasByte ":" b) eqn:Hb; [done|]. apply countByte_0 in Hb. lia.
Qed.

(** X16.  A request in origin form that has parsed is a fixed point:
    the bytes [SerializeRequest] writes for it, in whatever order it visits
    the headers, parse to the same request, method, target, version,
    headers, body, host and port, with nothing left over. *)
Theorem X16_origin_form_round_trip (reader : string) (req : HTTPRequest)
    (rest : string) (hs : list (string * string)) :
  ParseHTTPRequest url_Parse reader = Ok (req, rest) →
  (∀ taken, reader = taken +:+ req_Body req +:+ rest →
            allBytes isASCII taken = true) →
  req_IsConnect req = false →
  isAbsoluteForm (req_RequestTarget req) = false →
  hs ≡ₚ map_to_list (req_Headers req) →
  ParseHTTPRequest url_Parse (SerializeRequest url_Parse hs req) = Ok (req, "").
Proof.
  intros HP _ Hplain Habs Hperm.
  destruct (ParseHTTPRequest_plain _ _ _ _ HP Hplain)
    as (raw & reader1 & p0 & reader2 & Hraw & Hparts & Hm & Hnc & Hheaders & Hhp & Hbody).
  destruct (request_line_fields _ _ _ _ _ _ Hraw Hparts) as (Hp1 & Hp2 & Ht1 & Ht2 & Hv1).
  assert (Hv2 : endsClean (fun c => hasByte c CRLF) (String " " (req_Version req)) = true).
  { apply ReadString_Some in Hraw as (_ & _ & l & -> & Hl).
    rewrite TrimRight_line in Hparts.
    pose proof (endsClean_TrimRightFunc (fun c => hasByte c CRLF) l) as Hends.
    apply SplitN_3_inv in Hparts as (Hsplit & _ & _). rewrite Hsplit in Hends.
    replace (p0 +:+ String " " (req_RequestTarget req +:+ String " " (req_Version req)))
      with ((p0 +:+ String " " (req_RequestTarget req)) +:+ String " " (req_Version req))
      in Hends by (rewrite ?append_assoc; done).
    by rewrite endsClean_app in Hends. }
  assert (Hclean : Forall cleanHeader hs).
  { unfold readHeaders in Hheaders.
    apply readHeaderLines_clean in Hheaders; [|apply map_Forall_empty].
    apply map_Forall_to_list in Hheaders. rewrite Hperm.
    eapply Forall_impl; [exact Hheaders|]. by intros [k v]. }
  unfold SerializeRequest. fold (headerBlock hs).
  unfold upstreamTarget. rewrite Habs.
  destruct (request_line_read (req_Method req) (req_RequestTarget req) (req_Version req)
              (headerBlock hs +:+ CRLF +:+ req_Body req))
    as (raw' & Hread & Hparts'); try done.
  { by rewrite Hm, hasByte_ToUpper_space. }
  { by rewrite Hm, hasByte_ToUpper_LF. }
  unfold ParseHTTPRequest. rewrite Hread, Hparts'.
  assert (Hup : ToUpper (req_Method req) = req_Method req)
    by (rewrite Hm; apply ToUpper_ToUpper).
  rewrite Hup, bool_decide_eq_false_2 by done.
  unfold readHeaders. rewrite readHeaderLines_serialized; [|done|]; cycle 1.
  { pose proof (length_headerBlock hs). rewrite length_append. simpl. lia. }
  rewrite (insertAll_visits _ _ Hperm), Hhp, (readBody_again _ _ _ _ Hbody).
  destruct req; simpl in *. by subst.
Qed.

(** X17.  The body is what [Content-Length] says, no more and no less:
    for a request in origin form with a [Host] header the parser resolves
    and a [Content-Length] of [n], between 0 and 10 MiB, a stream that ends
    before [n] bytes of body have arrived is refused with the error of the
    body, and otherwise the body is the first [n] bytes after the empty
    line and what follows them is left unread. *)
Theorem X17_body_is_framed_by_content_length (method target version : string)
    (hs : list (string * string)) (data hostHeader : string) (n : Z) :
  allBytes isASCII method = true → allBytes isASCII (headerLines hs) = true →
  hasByte " " method = false → hasByte LF method = false →
  hasByte " " target = false → hasByte LF target = false →
  hasByte CR version = false → hasByte LF version = false →
  ToUpper method ≠ "CONNECT" → isAbsoluteForm target = false →
  Forall plainHeader hs →
  storedHeaders hs !! "host" = Some hostHeader → resolvableHost hostHeader →
  storedHeaders hs !! "content-length" = Some (Itoa n) →
  0 ≤ n ≤ 10 * 1024 * 1024 →
  (len data < n →
   ParseHTTPRequest url_Parse
     ((method +:+ " " +:+ target +:+ " " +:+ version +:+ CRLF)
        +:+ headerLines hs +:+ CRLF +:+ data)
   = Err ErrReadBody)
  ∧ (n ≤ len data →
     ∃ host port,
       ParseHTTPRequest url_Parse
         ((method +:+ " " +:+ target +:+ " " +:+ version +:+ CRLF)
            +:+ headerLines hs +:+ CRLF +:+ data)
       = Ok ({| req_Method := ToUpper method; req_RequestTarget := target;
                req_Version := version; req_Headers := storedHeaders hs;
                req_Body := sliceTo (Z.to_nat n) data;
                req_Host := host; req_Port := port; req_IsConnect := false |},
             sliceFrom (Z.to_nat n) data)).
Proof.
  intros _ _ Hm1 Hm2 Ht1 Ht2 Hv1 Hv2 Hnc Habs Hhs Hhost Hres Hcl Hn.
  destruct (request_line_read method target version (headerLines hs +:+ CRLF +:+ data))
    as (raw & Hread & Hparts); try done.
  { by apply endsClean_no_cutset. }
  destruct (extractHostAndPort_origin url_Parse target (storedHeaders hs) hostHeader
              Habs Hhost Hres) as (host & port & Hhp).
  assert (Hparse : ParseHTTPRequest url_Parse
            ((method +:+ " " +:+ target +:+ " " +:+ version +:+ CRLF)
               +:+ headerLines hs +:+ CRLF +:+ data)
          = match ReadFull (Z.to_nat n) data with
            | None => Err ErrReadBody
            | Some (body, rest) =>
                Ok ({| req_Method := ToUpper method; req_RequestTarget := target;
                       req_Version := version; req_Headers := storedHeaders hs;
                       req_Body := body; req_Host := host; req_Port := port;
                       req_IsConnect := false |}, rest)
            end).
  { unfold ParseHTTPRequest. rewrite Hread, Hparts.
    rewrite bool_decide_eq_false_2 by done.
    unfold readHeaders. rewrite readHeaderLines_block; [|done|]; cycle 1.
    { pose proof (length_headerLines hs). rewrite length_append. simpl. lia. }
    fold (storedHeaders hs). rewrite Hhp. unfold readBody.
    rewrite Hcl, Atoi_Itoa by lia.
    replace (n <? 0) with false by lia.
    replace (n >? 10 * 1024 * 1024) with false by lia.
    by destruct (ReadFull _ _) as [[body rest]|]. }
  rewrite Hparse. unfold ReadFull. split; intros Hlen; unfold len in Hlen.
  - by rewrite (proj2 (Nat.leb_gt _ _)) by lia.
  - rewrite (proj2 (Nat.leb_le _ _)) by lia. eauto.
Qed.

End ParserMore.

(** X18.  Of several header lines whose names differ only in case or in
    blanks around them, the last one gives the value: the header loop
    stores each value under the name in lower case, trimmed, and a later
    line overwrites an earlier one. *)
Theorem X18_duplicate_header_last_wins (before after : list (string * string))
    (name value body : string) :
  allBytes isASCII (headerLines (before ++ (name, value) :: after)) = true →
  Forall plainHeader (before ++ (name, value) :: after) →
  Forall (fun nv => headerKey nv.1 ≠ headerKey name) after →
  ∃ headers,
    readHeaders (headerLines (before ++ (name, value) :: after) +:+ CRLF +:+ body)
    = Ok (headers, body)
    ∧ headers !! headerKey name = Some value.
Proof.
  intros _ Hplain Hafter. unfold readHeaders.
  rewrite readHeaderLines_block; [|done|]; cycle 1.
  { pose proof (length_headerLines (before ++ (name, value) :: after)).
    rewrite length_append. simpl. lia. }
  eexists. split; [done|].
  rewrite map_app, map_cons, insertAll_app. cbn [fst snd].
  change (insertAll ?m (?kv :: ?l)) with (insertAll (<[kv.1 := kv.2]> m) l).
  rewrite insertAll_absent; [apply lookup_insert_eq|].
  intros ((k & v) & Hk & Hin)%list_elem_of_fmap.
  apply list_elem_of_fmap in Hin as ([n' v'] & [= -> ->] & Hin).
  rewrite Forall_forall in Hafter. by apply (Hafter _ Hin).
Qed.

(** X18, an instance: [X-Tag] twice, in two spellings. *)
Lemma X18_duplicate_header_last_wins_witness :
  ∃ headers,
    readHeaders
      (headerLines ([("X-Tag", "one")] ++ ("x-tag ", "two") :: [("Host", "h")])
       +:+ CRLF +:+ "rest")
    = Ok (headers, "rest")
    ∧ headers !! headerKey "x-tag " = Some "two".
Proof.
  apply (X18_duplicate_header_last_wins [("X-Tag", "one")] [("Host", "h")]
           "x-tag " "two" "rest").
  - reflexivity.
  - repeat apply Forall_cons_2; [| | | apply Forall_nil_2];
      (split_and!; [reflexivity | reflexivity | split; [reflexivity | split; reflexivity]]).
  - apply Forall_cons_2; [|apply Forall_nil_2]. vm_compute. discriminate.
Defined.

(** The request of [postStream] is [postRequest], and [def] is left. *)
Lemma postStream_parsed :
  ParseHTTPRequest url_Parse_ref postStream = Ok (postRequest, "def").
Proof. vm_compute. reflexivity. Qed.

Lemma postStream_taken taken :
  postStream = taken +:+ req_Body postRequest +:+ "def" →
  allBytes isASCII taken = true.
Proof.
  intros H.
  apply (append_inv_r
           ("POST /x HTTP/1.1" +:+ CRLF +:+ "Host: h" +:+ CRLF
              +:+ "Content-Length: 3" +:+ CRLF +:+ CRLF)
           taken "abcdef") in H.
  by subst.
Qed.

(** X13, an instance: the request of [postStream]. *)
Lemma X13_parsed_request_is_clean_witness :
  ToUpper (req_Method postRequest) = req_Method postRequest
  ∧ hasByte " " (req_Method postRequest) = false
  ∧ hasByte LF (req_Method postRequest) = false
  ∧ hasByte " " (req_RequestTarget postRequest) = false
  ∧ hasByte LF (req_RequestTarget postRequest) = false
  ∧ hasByte LF (req_Version postRequest) = false
  ∧ map_Forall (fun k v => cleanHeader (k, v)) (req_Headers postRequest)
  ∧ ∃ taken, postStream = taken +:+ req_Body postRequest +:+ "def".
Proof.
  apply (X13_parsed_request_is_clean url_Parse_ref postStream postRequest "def").
  - apply postStream_parsed.
  - apply postStream_taken.
Defined.

(** X14, an instance: a request line that never ends, and one without
    version. *)
Lemma X14_malformed_request_line_witness :
  ParseHTTPRequest url_Parse_ref "GET / HTTP/1.1" = Err ErrReadRequestLine
  ∧ ParseHTTPRequest url_Parse_ref ("GET /" +:+ CRLF +:+ "Host: h" +:+ CRLF +:+ CRLF)
    = Err ErrInvalidRequestLine.
Proof.
  split.
  - apply (proj1 (X14_malformed_request_line url_Parse_ref "GET / HTTP/1.1")).
    reflexivity.
  - apply (proj2 (X14_malformed_request_line url_Parse_ref
                    ("GET /" +:+ CRLF +:+ "Host: h" +:+ CRLF +:+ CRLF))
             ("GET /" +:+ CRLF) ("Host: h" +:+ CRLF +:+ CRLF)).
    + reflexivity.
    + vm_compute. lia.
Defined.

(** X15, an instance: CONNECT to an IPv6 literal. *)
Lemma X15_second_colon_is_rejected_witness :
  (ToUpper "CONNECT" = "CONNECT" → (2 ≤ countByte ":" "[::1]:443")%nat →
   ParseHTTPRequest url_Parse_ref connectV6 = Err ErrInvalidConnectPort)
  ∧ (ToUpper "CONNECT" = "CONNECT" → countByte ":" "[::1]:443" = 0%nat →
     ParseHTTPRequest url_Parse_ref connectV6 = Err ErrInvalidConnectTarget)
  ∧ (∀ headers reader2 hostHeader,
       ToUpper "CONNECT" ≠ "CONNECT" → isAbsoluteForm "[::1]:443" = false →
       readHeaders "" = Ok (headers, reader2) →
       headers !! "host" = Some hostHeader →
       (2 ≤ countByte ":" hostHeader)%nat →
       ParseHTTPRequest url_Parse_ref connectV6 = Err ErrInvalidHostPort).
Proof.
  apply (X15_second_colon_is_rejected url_Parse_ref connectV6 connectV6 ""
           "CONNECT" "[::1]:443" "HTTP/1.1"); reflexivity.
Defined.

(** X16, an instance: the request of [postStream]. *)
Lemma X16_origin_form_round_trip_witness :
  ParseHTTPRequest url_Parse_ref
    (SerializeRequest url_Parse_ref (map_to_list (req_Headers postRequest)) postRequest)
  = Ok (postRequest, "").
Proof.
  apply (X16_origin_form_round_trip url_Parse_ref postStream postRequest "def").
  - apply postStream_parsed.
  - apply postStream_taken.
  - reflexivity.
  - reflexivity.
  - reflexivity.
Defined.

(** X17, an instance: [postStream], and the same request cut short. *)
Lemma X17_body_is_framed_by_content_length_witness :
  (len "abcdef" < 3 →
   ParseHTTPRequest url_Parse_ref
     (("POST" +:+ " " +:+ "/x" +:+ " " +:+ "HTTP/1.1" +:+ CRLF)
        +:+ headerLines [("Host", "h"); ("Content-Length", "3")] +:+ CRLF +:+ "abcdef")
   = Err ErrReadBody)
  ∧ (3 ≤ len "abcdef" →
     ∃ host port,
       ParseHTTPRequest url_Parse_ref
         (("POST" +:+ " " +:+ "/x" +:+ " " +:+ "HTTP/1.1" +:+ CRLF)
            +:+ headerLines [("Host", "h"); ("Content-Length", "3")] +:+ CRLF
            +:+ "abcdef")
       = Ok ({| req_Method := ToUpper "POST"; req_RequestTarget := "/x";
                req_Version := "HTTP/1.1";
                req_Headers := storedHeaders [("Host", "h"); ("Content-Length", "3")];
                req_Body := sliceTo (Z.to_nat 3) "abcdef";
                req_Host := host; req_Port := port; req_IsConnect := false |},
             sliceFrom (Z.to_nat 3) "abcdef")).
Proof.
  apply (X17_body_is_framed_by_content_length url_Parse_ref "POST" "/x" "HTTP/1.1"
           [("Host", "h"); ("Content-Length", "3")] "abcdef" "h" 3).
  - reflexivity.
  - reflexivity.
  - reflexivity.
  - reflexivity.
  - reflexivity.
  - reflexivity.
  - reflexivity.
  - reflexivity.
  - discriminate.
  - reflexivity.
  - repeat apply Forall_cons_2; [| | apply Forall_nil_2];
      (split_and!; [reflexivity | reflexivity | split; [reflexivity | split; reflexivity]]).
  - vm_compute. reflexivity.
  - left. reflexivity.
  - vm_compute. reflexivity.
  - lia.
Defined.

(** ** forwarder.go and server.go: what a connection gets *)

Lemma readBufferSize_pos : (0 < readBufferSize)%nat.
Proof. unfold readBufferSize. lia. Qed.

Lemma length_sliceFrom n s :
  String.length (sliceFrom n s) = (String.length s - n)%nat.
Proof.
  revert s. induction n as [|n IH]; intros [|c s]; simpl; try done.
Qed.

Lemma len_nil_inv s : String.length s = 0%nat → s = "".
Proof. by destruct s. Qed.


(** [streamBody] hands the client everything that is left of the stream,
    and fails exactly when the stream ends with an error. *)
Lemma streamBodyLoop_exact fuel reader e conn total total' err conn' :
  c_room conn = None → (String.length reader < fuel)%nat →
  streamBodyLoop fuel reader e conn total = (total', err, conn') →
  wrote conn reader conn' ∧ total' = total + len reader
  ∧ err = match e with EndEOF => false | EndError => true end.
Proof.
  revert reader conn total. induction fuel as [|fuel IH];
    intros reader conn total Hroom Hfuel; [lia|]. cbn [streamBodyLoop].
  pose proof readBufferSize_pos as Hpos.
  remember (Nat.min readBufferSize (String.length reader)) as k eqn:Hk.
  destruct (0 <? k)%nat eqn:Hk0.
  - apply Nat.ltb_lt in Hk0.
    destruct (writeAll_reliable conn (sliceTo k reader) Hroom) as (conn1 & -> & Hw).
    cbn iota beta.
    intros (Hy & -> & ->)%IH; [|apply Hw | rewrite length_sliceFrom; lia].
    pose proof (wrote_trans _ _ _ _ _ Hw Hy) as Hwr.
    rewrite sliceTo_sliceFrom in Hwr.
    assert (Hlen : len reader = len (sliceTo k reader) + len (sliceFrom k reader))
      by (by rewrite <- len_append, sliceTo_sliceFrom).
    split_and!; [done | lia | done].
  - apply Nat.ltb_ge in Hk0.
    assert (reader = "") as -> by (apply len_nil_inv; lia).
    destruct e; intros [= <- <- <-];
      (split_and!; [by apply wrote_refl | unfold len; simpl; lia | done]).
Qed.

Lemma streamBody_exact reader e conn total err conn' :
  c_room conn = None →
  streamBody reader e conn = (total, err, conn') →
  wrote conn reader conn' ∧ total = len reader
  ∧ err = match e with EndEOF => false | EndError => true end.
Proof.
  unfold streamBody. intros Hroom Hs.
  apply streamBodyLoop_exact in Hs as (Hw & -> & ->); [done | done | lia].
Qed.


Lemma Write_c_end conn p : c_end (Write conn p).2 = c_end conn.
Proof. unfold Write. destruct (c_room conn); [case_match|]; done. Qed.

Lemma writeAll_c_end conn data n err conn' :
  writeAll conn data = (n, err, conn') → c_end conn' = c_end conn.
Proof.
  unfold writeAll. destruct (0 <? len data); [|by intros [= _ _ <-]].
  pose proof (Write_c_end conn data) as Hc.
  destruct (Write conn data) as [[m e] conn1]. simpl in Hc.
  destruct e; by intros [= _ _ <-].
Qed.


(** Trimming on the right stops at a part that ends clean. *)
Lemma TrimRightFunc_keep p a b :
  a ≠ "" → endsClean p a = true →
  TrimRightFunc p (a +:+ b) = a +:+ TrimRightFunc p b.
Proof.
  intros Ha Hc. induction a as [|c a IH]; [done|].
  destruct a as [|d a].
  - simpl in *. destruct (TrimRightFunc p b); [|done].
    by apply negb_true_iff in Hc as ->.
  - change (String c (String d a) +:+ b) with (String c (String d a +:+ b)).
    cbn [TrimRightFunc]. rewrite IH by done. done.
Qed.

Lemma TrimRightFunc_head p c s :
  TrimRightFunc p (String c s) = "" ∨ ∃ r, TrimRightFunc p (String c s) = String c r.
Proof.
  simpl. destruct (TrimRightFunc p s); [destruct (p c)|]; eauto.
Qed.

(** The status code [forwardResponse] reads off a status line. *)
Lemma statusCode_read version code reason :
  version ≠ "" → startsClean isSpace version = true →
  hasByte " " version = false → 0 ≤ code ≤ 2 ^ 63 - 1 →
  match SplitN (TrimSpace (version +:+ " " +:+ Itoa code +:+ " " +:+ reason +:+ CRLF))
          " " 3 with
  | _ :: c :: _ => default 0 (Atoi c)
  | _ => 0
  end = code.
Proof.
  intros Hv1 Hv2 Hv3 Hcode.
  destruct (Itoa_digits code) as [Hd Hne]; [lia|].
  pose proof (digits_no_byte " " _ eq_refl Hd) as Hsp.
  pose proof (digits_endsClean _ Hd) as Hec.
  unfold TrimSpace. rewrite TrimLeftFunc_clean; cycle 1.
  { by destruct version. }
  replace (version +:+ " " +:+ Itoa code +:+ " " +:+ reason +:+ CRLF)
    with ((version +:+ " " +:+ Itoa code) +:+ String " " (reason +:+ CRLF))
    by (by rewrite !append_assoc).
  rewrite TrimRightFunc_keep; cycle 1.
  { by destruct version. }
  { rewrite endsClean_app by (by destruct (Itoa code)).
    destruct (Itoa code) as [|c r] eqn:Hi; [done|]. exact Hec. }
  rewrite append_assoc. change (" " +:+ Itoa code) with (String " " (Itoa code)).
  change (String " " (Itoa code) +:+ ?t) with (String " " (Itoa code +:+ t)).
  change (SplitN ?s " " 3) with
    (match Index s " " with
     | None => [s]
     | Some i => sliceTo i s :: SplitN (sliceFrom (S i) s) " " 2
     end).
  rewrite Index_app by done. rewrite sliceFrom_S_app.
  destruct (TrimRightFunc_head isSpace " " (reason +:+ CRLF)) as [-> | [r ->]].
  - rewrite append_nil_r.
    destruct (SplitN_2 (Itoa code) " ") as [[_ ->] | (a & b & Hs & _)].
    + by rewrite Atoi_Itoa by lia.
    + rewrite Hs, hasByte_app in Hsp. simpl in Hsp. by rewrite orb_true_r in Hsp.
  - rewrite SplitN_2_cut by done. by rewrite Atoi_Itoa by lia.
Qed.

(** The header loop of [forwardResponse] on a header block that is closed
    by an empty line. *)
Lemma forwardHeaderLines_block ls blank body fuel conn n :
  c_room conn = None → Forall headerLine ls →
  blank = CRLF ∨ blank = String LF "" →
  (length ls < fuel)%nat →
  ∃ conn',
    forwardHeaderLines fuel (linesText ls +:+ blank +:+ body) conn n
    = (n + len (linesText ls +:+ blank), false, conn', body)
    ∧ wrote conn (linesText ls +:+ blank) conn'.
Proof.
  intros Hroom Hls Hblank. revert fuel conn n Hroom.
  induction Hls as [|l ls (Hl1 & Hl2 & Hl3) Hls IH]; intros fuel conn n Hroom Hfuel.
  - destruct fuel as [|fuel]; [simpl in Hfuel; lia|].
    cbn [linesText fold_right forwardHeaderLines].
    assert (Hr : ReadString LF ("" +:+ blank +:+ body) = Some (blank, body))
      by (by destruct Hblank as [-> | ->]).
    rewrite Hr.
    destruct (writeAll_reliable conn blank Hroom) as (conn1 & -> & Hw).
    cbn iota beta.
    replace (bool_decide (blank = CRLF) || bool_decide (blank = String LF ""))
      with true by (by destruct Hblank as [-> | ->]).
    exists conn1. done.
  - destruct fuel as [|fuel]; [simpl in Hfuel; lia|].
    cbn [linesText fold_right]. fold (linesText ls).
    cbn [forwardHeaderLines].
    replace ((l +:+ String LF (linesText ls)) +:+ blank +:+ body)
      with (l +:+ String LF (linesText ls +:+ blank +:+ body))
      by (by rewrite !append_assoc).
    rewrite ReadString_app by done.
    destruct (writeAll_reliable conn (l +:+ String LF "") Hroom) as (conn1 & -> & Hw).
    cbn iota beta.
    replace (bool_decide (l +:+ String LF "" = CRLF)
             || bool_decide (l +:+ String LF "" = String LF "")) with false; cycle 1.
    { symmetry. apply orb_false_iff. split; apply bool_decide_eq_false_2.
      - destruct l as [|a [|b l]]; simpl; try done.
        + intros [= ->]. done.
        + by destruct l.
      - destruct l as [|a l]; simpl; [done|]. by destruct l. }
    destruct (IH fuel conn1 (n + len (l +:+ String LF "")) (proj2 Hw))
      as (conn' & -> & Hw'); [simpl in Hfuel; lia|].
    exists conn'. split.
    + f_equal. f_equal. f_equal. unfold len. rewrite !length_append. simpl.
      rewrite ?length_append. lia.
    + replace ((l +:+ String LF (linesText ls)) +:+ blank)
        with ((l +:+ String LF "") +:+ linesText ls +:+ blank)
        by (by rewrite !append_assoc).
      by eapply wrote_trans.
Qed.

(** [forwardResponse] on a response with a status line, a header block
    closed by an empty line, and a body that ends with the stream. *)
Lemma forwardResponse_wellformed upstreamConn conn version code reason ls blank body :
  c_room conn = None → c_end upstreamConn = EndEOF →
  c_in upstreamConn
  = (version +:+ " " +:+ Itoa code +:+ " " +:+ reason +:+ CRLF)
      +:+ linesText ls +:+ blank +:+ body →
  version ≠ "" → startsClean isSpace version = true →
  hasByte " " version = false → hasByte LF version = false →
  hasByte LF reason = false → 0 ≤ code ≤ 2 ^ 63 - 1 →
  Forall headerLine ls → blank = CRLF ∨ blank = String LF "" →
  ∃ conn',
    forwardResponse upstreamConn conn
    = (code, len (c_in upstreamConn), false, conn')
    ∧ wrote conn (c_in upstreamConn) conn'.
Proof.
  intros Hroom Hend Hin Hv1 Hv2 Hv3 Hv4 Hr Hcode Hls Hblank.
  destruct (Itoa_digits code) as [Hd _]; [lia|].
  pose proof (digits_no_byte LF _ eq_refl Hd) as Hlf.
  unfold forwardResponse. rewrite Hin, Hend.
  set (tail := linesText ls +:+ blank +:+ body).
  assert (Hline : (version +:+ " " +:+ Itoa code +:+ " " +:+ reason +:+ CRLF) +:+ tail
                  = (version +:+ " " +:+ Itoa code +:+ " " +:+ reason +:+ String CR "")
                      +:+ String LF tail).
  { rewrite ?append_assoc. simpl. rewrite ?append_assoc. simpl.
    rewrite ?append_assoc. done. }
  rewrite Hline, ReadString_app; cycle 1.
  { rewrite !hasByte_app, Hv4, Hlf, Hr. done. }
  cbn beta iota zeta.
  replace ((version +:+ " " +:+ Itoa code +:+ " " +:+ reason +:+ String CR "")
             +:+ String LF "")
    with (version +:+ " " +:+ Itoa code +:+ " " +:+ reason +:+ CRLF)
    by (rewrite ?append_assoc; simpl; rewrite ?append_assoc; simpl;
        rewrite ?append_assoc; done).
  rewrite statusCode_read by done.
  set (statusLine := version +:+ " " +:+ Itoa code +:+ " " +:+ reason +:+ CRLF).
  destruct (writeAll_reliable conn statusLine Hroom) as (conn1 & -> & Hw1).
  cbn iota beta. subst tail.
  destruct (forwardHeaderLines_block ls blank body
              (String.length (linesText ls +:+ blank +:+ body)) conn1
              (len statusLine) (proj2 Hw1) Hls Hblank) as (conn2 & -> & Hw2).
  { assert (Hlen : ∀ l, (length l ≤ String.length (linesText l))%nat).
    { induction l as [|a l IH]; simpl; [done|]. rewrite length_append. simpl. lia. }
    specialize (Hlen ls). rewrite length_append.
    destruct Hblank as [-> | ->]; simpl; lia. }
  cbn iota beta.
  destruct (streamBody body EndEOF conn2) as [[n3 err3] conn3] eqn:Hs.
  apply streamBody_exact in Hs as (Hw3 & -> & ->); [|apply Hw2].
  exists conn3. split.
  - f_equal. f_equal. f_equal. rewrite <- Hline. subst statusLine.
    rewrite !len_append. lia.
  - rewrite <- Hline.
    eapply wrote_trans; [done|].
    replace (linesText ls +:+ blank +:+ body)
      with ((linesText ls +:+ blank) +:+ body) by (by rewrite append_assoc).
    by eapply wrote_trans.
Qed.

Lemma Write_wrote conn p : c_room conn = None → wrote conn p (Write conn p).2.
Proof. intros H. by destruct (Write_reliable conn p H) as (conn' & -> & Hw). Qed.

Lemma write_header_lines hs conn :
  c_room conn = None →
  wrote conn (headerLines hs)
    (fold_left (fun conn kv => (Write conn (kv.1 +:+ ": " +:+ kv.2 +:+ CRLF)).2) hs conn).
Proof.
  revert conn. induction hs as [|kv hs IH]; intros conn Hroom; simpl.
  - by apply wrote_refl.
  - pose proof (Write_wrote conn (kv.1 +:+ ": " +:+ kv.2 +:+ CRLF) Hroom) as Hw.
    eapply wrote_trans; [exact Hw|]. apply IH, Hw.
Qed.

Lemma serveCachedResponse_reliable hs conn entry :
  c_room conn = None →
  wrote conn
    (("HTTP/1.1 " +:+ Itoa (ce_StatusCode entry) +:+ " OK" +:+ CRLF)
       +:+ headerLines hs +:+ CRLF +:+ ce_Body entry)
    (serveCachedResponse hs conn entry).
Proof.
  intros Hroom. unfold serveCachedResponse.
  pose proof (Write_wrote conn ("HTTP/1.1 " +:+ Itoa (ce_StatusCode entry) +:+ " OK" +:+ CRLF)
                Hroom) as H1.
  set (conn1 := (Write conn _).2) in *.
  pose proof (write_header_lines hs conn1 (proj2 H1)) as H2.
  set (conn2 := fold_left _ hs conn1) in *.
  pose proof (Write_wrote conn2 CRLF (proj2 H2)) as H3.
  set (conn3 := (Write conn2 CRLF).2) in *.
  pose proof (Write_wrote conn3 (ce_Body entry) (proj2 H3)) as H4.
  eapply wrote_trans; [exact H1|]. eapply wrote_trans; [exact H2|].
  eapply wrote_trans; [exact H3|]. exact H4.
Qed.

Lemma visits_empty_inv {V} (order : list string) :
  visits (∅ : gmap string V) order → order = [].
Proof.
  intros [_ H]. destruct order as [|k order]; [done|].
  destruct (proj1 (H k)) as [v Hv]; [by left|]. by rewrite lookup_empty in Hv.
Qed.

(** What [Get] leaves of a cache. *)
Lemma Get_keeps now key c :
  dom (entries (Get now key c).2) = dom (entries c)
  ∧ GetStats (Get now key c).2 = GetStats c
  ∧ (entries c = ∅ → Get now key c = (None, c)).
Proof.
  unfold Get. destruct (entries c !! key) as [entry|] eqn:Hk; simpl.
  - split_and!.
    + rewrite dom_insert_L. apply elem_of_dom_2 in Hk. set_solver.
    + unfold GetStats. simpl. rewrite map_size_insert_Some by eauto. done.
    + intros He. by rewrite He, lookup_empty in Hk.
  - done.
Qed.

Section ServerMore.

Variable url_Parse : string → option URL.


(** A CONNECT request line with a port in decimal parses to its host and
    port. *)
Lemma ParseHTTPRequest_CONNECT host port version rest :
  hasByte " " host = false → hasByte LF host = false → hasByte ":" host = false →
  hasByte CR version = false → hasByte LF version = false →
  0 ≤ port ≤ 2 ^ 63 - 1 →
  ParseHTTPRequest url_Parse
    (("CONNECT" +:+ " " +:+ (host +:+ ":" +:+ Itoa port) +:+ " " +:+ version +:+ CRLF)
       +:+ rest)
  = Ok ({| req_Method := "CONNECT";
           req_RequestTarget := host +:+ ":" +:+ Itoa port;
           req_Version := version; req_Headers := ∅; req_Body := "";
           req_Host := host; req_Port := port; req_IsConnect := true |}, rest).
Proof.
  intros Hh1 Hh2 Hh3 Hv1 Hv2 Hport.
  destruct (Itoa_digits port) as [Hd _]; [lia|].
  destruct (request_line_read "CONNECT" (host +:+ ":" +:+ Itoa port) version rest)
    as (raw & Hread & Hparts); try done.
  { rewrite hasByte_app, Hh1. simpl. by rewrite (digits_no_byte " " _ eq_refl Hd). }
  { rewrite hasByte_app, Hh2. simpl. by rewrite (digits_no_byte LF _ eq_refl Hd). }
  { by apply endsClean_no_cutset. }
  unfold ParseHTTPRequest. rewrite Hread, Hparts.
  change (bool_decide (ToUpper "CONNECT" = "CONNECT")) with true. cbn iota.
  change (host +:+ ":" +:+ Itoa port) with (host +:+ String ":" (Itoa port)).
  rewrite SplitN_2_cut by done. by rewrite Atoi_Itoa by lia.
Qed.

(** X20.  A CONNECT request for [host:port], with no token configured,
    tunnelling enabled, the host not blocked and the upstream reachable,
    from a client that takes every byte: the client receives
    [HTTP/1.1 200 Connection Established] and an empty line, then the bytes
    the tunnel passes down to it, and when the tunnel ends without error
    the log entry is [ALLOWED] with status 200 and both byte counts 0,
    whatever went through the tunnel; the cache is left as it was. *)
Theorem X20_connect_tunnel_is_established (s : Server) (w : World) (clientIP : string)
    (clientPort : Z) (conn : Conn) (host : string) (port : Z) (version rest : string)
    (upstreamConn : Conn) :
  c_in conn
  = ("CONNECT" +:+ " " +:+ (host +:+ ":" +:+ Itoa port) +:+ " " +:+ version +:+ CRLF)
      +:+ rest →
  hasByte " " host = false → hasByte LF host = false →
  hasByte ":" host = false →
  hasByte CR version = false → hasByte LF version = false →
  0 ≤ port ≤ 2 ^ 63 - 1 →
  AuthToken (config s) = "" → EnableConnectTunnel (config s) = true →
  (IsBlocked (rangeRules w (blockedDomains (filter s))) (filter s) host).1 = false →
  dial w (host +:+ ":" +:+ Itoa port) = Some upstreamConn →
  tunnelErr w = false →
  c_room conn = None →
  ∃ conn',
    handleConnection url_Parse s w clientIP clientPort conn
    = (conn', cache s,
       logRequest w clientIP clientPort host port "CONNECT"
         (host +:+ ":" +:+ Itoa port) "ALLOWED" 200 0 0 "")
    ∧ wrote conn
        (("HTTP/1.1 200 Connection Established" +:+ CRLF +:+ CRLF) +:+ tunnelDown w)
        conn'.
Proof.
  intros Hin Hh1 Hh2 Hh3 Hv1 Hv2 Hport Htok Htun Hblk Hdial Herr Hroom.
  unfold handleConnection.
  rewrite Hin, ParseHTTPRequest_CONNECT by done.
  cbn [req_Method req_RequestTarget req_Headers req_Host req_Port req_IsConnect].
  rewrite Htok, Htun.
  change (bool_decide ("" ≠ "") && _) with false. cbn [negb].
  destruct (IsBlocked _ _ _) as [blocked rule]. simpl in Hblk. subst blocked.
  unfold HandleCONNECT.
  cbn [req_Host req_Port].
  unfold JoinHostPort. rewrite Hh3, Hdial.
  destruct (Write_reliable conn ("HTTP/1.1 200 Connection Established" +:+ CRLF +:+ CRLF)
              Hroom) as (conn1 & -> & Hw1).
  destruct (Write_reliable conn1 (tunnelDown w) (proj2 Hw1)) as (conn2 & HW2 & Hw2).
  rewrite HW2, Herr. exists conn2. split; [done|]. by eapply wrote_trans.
Qed.

(** X21.  A request that is parsed, authorised, not CONNECT, not blocked
    and not in the cache, from a client that takes every byte, to an
    upstream that takes the request and answers with a status line
    [version code reason], header lines closed by an empty line, and a body
    that ends with an orderly close: the client receives the upstream's
    bytes unchanged and nothing else, the cache is left as it was, and the
    log entry is [ALLOWED] with the status code of the status line, the
    length of the serialized request and the length of the response. *)
Theorem X21_allowed_request_is_relayed (s : Server) (w : World) (clientIP : string)
    (clientPort : Z) (conn : Conn) (req : HTTPRequest) (rest : string)
    (upstreamConn : Conn) (version : string) (code : Z) (reason : string)
    (ls : list string) (blank body : string) :
  ParseHTTPRequest url_Parse (c_in conn) = Ok (req, rest) →
  (AuthToken (config s) = ""
   ∨ default "" (req_Headers req !! "proxy-authorization") = AuthToken (config s)) →
  req_IsConnect req = false →
  (IsBlocked (rangeRules w (blockedDomains (filter s))) (filter s) (req_Host req)).1
    = false →
  (∀ c, cache s = Some c →
        MakeCacheKey (req_Method req) (req_RequestTarget req) ≠ "" →
        entries c !! MakeCacheKey (req_Method req) (req_RequestTarget req) = None) →
  c_room conn = None →
  dial w (JoinHostPort (req_Host req) (Itoa (req_Port req))) = Some upstreamConn →
  c_room upstreamConn = None → c_end upstreamConn = EndEOF →
  c_in upstreamConn
  = (version +:+ " " +:+ Itoa code +:+ " " +:+ reason +:+ CRLF)
      +:+ linesText ls +:+ blank +:+ body →
  allBytes isASCII version = true → allBytes isASCII reason = true →
  version ≠ "" → startsClean isSpace version = true →
  hasByte " " version = false → hasByte LF version = false →
  hasByte LF reason = false → 0 ≤ code ≤ 2 ^ 63 - 1 →
  Forall headerLine ls → blank = CRLF ∨ blank = String LF "" →
  ∃ conn',
    handleConnection url_Parse s w clientIP clientPort conn
    = (conn', cache s,
       logRequest w clientIP clientPort (req_Host req) (req_Port req)
         (req_Method req) (req_RequestTarget req) "ALLOWED" code
         (len (SerializeRequest url_Parse (rangeHeaders w (req_Headers req)) req))
         (len (c_in upstreamConn)) "")
    ∧ wrote conn (c_in upstreamConn) conn'.
Proof.
  intros HP Hauth Hplain Hblk Hmiss Hroom Hdial Hup Hend Hin _ _ Hv1 Hv2 Hv3 Hv4 Hr
    Hcode Hls Hblank.
  assert (Hfwd : ∃ conn',
    ForwardRequest url_Parse w req conn
    = (code, len (SerializeRequest url_Parse (rangeHeaders w (req_Headers req)) req),
       len (c_in upstreamConn), None, conn')
    ∧ wrote conn (c_in upstreamConn) conn').
  { unfold ForwardRequest. rewrite Hdial.
    destruct (writeAll_reliable upstreamConn
                (SerializeRequest url_Parse (rangeHeaders w (req_Headers req)) req) Hup)
      as (upstreamConn' & Hsend & _).
    rewrite Hsend. cbn iota beta.
    pose proof (writeAll_c_in _ _ _ _ _ Hsend) as Hin'.
    pose proof (writeAll_c_end _ _ _ _ _ Hsend) as Hend'.
    destruct (forwardResponse_wellformed upstreamConn' conn version code reason ls
                blank body) as (conn' & Hf & Hw); try done; try congruence.
    rewrite Hf, Hin'. exists conn'. split; [done|]. by rewrite <- Hin'. }
  destruct Hfwd as (conn' & Hf & Hw). exists conn'. split; [|done].
  unfold handleConnection. rewrite HP, Hplain.
  replace (bool_decide (AuthToken (config s) ≠ "") && _) with false; cycle 1.
  { symmetry. apply andb_false_iff. destruct Hauth as [Ha|Ha].
    - left. by apply bool_decide_eq_false_2; intros [].
    - right. by apply bool_decide_eq_false_2; intros []. }
  destruct (IsBlocked _ _ _) as [blocked rule]. simpl in Hblk. subst blocked.
  rewrite Hf.
  destruct (cache s) as [c|] eqn:Hcache; [|done].
  case_bool_decide as Hkey; [|done].
  unfold Get. by rewrite (Hmiss c eq_refl Hkey).
Qed.

(** X22.  A request that is parsed and authorised (and, for CONNECT, with
    tunnelling enabled) to a host that [IsBlocked] blocks is answered 403
    and logged [BLOCKED] with status 403 and the rule that matched, the
    cache untouched: the client is sent the 403 response, status line,
    three headers, blank line and body, as far as it takes the bytes, and
    nothing else.  The outcome is the same whatever the upstream is or
    does, so no upstream is involved. *)
Theorem X22_blocked_host_is_refused (s : Server) (w : World) (clientIP : string)
    (clientPort : Z) (conn : Conn) (req : HTTPRequest) (rest rule : string) :
  ParseHTTPRequest url_Parse (c_in conn) = Ok (req, rest) →
  (AuthToken (config s) = ""
   ∨ default "" (req_Headers req !! "proxy-authorization") = AuthToken (config s)) →
  (req_IsConnect req = true → EnableConnectTunnel (config s) = true) →
  IsBlocked (rangeRules w (blockedDomains (filter s))) (filter s) (req_Host req)
    = (true, rule) →
  handleConnection url_Parse s w clientIP clientPort conn
  = (sendErrorResponse conn 403 "Forbidden", cache s,
     logRequest w clientIP clientPort (req_Host req) (req_Port req)
       (req_Method req) (req_RequestTarget req) "BLOCKED" 403 0 0 rule)
  ∧ c_out (handleConnection url_Parse s w clientIP clientPort conn).1.1
    = c_out conn
      +:+ sent conn
            ("HTTP/1.1 403 Forbidden" +:+ CRLF
             +:+ "Content-Type: text/plain" +:+ CRLF
             +:+ "Content-Length: 13" +:+ CRLF
             +:+ "Connection: close" +:+ CRLF
             +:+ CRLF
             +:+ "403 Forbidden")
  ∧ le_Action (handleConnection url_Parse s w clientIP clientPort conn).2 = "BLOCKED"
  ∧ le_UpstreamStatus (handleConnection url_Parse s w clientIP clientPort conn).2
    = 403
  ∧ le_BlockedRule (handleConnection url_Parse s w clientIP clientPort conn).2 = rule
  ∧ ∀ w', rangeRules w' = rangeRules w → now w' = now w →
          handleConnection url_Parse s w' clientIP clientPort conn
          = handleConnection url_Parse s w clientIP clientPort conn.
Proof.
  intros HP Hauth Htunnel Hblk.
  assert (Heq : ∀ w', rangeRules w' = rangeRules w → now w' = now w →
    handleConnection url_Parse s w' clientIP clientPort conn
    = (sendErrorResponse conn 403 "Forbidden", cache s,
       logRequest w clientIP clientPort (req_Host req) (req_Port req)
         (req_Method req) (req_RequestTarget req) "BLOCKED" 403 0 0 rule)).
  { intros w' Hr Hn. unfold handleConnection. rewrite HP.
    replace (bool_decide (AuthToken (config s) ≠ "") && _) with false; cycle 1.
    { symmetry. apply andb_false_iff. destruct Hauth as [Ha|Ha].
      - left. by apply bool_decide_eq_false_2; intros [].
      - right. by apply bool_decide_eq_false_2; intros []. }
    rewrite Hr, Hblk. unfold logRequest. rewrite Hn.
    destruct (req_IsConnect req); [|done]. by rewrite Htunnel. }
  rewrite (Heq w eq_refl eq_refl).
  split_and!; [done | | done | done | done |].
  - cbn [fst]. apply sendErrorResponse_sent.
  - intros w' Hr Hn. by apply Heq.
Qed.

(** X23.  [handleConnection] never stores a response: whatever the
    request and the upstream, a server without cache stays without, and a
    cache keeps its keys, its number of entries and its byte count.  A
    cache that is empty therefore stays empty, and no request is answered
    from it. *)
Theorem X23_connection_keeps_cache (s : Server) (w : World) (clientIP : string)
    (clientPort : Z) (conn conn' : Conn) (cache' : option Cache) (log : LogEntry) :
  handleConnection url_Parse s w clientIP clientPort conn = (conn', cache', log) →
  (cache s = None → cache' = None)
  ∧ (∀ c, cache s = Some c →
          ∃ c', cache' = Some c'
                ∧ dom (entries c') = dom (entries c)
                ∧ GetStats c' = GetStats c)
  ∧ ((∀ c, cache s = Some c → entries c = ∅) →
     cache' = cache s ∧ le_Action log ≠ "CACHE_HIT").
Proof.
  intros H.
  assert (Hsame : cache' = cache s → le_Action log ≠ "CACHE_HIT" →
    (cache s = None → cache' = None)
    ∧ (∀ c, cache s = Some c →
            ∃ c', cache' = Some c'
                  ∧ dom (entries c') = dom (entries c)
                  ∧ GetStats c' = GetStats c)
    ∧ ((∀ c, cache s = Some c → entries c = ∅) →
       cache' = cache s ∧ le_Action log ≠ "CACHE_HIT")).
  { intros -> Hl. split_and!; [done | | done]. intros c Hc. by exists c. }
  unfold handleConnection in H.
  destruct (ParseHTTPRequest url_Parse (c_in conn)) as [[req rest]|e] eqn:HP.
  2:{ injection H as <- <- <-. by apply Hsame. }
  destruct (_ && _).
  { injection H as <- <- <-. by apply Hsame. }
  destruct (req_IsConnect req) eqn:Hc.
  - destruct (negb _).
    { injection H as <- <- <-. by apply Hsame. }
    destruct (IsBlocked _ _ _) as [[] rule].
    { injection H as <- <- <-. by apply Hsame. }
    destruct (HandleCONNECT w req conn) as [[err|] conn1];
      injection H as <- <- <-; by apply Hsame.
  - destruct (IsBlocked _ _ _) as [[] rule].
    { injection H as <- <- <-. by apply Hsame. }
    destruct (ForwardRequest url_Parse w req conn)
      as [[[[st up] down] err] conn0] eqn:Hf.
    destruct (cache s) as [c|] eqn:Hcache.
    + pose proof (Get_keeps (now w)
                    (MakeCacheKey (req_Method req) (req_RequestTarget req)) c)
        as (Hdom & Hstats & Hempty).
      case_bool_decide.
      * destruct (Get _ _ _) as [[entry|] c1] eqn:HG; simpl in *.
        -- injection H as <- <- <-. split_and!; [done | |].
           ++ intros c0 [= <-]. by exists c1.
           ++ intros He. specialize (Hempty (He c eq_refl)). done.
        -- assert (Hlog : cache' = Some c1 ∧ le_Action log ≠ "CACHE_HIT")
             by (destruct err; injection H as <- <- <-; done).
           destruct Hlog as [-> Hlog]. split_and!; [done | |].
           ++ intros c0 [= <-]. by exists c1.
           ++ intros He. specialize (Hempty (He c eq_refl)).
              injection Hempty as ->. done.
      * assert (Hlog : cache' = Some c ∧ le_Action log ≠ "CACHE_HIT")
          by (destruct err; injection H as <- <- <-; done).
        destruct Hlog as [-> Hlog]. split_and!; [done | | done].
        intros c0 [= <-]. by exists c.
    + assert (Hlog : cache' = None ∧ le_Action log ≠ "CACHE_HIT")
        by (destruct err; injection H as <- <- <-; done).
      destruct Hlog as [-> Hlog]. done.
Qed.

(** X24.  A GET request that is parsed, authorised and not blocked, whose
    key [GET:target] is in the cache, from a client that takes every byte:
    the client receives [HTTP/1.1 code OK], the stored headers in the order
    Go visits them, an empty line and the stored body; the log entry is
    [CACHE_HIT] with the stored status code, 0 bytes upstream and the
    length of the body downstream; and the key becomes the most recently
    used one, the cache keeping its keys and its statistics. *)
Theorem X24_cache_hit_is_served (s : Server) (w : World) (clientIP : string)
    (clientPort : Z) (conn : Conn) (req : HTTPRequest) (rest : string)
    (c : Cache) (entry : CacheEntry) :
  ParseHTTPRequest url_Parse (c_in conn) = Ok (req, rest) →
  (AuthToken (config s) = ""
   ∨ default "" (req_Headers req !! "proxy-authorization") = AuthToken (config s)) →
  req_Method req = "GET" →
  (IsBlocked (rangeRules w (blockedDomains (filter s))) (filter s) (req_Host req)).1
    = false →
  cache s = Some c →
  entries c !! ("GET:" +:+ req_RequestTarget req) = Some entry →
  c_room conn = None →
  ∃ conn' c',
    handleConnection url_Parse s w clientIP clientPort conn
    = (conn', Some c',
       logRequest w clientIP clientPort (req_Host req) (req_Port req) "GET"
         (req_RequestTarget req) "CACHE_HIT" (ce_StatusCode entry) 0
         (len (ce_Body entry)) "")
    ∧ wrote conn
        (("HTTP/1.1 " +:+ Itoa (ce_StatusCode entry) +:+ " OK" +:+ CRLF)
           +:+ headerLines (rangeHeaders w (ce_Headers entry)) +:+ CRLF
           +:+ ce_Body entry)
        conn'
    ∧ last (accessOrder c') = Some ("GET:" +:+ req_RequestTarget req)
    ∧ dom (entries c') = dom (entries c)
    ∧ GetStats c' = GetStats c.
Proof.
  intros HP Hauth Hget Hblk Hcache Hentry Hroom.
  assert (Hplain : req_IsConnect req = false).
  { rewrite (ParseHTTPRequest_IsConnect _ _ _ _ HP), Hget. done. }
  unfold handleConnection. rewrite HP, Hplain.
  replace (bool_decide (AuthToken (config s) ≠ "") && _) with false; cycle 1.
  { symmetry. apply andb_false_iff. destruct Hauth as [Ha|Ha].
    - left. by apply bool_decide_eq_false_2; intros [].
    - right. by apply bool_decide_eq_false_2; intros []. }
  destruct (IsBlocked _ _ _) as [blocked rule]. simpl in Hblk. subst blocked.
  rewrite Hcache, Hget.
  change (MakeCacheKey "GET" (req_RequestTarget req))
    with ("GET:" +:+ req_RequestTarget req).
  rewrite bool_decide_eq_true_2 by done.
  unfold Get. rewrite Hentry. cbn [ce_Headers ce_StatusCode ce_Body set_LastAccessed].
  eexists _, _. split; [reflexivity|]. split_and!.
  - apply (serveCachedResponse_reliable _ conn (set_LastAccessed (now w) entry) Hroom).
  - simpl. unfold moveToEnd. apply last_snoc.
  - simpl. rewrite dom_insert_L. apply elem_of_dom_2 in Hentry. set_solver.
  - unfold GetStats. simpl. by rewrite map_size_insert_Some by eauto.
Qed.

End ServerMore.

(** The requests of the examples, parsed. *)
Lemma getExample_parsed :
  ParseHTTPRequest url_Parse_ref getExample = Ok (exampleRequest, "").
Proof. vm_compute. reflexivity. Qed.

Lemma getMal_parsed : ParseHTTPRequest url_Parse_ref getMal = Ok (malRequest, "").
Proof. vm_compute. reflexivity. Qed.


(** X21, an instance: the upstream of [okWorld]. *)
Lemma X21_allowed_request_is_relayed_witness :
  ∃ conn',
    handleConnection url_Parse_ref openServer okWorld "10.0.0.9" 4242
      (clientSending getExample)
    = (conn', cache openServer,
       logRequest okWorld "10.0.0.9" 4242 (req_Host exampleRequest)
         (req_Port exampleRequest) (req_Method exampleRequest)
         (req_RequestTarget exampleRequest) "ALLOWED" 200
         (len (SerializeRequest url_Parse_ref
                 (rangeHeaders okWorld (req_Headers exampleRequest)) exampleRequest))
         (len (c_in okUpstream)) "")
    ∧ wrote (clientSending getExample) (c_in okUpstream) conn'.
Proof.
  apply (X21_allowed_request_is_relayed url_Parse_ref openServer okWorld "10.0.0.9"
           4242 (clientSending getExample) exampleRequest "" okUpstream
           "HTTP/1.1" 200 "OK" ["Content-Length: 2" +:+ String CR ""] CRLF "hi").
  - apply getExample_parsed.
  - left. reflexivity.
  - reflexivity.
  - reflexivity.
  - intros c H. discriminate H.
  - reflexivity.
  - reflexivity.
  - reflexivity.
  - reflexivity.
  - reflexivity.
  - reflexivity.
  - reflexivity.
  - discriminate.
  - reflexivity.
  - reflexivity.
  - reflexivity.
  - reflexivity.
  - lia.
  - apply Forall_cons_2; [|apply Forall_nil_2].
    split_and!; [reflexivity | discriminate | discriminate].
  - left. reflexivity.
Defined.

(** X20, an instance: CONNECT to [api.test:443]. *)
Lemma X20_connect_tunnel_is_established_witness :
  ∃ conn',
    handleConnection url_Parse_ref openServer okWorld "10.0.0.9" 4242
      (clientSending connectPlain)
    = (conn', cache openServer,
       logRequest okWorld "10.0.0.9" 4242 "api.test" 443 "CONNECT"
         ("api.test" +:+ ":" +:+ Itoa 443) "ALLOWED" 200 0 0 "")
    ∧ wrote (clientSending connectPlain)
        (("HTTP/1.1 200 Connection Established" +:+ CRLF +:+ CRLF)
           +:+ tunnelDown okWorld)
        conn'.
Proof.
  apply (X20_connect_tunnel_is_established url_Parse_ref openServer okWorld "10.0.0.9"
           4242 (clientSending connectPlain) "api.test" 443 "HTTP/1.1" CRLF okUpstream).
  - reflexivity.
  - reflexivity.
  - reflexivity.
  - reflexivity.
  - reflexivity.
  - reflexivity.
  - lia.
  - reflexivity.
  - reflexivity.
  - reflexivity.
  - reflexivity.
  - reflexivity.
  - reflexivity.
Defined.

(** X22, an instance: a host under the wildcard rule of [malRules]. *)
Lemma X22_blocked_host_is_refused_witness :
  handleConnection url_Parse_ref blockingServer deafWorld "10.0.0.9" 4242
    (clientSending getMal)
  = (sendErrorResponse (clientSending getMal) 403 "Forbidden", cache blockingServer,
     logRequest deafWorld "10.0.0.9" 4242 (req_Host malRequest) (req_Port malRequest)
       (req_Method malRequest) (req_RequestTarget malRequest) "BLOCKED" 403 0 0
       "*.mal.test")
  ∧ c_out (handleConnection url_Parse_ref blockingServer deafWorld "10.0.0.9" 4242
             (clientSending getMal)).1.1
    = c_out (clientSending getMal)
      +:+ sent (clientSending getMal)
            ("HTTP/1.1 403 Forbidden" +:+ CRLF
             +:+ "Content-Type: text/plain" +:+ CRLF
             +:+ "Content-Length: 13" +:+ CRLF
             +:+ "Connection: close" +:+ CRLF
             +:+ CRLF
             +:+ "403 Forbidden")
  ∧ le_Action (handleConnection url_Parse_ref blockingServer deafWorld "10.0.0.9"
                 4242 (clientSending getMal)).2 = "BLOCKED"
  ∧ le_UpstreamStatus (handleConnection url_Parse_ref blockingServer deafWorld
                         "10.0.0.9" 4242 (clientSending getMal)).2
    = 403
  ∧ le_BlockedRule (handleConnection url_Parse_ref blockingServer deafWorld
                      "10.0.0.9" 4242 (clientSending getMal)).2 = "*.mal.test"
  ∧ ∀ w', rangeRules w' = rangeRules deafWorld → now w' = now deafWorld →
          handleConnection url_Parse_ref blockingServer w' "10.0.0.9" 4242
            (clientSending getMal)
          = handleConnection url_Parse_ref blockingServer deafWorld "10.0.0.9" 4242
              (clientSending getMal).
Proof.
  apply (X22_blocked_host_is_refused url_Parse_ref blockingServer deafWorld "10.0.0.9"
           4242 (clientSending getMal) malRequest "" "*.mal.test").
  - apply getMal_parsed.
  - left. reflexivity.
  - intros H. discriminate H.
  - vm_compute. reflexivity.
Defined.

(** X23, an instance: a request that the warm cache answers. *)
Lemma X23_connection_keeps_cache_witness :
  match handleConnection url_Parse_ref cachingServer deafWorld "10.0.0.9" 4242
          (clientSending getExample) with
  | (conn', cache', log) =>
      (cache cachingServer = None → cache' = None)
      ∧ (∀ c, cache cachingServer = Some c →
              ∃ c', cache' = Some c'
                    ∧ dom (entries c') = dom (entries c)
                    ∧ GetStats c' = GetStats c)
      ∧ ((∀ c, cache cachingServer = Some c → entries c = ∅) →
         cache' = cache cachingServer ∧ le_Action log ≠ "CACHE_HIT")
  end.
Proof.
  destruct (handleConnection url_Parse_ref cachingServer deafWorld "10.0.0.9" 4242
              (clientSending getExample)) as [[conn' cache'] log] eqn:H.
  exact (X23_connection_keeps_cache url_Parse_ref cachingServer deafWorld "10.0.0.9"
           4242 (clientSending getExample) conn' cache' log H).
Defined.

(** X24, an instance: the response of the warm cache, with no upstream to
    reach. *)
Lemma X24_cache_hit_is_served_witness :
  ∃ conn' c',
    handleConnection url_Parse_ref cachingServer deafWorld "10.0.0.9" 4242
      (clientSending getExample)
    = (conn', Some c',
       logRequest deafWorld "10.0.0.9" 4242 (req_Host exampleRequest)
         (req_Port exampleRequest) "GET" (req_RequestTarget exampleRequest)
         "CACHE_HIT" (ce_StatusCode warmEntry) 0 (len (ce_Body warmEntry)) "")
    ∧ wrote (clientSending getExample)
        (("HTTP/1.1 " +:+ Itoa (ce_StatusCode warmEntry) +:+ " OK" +:+ CRLF)
           +:+ headerLines (rangeHeaders deafWorld (ce_Headers warmEntry)) +:+ CRLF
           +:+ ce_Body warmEntry)
        conn'
    ∧ last (accessOrder c') = Some ("GET:" +:+ req_RequestTarget exampleRequest)
    ∧ dom (entries c') = dom (entries warmCache)
    ∧ GetStats c' = GetStats warmCache.
Proof.
  apply (X24_cache_hit_is_served url_Parse_ref cachingServer deafWorld "10.0.0.9" 4242
           (clientSending getExample) exampleRequest "" warmCache warmEntry).
  - apply getExample_parsed.
  - left. reflexivity.
  - reflexivity.
  - reflexivity.
  - reflexivity.
  - vm_compute. reflexivity.
  - reflexivity.
Defined.

(** X25.  A server that [NewServer] makes from a configuration that
    [LoadConfigFromINI] has returned keeps that configuration; it has a
    cache exactly when caching is enabled, made by [NewCache] with the
    configured bound, which is at least 1, and empty; and when the rules
    file does not exist it blocks no host. *)
Theorem X25_server_from_loaded_config (ParseIP : string → bool) (file : ConfigFile)
    (files : Files) (config0 : Config) (s : Server) :
  LoadConfigFromINI file = Loaded config0 →
  NewServer ParseIP files config0 = inr s →
  config s = config0
  ∧ (∀ c, cache s = Some c →
          EnableCaching config0 = true ∧ c = NewCache (CacheMaxEntries config0)
          ∧ 1 ≤ maxEntries c ∧ entries c = ∅)
  ∧ (cache s = None → EnableCaching config0 = false)
  ∧ (rulesAt files (BlockedDomainsFile config0) = RulesNotExist →
     ∀ order host, visits (blockedDomains (filter s)) order →
                   IsBlocked order (filter s) host = (false, "")).
Proof.
  intros Hload. apply Loaded_Validate, Validate_None in Hload as (_ & _ & _ & Hcache).
  unfold NewServer.
  destruct (LoadRules _ _ _) as [f err] eqn:HL. destruct err; [done|].
  destruct (negb _); [done|]. intros [= <-]. simpl. split_and!.
  - done.
  - intros c. destruct (EnableCaching config0); [|done]. intros [= <-].
    split_and!; [done | done | simpl; by apply Hcache | done].
  - by destruct (EnableCaching config0).
  - intros Hne order host Hvis. rewrite Hne in HL. injection HL as <-.
    apply visits_empty_inv in Hvis as ->. done.
Qed.

(** X25, an instance: the configuration file and the rules file of the
    examples. *)
Lemma X25_server_from_loaded_config_witness :
  match LoadConfigFromINI (ConfigData exampleINI) with
  | Loaded config0 =>
      match NewServer ParseIP_ref exampleFiles config0 with
      | inr s =>
          config s = config0
          ∧ (∀ c, cache s = Some c →
                  EnableCaching config0 = true
                  ∧ c = NewCache (CacheMaxEntries config0)
                  ∧ 1 ≤ maxEntries c ∧ entries c = ∅)
          ∧ (cache s = None → EnableCaching config0 = false)
          ∧ (rulesAt exampleFiles (BlockedDomainsFile config0) = RulesNotExist →
             ∀ order host, visits (blockedDomains (filter s)) order →
                           IsBlocked order (filter s) host = (false, ""))
      | inl _ => False
      end
  | _ => False
  end.
Proof.
  destruct (LoadConfigFromINI (ConfigData exampleINI)) as [config0| |e] eqn:Hload;
    [| vm_compute in Hload; discriminate..].
  destruct (NewServer ParseIP_ref exampleFiles config0) as [e|s] eqn:HN.
  - vm_compute in Hload. injection Hload as <-. vm_compute in HN. discriminate.
  - exact (X25_server_from_loaded_config ParseIP_ref (ConfigData exampleINI)
             exampleFiles config0 s Hload HN).
Defined.

